(** * PodAI generation pipeline: a shallow embedding

    The backend of the repository turns an article URL into a narrated
    clip.  This development embeds the functions of
    [Clodflare-Backend/src]: the scraper ([scrapeWebpage], [extractTitle]),
    the summarisation adapter ([summarizeArticle]), the speech adapter
    ([generateAudio]), the persistence adapter ([savePodcast],
    [getPodcastByUrl], [logProcessingError], [generateCacheKey]) and the two
    orchestrators ([generatePodcastSync] and [PodcastWorkflow.run]).

    JavaScript strings are sequences of UTF-16 code units; they are modelled
    as lists of integers, and every length, index and comparison is an
    integer as in the source.  Exceptions are a result type carrying the
    message of the thrown [Error]; calls to the outside world (HTTP, the
    text model, the speech service, the object store, the database) go
    through an explicit world with a trace of the calls made. *)

From Stdlib Require Import String Ascii ZArith List Bool Lia.
Import ListNotations.
Open Scope Z_scope.

(** ** JavaScript strings *)

Module JS.

Definition jsstring := list Z.

(** An ASCII literal as a JavaScript string. *)
Definition str (s : string) : jsstring :=
  map (fun a => Z.of_nat (nat_of_ascii a)) (list_ascii_of_string s).

(** [s.length] *)
Definition len (s : jsstring) : Z := Z.of_nat (length s).

(** [s.charCodeAt(i)]; out of range is [NaN], here [-1]. *)
Definition charCodeAt (s : jsstring) (i : Z) : Z :=
  if i <? 0 then -1 else nth (Z.to_nat i) s (-1).

(** [s.substring(0, n)] *)
Definition substring0 (n : Z) (s : jsstring) : jsstring :=
  firstn (Z.to_nat n) s.

Definition eqs (a b : jsstring) : bool :=
  if list_eq_dec Z.eq_dec a b then true else false.

(** [s.lastIndexOf(c)] for a one-character pattern: the greatest index
    holding [c], or [-1]. *)
Fixpoint lastIndexOf_from (c : Z) (s : jsstring) (i acc : Z) : Z :=
  match s with
  | [] => acc
  | x :: t => lastIndexOf_from c t (i + 1) (if x =? c then i else acc)
  end.

Definition lastIndexOf (c : Z) (s : jsstring) : Z :=
  lastIndexOf_from c s 0 (-1).

(** [s.startsWith(p)] *)
Fixpoint startsWith (p s : jsstring) : bool :=
  match p, s with
  | [], _ => true
  | _ :: _, [] => false
  | a :: p', b :: s' => (a =? b) && startsWith p' s'
  end.

(** [s.includes(p)] *)
Fixpoint includes (p s : jsstring) : bool :=
  startsWith p s ||
  match s with
  | [] => false
  | _ :: s' => includes p s'
  end.

(** White space as [\s] and [trim] see it: the WhiteSpace and
    LineTerminator productions of the language. *)
Definition is_space (c : Z) : bool :=
  ((9 <=? c) && (c <=? 13)) || (c =? 32) || (c =? 160) || (c =? 5760) ||
  ((8192 <=? c) && (c <=? 8202)) || (c =? 8232) || (c =? 8233) ||
  (c =? 8239) || (c =? 8287) || (c =? 12288) || (c =? 65279).

(** Line terminators, which [.] does not match. *)
Definition is_line_terminator (c : Z) : bool :=
  (c =? 10) || (c =? 13) || (c =? 8232) || (c =? 8233).

Fixpoint trimStart (s : jsstring) : jsstring :=
  match s with
  | [] => []
  | c :: t => if is_space c then trimStart t else s
  end.

Definition trimEnd (s : jsstring) : jsstring := rev (trimStart (rev s)).

(** [s.trim()] *)
Definition trim (s : jsstring) : jsstring := trimEnd (trimStart s).

(** ASCII case mapping; [toUpperCase] and [toLowerCase] are applied by the
    source to URL components only, which are ASCII. *)
Definition upper (c : Z) : Z :=
  if (97 <=? c) && (c <=? 122) then c - 32 else c.
Definition lower (c : Z) : Z :=
  if (65 <=? c) && (c <=? 90) then c + 32 else c.
Definition toUpperCase (s : jsstring) : jsstring := map upper s.
Definition toLowerCase (s : jsstring) : jsstring := map lower s.

(** Matching under the [i] flag against an ASCII pattern. *)
Fixpoint startsWith_ci (p s : jsstring) : bool :=
  match p, s with
  | [], _ => true
  | _ :: _, [] => false
  | a :: p', b :: s' => (lower a =? lower b) && startsWith_ci p' s'
  end.

(** Word characters of [\b]. *)
Definition is_word (c : Z) : bool :=
  ((48 <=? c) && (c <=? 57)) || ((65 <=? c) && (c <=? 90)) ||
  ((97 <=? c) && (c <=? 122)) || (c =? 95).

(** Index of the first occurrence of [p] in [s], under a prefix test
    [pre] (exact or case-insensitive). *)
Fixpoint index_with (pre : jsstring -> jsstring -> bool)
         (p s : jsstring) : option nat :=
  if pre p s then Some 0%nat
  else match s with
       | [] => None
       | _ :: s' => option_map S (index_with pre p s')
       end.

(** A global replace: [m] gives the length of the match that starts at
    the head of its argument, if there is one; a match is never empty.
    [skip] counts the characters of the current match still to drop. *)
Fixpoint replace_all_from (m : jsstring -> option nat) (rep : jsstring)
         (skip : nat) (s : jsstring) : jsstring :=
  match s with
  | [] => []
  | c :: t =>
      match skip with
      | S k => replace_all_from m rep k t
      | O =>
          match m s with
          | Some (S k) => rep ++ replace_all_from m rep k t
          | _ => c :: replace_all_from m rep O t
          end
      end
  end.

Definition replace_all (m : jsstring -> option nat) (rep s : jsstring)
  : jsstring := replace_all_from m rep O s.

(** [s.replace(/p/g, rep)] for a literal [p]. *)
Definition match_lit (p : jsstring) (s : jsstring) : option nat :=
  if startsWith p s then Some (length p) else None.

(** [s.replace(p, rep)] for a string pattern: the first occurrence only. *)
Definition replace_first (p rep s : jsstring) : jsstring :=
  match index_with startsWith p s with
  | Some i => firstn i s ++ rep ++ skipn (i + length p) s
  | None => s
  end.

(** [s.split(c)] for a one-character separator. *)
Fixpoint split (c : Z) (s : jsstring) : list jsstring :=
  match s with
  | [] => [[]]
  | x :: t =>
      if x =? c then [] :: split c t
      else match split c t with
           | [] => [[x]]
           | w :: ws => (x :: w) :: ws
           end
  end.

(** [parts.join(sep)] *)
Fixpoint join (sep : jsstring) (parts : list jsstring) : jsstring :=
  match parts with
  | [] => []
  | [w] => w
  | w :: ws => w ++ sep ++ join sep ws
  end.

(** Digits of a non-negative integer in a radix up to 36, as
    [Number.prototype.toString(radix)] writes them. *)
Definition digit (d : Z) : Z := if d <? 10 then 48 + d else 87 + d.

Fixpoint to_radix (fuel : nat) (radix n : Z) (acc : jsstring) : jsstring :=
  match fuel with
  | O => acc
  | S f =>
      let acc' := digit (n mod radix) :: acc in
      if n / radix =? 0 then acc' else to_radix f radix (n / radix) acc'
  end.

Definition toString_radix (radix n : Z) : jsstring :=
  to_radix (S (Z.to_nat (Z.log2 n))) radix n [].

(** Template interpolation of a non-negative integer: [`${n}`]. *)
Definition num (n : Z) : jsstring := toString_radix 10 n.

(** [ToInt32]: the value modulo [2^32], read as a signed 32-bit integer. *)
Definition to_int32 (z : Z) : Z := (z + 2 ^ 31) mod 2 ^ 32 - 2 ^ 31.

End JS.

Import JS.

(** ** Persistence adapter: the cache key ([database.js]) *)

(** One turn of the loop of [generateCacheKey]:
    [hash = ((hash << 5) - hash) + char; hash = hash & hash]. *)
Definition hash_step (hash char : Z) : Z :=
  to_int32 (to_int32 (Z.shiftl hash 5) - hash + char).

(** The locals of [generateCacheKey]. *)
Record KeyLoop := { k_hash : Z; k_i : Z }.

(** [for (let i = 0; i < url.length; i++) { const char = url.charCodeAt(i);
    ... }]: the loop runs while its test holds, at most [fuel] times. *)
Fixpoint key_loop (fuel : nat) (url : jsstring) (st : KeyLoop) : KeyLoop :=
  match fuel with
  | O => st
  | S fuel' =>
      if k_i st <? len url then
        let char := charCodeAt url (k_i st) in
        key_loop fuel' url
                 {| k_hash := hash_step (k_hash st) char; k_i := k_i st + 1 |}
      else st
  end.

(** [generateCacheKey(url)]: the loop from [hash = 0], [i = 0], with one
    turn per character, then [Math.abs(hash).toString(36)]. *)
Definition generateCacheKey (url : jsstring) : jsstring :=
  let final := key_loop (length url) url {| k_hash := 0; k_i := 0 |} in
  toString_radix 36 (Z.abs (k_hash final)).

(** ** Scraper ([scraper.js]) *)

(** The truncation that the scraper, the summariser, both orchestrators
    and the speech adapter apply with their own constants:
    [if (s.length > limit) { s = s.substring(0, limit);
      const lastPeriod = s.lastIndexOf('.');
      if (lastPeriod > boundary) s = s.substring(0, lastPeriod + 1); }] *)
Definition truncate_at (limit boundary : Z) (s : jsstring) : jsstring :=
  if len s >? limit then
    let t := substring0 limit s in
    let lastPeriod := lastIndexOf 46 t in
    if lastPeriod >? boundary then substring0 (lastPeriod + 1) t else t
  else s.

(** The block pattern of lines 37 and 40 at the head of [s]: the opening
    name under the [i] flag, a word boundary, then text and tags that do
    not start the closing tag, then the closing tag.  A closing tag starts
    with the character that ends every run of the pattern, so the match
    runs to the first closing tag. *)
Definition match_block (tag s : jsstring) : option nat :=
  let opening := 60 :: tag in
  let closing := 60 :: 47 :: tag ++ [62] in
  if startsWith_ci opening s then
    let rest := skipn (length opening) s in
    let boundary := match rest with [] => true | c :: _ => negb (is_word c) end in
    if boundary then
      match index_with startsWith_ci closing rest with
      | Some i => Some (length opening + i + length closing)%nat
      | None => None
      end
    else None
  else None.

(** The comment pattern of line 43 at the head of [s]: the opening
    mark, then lazily anything up to the first closing mark. *)
Definition match_comment (s : jsstring) : option nat :=
  if startsWith (str "<!--") s then
    match index_with startsWith (str "-->") (skipn 4 s) with
    | Some i => Some (4 + i + 3)%nat
    | None => None
    end
  else None.

(** The tag pattern of line 46 at the head of [s]: an opening angle, one
    or more characters other than closing angle, a closing angle. *)
Definition match_tag (s : jsstring) : option nat :=
  match s with
  | 60 :: rest =>
      match index_with startsWith [62] rest with
      | Some (S i) => Some (S (S (S i)))
      | _ => None
      end
  | _ => None
  end.

(** A run of white space at the head of [s] (line 59): its length. *)
Fixpoint space_run (s : jsstring) : nat :=
  match s with
  | c :: t => if is_space c then S (space_run t) else O
  | [] => O
  end.

Definition match_spaces (s : jsstring) : option nat :=
  match space_run s with
  | O => None
  | n => Some n
  end.

(** Lines 34-62 of [scrapeWebpage]: the clean-up of the markup. *)
Definition clean_html (html : jsstring) : jsstring :=
  let t := replace_all (match_block (str "script")) [] html in
  let t := replace_all (match_block (str "style")) [] t in
  let t := replace_all match_comment [] t in
  let t := replace_all match_tag (str " ") t in
  let t := replace_all (match_lit (str "&nbsp;")) (str " ") t in
  let t := replace_all (match_lit (str "&amp;")) (str "&") t in
  let t := replace_all (match_lit (str "&lt;")) (str "<") t in
  let t := replace_all (match_lit (str "&gt;")) (str ">") t in
  let t := replace_all (match_lit (str "&quot;")) [34] t in
  let t := replace_all (match_lit (str "&#39;")) (str "'") t in
  let t := replace_all (match_lit (str "&apos;")) (str "'") t in
  let t := replace_all match_spaces (str " ") t in
  trim t.

(** What [new URL(url)] exposes to [extractTitle]. *)
Record URLRecord := { hostname : jsstring; pathname : jsstring }.

(** Line 114: a final dot followed to the end by one or more characters
    other than dots is removed with them. *)
Definition strip_extension (s : jsstring) : jsstring :=
  let lastDot := lastIndexOf 46 s in
  if (0 <=? lastDot) && (lastDot <? len s - 1) then substring0 lastDot s
  else s.

(** [word.charAt(0).toUpperCase() + word.slice(1).toLowerCase()] *)
Definition capitalize (word : jsstring) : jsstring :=
  match word with
  | [] => word
  | c :: rest => toUpperCase [c] ++ toLowerCase rest
  end.

(** Lines 102-111: the last segment of the path that is not empty, or,
    without one, the host name after [replace('www.', '')]. *)
Definition title_segment (u : URLRecord) : jsstring :=
  let pathSegments :=
    filter (fun segment => 0 <? len segment) (split 47 (pathname u)) in
  match pathSegments with
  | [] => replace_first (str "www.") [] (hostname u)
  | _ => last pathSegments []
  end.

(** Lines 114-131: extension, separators, capitals, white space. *)
Definition format_title (titleSegment : jsstring) : jsstring :=
  let titleSegment := strip_extension titleSegment in
  let title :=
    replace_all (match_lit (str "_")) (str " ")
      (replace_all (match_lit (str "-")) (str " ") titleSegment) in
  let title := join (str " ") (map capitalize (split 32 title)) in
  trim (replace_all match_spaces (str " ") title).

(** Lines 134-141: the fallback, then the limit. *)
Definition finish_title (title : jsstring) : jsstring :=
  let title := if len title <? 3 then str "Article" else title in
  if len title >? 100 then trim (substring0 100 title) else title.

(** The body of [extractTitle] once the URL is parsed. *)
Definition title_of_url (u : URLRecord) : jsstring :=
  finish_title (format_title (title_segment u)).

(** ** The outside world *)

(** A thrown [Error] is its message. *)
Inductive Res (A : Type) : Type :=
| Ok (a : A)
| Throw (msg : jsstring).
Arguments Ok {A} a.
Arguments Throw {A} msg.

(** The answer of an HTTP request: a rejected [fetch], or a response. *)
Record HttpResponse := {
  resp_ok : bool;
  resp_status : Z;
  resp_statusText : jsstring;
  resp_text : jsstring;
  resp_bytes : list Z
}.

Inductive FetchOutcome :=
| NetworkError (msg : jsstring)
| Responded (r : HttpResponse).

(** What [ai.run] gives back: the shapes [summarizeArticle] tells apart.
    [AiObject a b] is an object whose [response] is [a] and whose
    [result.response] is [b], when present. *)
Inductive AiValue :=
| AiObject (response : option jsstring) (result_response : option jsstring)
| AiString (s : jsstring)
| AiOther.

Inductive AiOutcome :=
| AiThrows (msg : jsstring)
| AiReturns (v : AiValue).

(** The argument of [savePodcast]; [None] is a property left undefined. *)
Record PodcastData := {
  pd_url : jsstring;
  pd_title : jsstring;
  pd_summary : jsstring;
  pd_audioFileName : jsstring;
  pd_audioUrl : jsstring;
  pd_userId : option jsstring;
  pd_status : option jsstring;
  pd_processingTimeMs : option Z;
  pd_contentLength : option Z;
  pd_summaryLength : option Z;
  pd_audioSizeBytes : option Z;
  pd_cacheKey : jsstring
}.

(** A row of the table [podcasts]; [None] is SQL [NULL]. *)
Record PodcastRow := {
  row_id : Z;
  row_url : jsstring;
  row_title : jsstring;
  row_summary : jsstring;
  row_audio_file_name : jsstring;
  row_audio_url : option jsstring;
  row_created_at : Z;
  row_user_id : option jsstring;
  row_status : option jsstring;
  row_processing_time_ms : option Z;
  row_content_length : option Z;
  row_summary_length : option Z;
  row_audio_size_bytes : option Z;
  row_cache_key : option jsstring
}.

(** The argument of [logProcessingError], and a row of [processing_logs]. *)
Record LogEntry := {
  log_podcastId : option Z;
  log_url : jsstring;
  log_errorType : jsstring;
  log_errorMessage : jsstring;
  log_stackTrace : option jsstring
}.

(** The calls a run makes to its collaborators, in order. *)
Inductive Event :=
| EvFetchPage (url : jsstring)
| EvAiRun (model system user : jsstring)
| EvTts (endpoint apiKey text : jsstring)
| EvBucketPut (key : jsstring) (bytes : list Z)
| EvDbExec
| EvDbSelectByUrl (url : jsstring)
| EvDbInsertPodcast (data : PodcastData)
| EvDbInsertLog (entry : LogEntry).

(** The globals of the Workers runtime: [fetch], [URL], the latency of
    each call (read back through [Date.now()]), and what the base class
    [WorkflowEntrypoint] offers under the name [generateCacheKey], which
    [PodcastWorkflow] itself does not declare. *)
Record Runtime := {
  http_get : jsstring -> FetchOutcome;
  http_post_tts : jsstring -> jsstring -> jsstring -> FetchOutcome;
  new_URL : jsstring -> option URLRecord;
  latency : Event -> Z;
  base_generateCacheKey : option (jsstring -> jsstring)
}.

(** A D1 binding: when its statements fail.  Uniqueness of [url] and
    [cache_key] is part of the table and is checked by the insert. *)
Record D1 := {
  exec_fault : option jsstring;
  select_fault : jsstring -> option jsstring;
  insert_fault : PodcastData -> option jsstring;
  log_fault : LogEntry -> option jsstring
}.

(** The bindings of [env]; [None] is a binding that is not configured. *)
Record Env := {
  PODCAST_DB : option D1;
  AI : option (jsstring -> jsstring -> jsstring -> AiOutcome);
  AUDIO_BUCKET : option (jsstring -> option jsstring);
  ELEVENLABS_API_KEY : option jsstring;
  ELEVENLABS_VOICE_ID : option jsstring
}.

(** The state a run reads and writes. *)
Record World := {
  podcasts : list PodcastRow;
  next_podcast_id : Z;
  processing_logs : list LogEntry;
  bucket : list (jsstring * list Z);
  trace : list Event;
  clock : Z
}.

(** Computations that read and write the world and may throw. *)
Definition M (A : Type) : Type := World -> Res A * World.

Definition ret {A} (a : A) : M A := fun w => (Ok a, w).
Definition throw {A} (msg : jsstring) : M A := fun w => (Throw msg, w).
Definition bind {A B} (m : M A) (k : A -> M B) : M B :=
  fun w =>
    match m w with
    | (Ok a, w') => k a w'
    | (Throw msg, w') => (Throw msg, w')
    end.
Definition try_catch {A} (m : M A) (handler : jsstring -> M A) : M A :=
  fun w =>
    match m w with
    | (Ok a, w') => (Ok a, w')
    | (Throw msg, w') => handler msg w'
    end.

Notation "x <- m ;; k" := (bind m (fun x => k))
  (at level 61, m at next level, right associativity).
Notation "m ;;; k" := (bind m (fun _ => k))
  (at level 61, right associativity).

(** A JavaScript string used as a condition. *)
Definition truthy (o : option jsstring) : bool :=
  match o with
  | Some (_ :: _) => true
  | _ => false
  end.

Section Runtime.

Variable rt : Runtime.

(** A call to a collaborator: it is recorded, and time passes. *)
Definition record_call (e : Event) (w : World) : World :=
  {| podcasts := podcasts w;
     next_podcast_id := next_podcast_id w;
     processing_logs := processing_logs w;
     bucket := bucket w;
     trace := trace w ++ [e];
     clock := clock w + latency rt e |}.

Definition emit (e : Event) : M unit := fun w => (Ok tt, record_call e w).

(** [Date.now()] *)
Definition Date_now : M Z := fun w => (Ok (clock w), w).

(** [await fetch(url, ...)] of the scraper. *)
Definition fetch_page (url : jsstring) : M HttpResponse :=
  emit (EvFetchPage url) ;;;
  match http_get rt url with
  | NetworkError msg => throw msg
  | Responded r => ret r
  end.

(** [scrapeWebpage(url)] *)
Definition scrapeWebpage (url : jsstring) : M jsstring :=
  try_catch
    (response <- fetch_page url ;;
     if negb (resp_ok response) then
       throw (str "Failed to fetch webpage: " ++ num (resp_status response)
              ++ str " " ++ resp_statusText response)
     else
       let html := resp_text response in
       if len html <? 100 then
         throw (str "Webpage returned empty or insufficient content")
       else
         let textContent := truncate_at 1000 800 (clean_html html) in
         if len textContent <? 100 then
           throw (str "Not enough meaningful content found on the page")
         else ret textContent)
    (fun message => throw (str "Failed to scrape webpage: " ++ message)).

(** [extractTitle(url)]: a URL that does not parse makes [new URL] throw,
    and the handler returns the fallback. *)
Definition extractTitle (url : jsstring) : jsstring :=
  match new_URL rt url with
  | Some u => title_of_url u
  | None => str "Article"
  end.

(** ** Summariser ([ai-helper.js]) *)

(** Lazily any characters but line terminators, then a colon: the index
    of the first colon, unless a line terminator comes before it. *)
Fixpoint colon_after (s : jsstring) : option nat :=
  match s with
  | [] => None
  | c :: t =>
      if c =? 58 then Some O
      else if is_line_terminator c then None
      else option_map S (colon_after t)
  end.

(** The first pattern of the clean-up, anchored at the start:
    one of the heads under the [i] flag, then up to the first colon. *)
Fixpoint match_preamble (heads : list jsstring) (s : jsstring) : option nat :=
  match heads with
  | [] => None
  | h :: hs =>
      if startsWith_ci h s then
        match colon_after (skipn (length h) s) with
        | Some i => Some (length h + i + 1)%nat
        | None => match_preamble hs s
        end
      else match_preamble hs s
  end.

Definition strip_preamble (s : jsstring) : jsstring :=
  match match_preamble
          [str "Here's"; str "Here is"; str "This is"; str "I've created"] s
  with
  | Some n => skipn n s
  | None => s
  end.

(** The second pattern: one of the heads, an optional comma, exclamation
    mark or full stop, then white space. *)
Fixpoint match_ack (heads : list jsstring) (s : jsstring) : option nat :=
  match heads with
  | [] => None
  | h :: hs =>
      if startsWith_ci h s then
        let rest := skipn (length h) s in
        let p := match rest with
                 | c :: _ =>
                     if (c =? 44) || (c =? 33) || (c =? 46) then 1%nat
                     else O
                 | [] => O
                 end in
        Some (length h + p + space_run (skipn p rest))%nat
      else match_ack hs s
  end.

Definition strip_ack (s : jsstring) : jsstring :=
  match match_ack [str "Sure"; str "Okay"; str "Alright"] s with
  | Some n => skipn n s
  | None => s
  end.

(** Lines 503-509: the clean-up of the model's text. *)
Definition clean_summary (summary : jsstring) : jsstring :=
  trim (strip_ack (strip_preamble (trim summary))).

Definition systemPrompt : jsstring :=
  str "Create a short podcast script (100-150 words) in conversational tone. Start with a hook, be informative, end with a takeaway. NO meta-commentary.".

Definition userPrompt (processedContent : jsstring) : jsstring :=
  str "Article: " ++ processedContent ++ [10; 10] ++ str "Podcast script:".

Definition llama : jsstring := str "@cf/meta/llama-3.1-8b-instruct".

(** [await ai.run(model, {messages, ...})] *)
Definition ai_run (run : jsstring -> jsstring -> jsstring -> AiOutcome)
           (system user : jsstring) : M AiValue :=
  emit (EvAiRun llama system user) ;;;
  match run llama system user with
  | AiThrows msg => throw msg
  | AiReturns v => ret v
  end.

(** The text of a response, whatever its shape: [response.response],
    else [response.result.response], else a response that is a string
    itself; an empty string does not count in the first two. *)
Definition text_of_response (response : AiValue) : option jsstring :=
  match response with
  | AiObject (Some (c :: r)) _ => Some (c :: r)
  | AiObject _ (Some (c :: r)) => Some (c :: r)
  | AiString s => Some s
  | _ => None
  end.

Definition response_text (response : AiValue) : M jsstring :=
  match text_of_response response with
  | Some summary => ret summary
  | None => throw (str "Invalid response format from AI model")
  end.

(** [summarizeArticle(ai, content)] *)
Definition summarizeArticle
           (ai : option (jsstring -> jsstring -> jsstring -> AiOutcome))
           (content : jsstring) : M jsstring :=
  try_catch
    (match ai with
     | None => throw (str "AI binding not available")
     | Some run =>
         if len content =? 0 then
           throw (str "Invalid content provided for summarization")
         else if len content <? 100 then
           throw (str "Content too short for summarization (minimum 100 characters)")
         else
           let processedContent := truncate_at 1000 800 content in
           response <- ai_run run systemPrompt (userPrompt processedContent) ;;
           summary <- response_text response ;;
           let summary := clean_summary summary in
           if len summary <? 50 then
             throw (str "AI generated insufficient content: "
                    ++ num (len summary) ++ str " characters")
           else ret summary
     end)
    (fun message =>
       if includes (str "AI binding not available") message then throw message
       else if includes (str "Invalid content") message then throw message
       else if includes (str "too short") message then throw message
       else if includes (str "insufficient content") message then throw message
       else throw (str "AI summarization failed: " ++ message)).

(** ** Speech adapter ([generateAudio] of [index.js] and of
    [PodcastWorkflow], the same text twice) *)

Definition default_voice : jsstring := str "21m00Tcm4TlvDq8ikWAM".

(** [await fetch(endpoint, {method: 'POST', ...})] *)
Definition fetch_tts (endpoint apiKey text : jsstring) : M HttpResponse :=
  emit (EvTts endpoint apiKey text) ;;;
  match http_post_tts rt endpoint apiKey text with
  | NetworkError msg => throw msg
  | Responded r => ret r
  end.

(** [env.ELEVENLABS_VOICE_ID || '21m00Tcm4TlvDq8ikWAM'] *)
Definition voiceId_of (env : Env) : jsstring :=
  if truthy (ELEVENLABS_VOICE_ID env)
  then match ELEVENLABS_VOICE_ID env with Some v => v | None => [] end
  else default_voice.

(** [`https://api.elevenlabs.io/v1/text-to-speech/${voiceId}`] *)
Definition tts_endpoint (env : Env) : jsstring :=
  str "https://api.elevenlabs.io/v1/text-to-speech/" ++ voiceId_of env.

(** [generateAudio(text, env)] *)
Definition generateAudio (text : jsstring) (env : Env) : M (list Z) :=
  match ELEVENLABS_API_KEY env with
  | Some (k :: ey) =>
      let apiKey := k :: ey in
      if len (trim text) =? 0 then
        throw (str "Cannot generate audio from empty text")
      else
        let processedText := truncate_at 800 600 text in
        let endpoint := tts_endpoint env in
        try_catch
          (response <- fetch_tts endpoint apiKey processedText ;;
           if negb (resp_ok response) then
             throw (str "ElevenLabs API error: " ++ num (resp_status response)
                    ++ str " - " ++ resp_text response)
           else
             let audioBuffer := resp_bytes response in
             if len audioBuffer =? 0 then
               throw (str "ElevenLabs returned empty audio")
             else ret audioBuffer)
          (fun message => throw (str "ElevenLabs TTS failed: " ++ message))
  | _ => throw (str "ElevenLabs API key not configured")
  end.

(** ** Persistence adapter ([database.js]) *)

Definition set_tables (w : World) (rows : list PodcastRow) (next : Z)
           (logs : list LogEntry) : World :=
  {| podcasts := rows;
     next_podcast_id := next;
     processing_logs := logs;
     bucket := bucket w;
     trace := trace w;
     clock := clock w |}.

Definition set_bucket (w : World) (b : list (jsstring * list Z)) : World :=
  {| podcasts := podcasts w;
     next_podcast_id := next_podcast_id w;
     processing_logs := processing_logs w;
     bucket := b;
     trace := trace w;
     clock := clock w |}.

(** [initializeDatabase(db)]: the schema script creates what is missing
    and touches no row; a failure is caught and reported as [false]. *)
Definition initializeDatabase (db : D1) : M bool :=
  emit EvDbExec ;;;
  match exec_fault db with
  | Some _ => ret false
  | None => ret true
  end.

(** The row that the [INSERT] of [savePodcast] writes. *)
Definition row_of_data (id now : Z) (d : PodcastData) : PodcastRow :=
  {| row_id := id;
     row_url := pd_url d;
     row_title := pd_title d;
     row_summary := pd_summary d;
     row_audio_file_name := pd_audioFileName d;
     row_audio_url := Some (pd_audioUrl d);
     row_created_at := now;
     row_user_id :=
       Some (match pd_userId d with Some u => u | None => str "anonymous" end);
     row_status :=
       Some (match pd_status d with Some s => s | None => str "completed" end);
     row_processing_time_ms := pd_processingTimeMs d;
     row_content_length := pd_contentLength d;
     row_summary_length := pd_summaryLength d;
     row_audio_size_bytes := pd_audioSizeBytes d;
     row_cache_key := Some (pd_cacheKey d) |}.

(** The two [UNIQUE] columns of [podcasts]. *)
Definition clashes (d : PodcastData) (r : PodcastRow) : bool :=
  eqs (row_url r) (pd_url d) ||
  match row_cache_key r with
  | Some k => eqs k (pd_cacheKey d)
  | None => false
  end.

(** The prepared [INSERT INTO podcasts ... .run()]. *)
Definition insert_podcast (db : D1) (d : PodcastData) : M Z :=
  emit (EvDbInsertPodcast d) ;;;
  match insert_fault db d with
  | Some msg => throw msg
  | None =>
      fun w =>
        if existsb (clashes d) (podcasts w) then
          (Throw (str "UNIQUE constraint failed"), w)
        else
          let id := next_podcast_id w in
          (Ok id,
           set_tables w (podcasts w ++ [row_of_data id (clock w) d])
                      (id + 1) (processing_logs w))
  end.

Inductive SaveResult :=
| Saved (id : Z)
| SaveFailed (error : jsstring).

(** [savePodcast(db, podcastData)] *)
Definition savePodcast (db : D1) (podcastData : PodcastData) : M SaveResult :=
  try_catch
    (id <- insert_podcast db podcastData ;; ret (Saved id))
    (fun message => ret (SaveFailed message)).

(** A podcast as the API hands it out; [None] is a property that is
    absent or null. *)
Record PodcastView := {
  v_id : option Z;
  v_url : jsstring;
  v_title : jsstring;
  v_summary : jsstring;
  v_audioFileName : jsstring;
  v_audioUrl : option jsstring;
  v_createdAt : option Z;
  v_userId : option jsstring;
  v_status : option jsstring;
  v_processingTimeMs : option Z;
  v_contentLength : option Z;
  v_summaryLength : option Z;
  v_audioSizeBytes : option Z;
  v_cacheKey : option jsstring;
  v_cached : option bool
}.

(** "Convert database row to API format". *)
Definition view_of_row (result : PodcastRow) : PodcastView :=
  {| v_id := Some (row_id result);
     v_url := row_url result;
     v_title := row_title result;
     v_summary := row_summary result;
     v_audioFileName := row_audio_file_name result;
     v_audioUrl := row_audio_url result;
     v_createdAt := Some (row_created_at result);
     v_userId := row_user_id result;
     v_status := row_status result;
     v_processingTimeMs := row_processing_time_ms result;
     v_contentLength := row_content_length result;
     v_summaryLength := row_summary_length result;
     v_audioSizeBytes := row_audio_size_bytes result;
     v_cacheKey := row_cache_key result;
     v_cached := None |}.

(** [SELECT * FROM podcasts WHERE url = ?] with [.first()] *)
Definition select_by_url (db : D1) (url : jsstring) : M (option PodcastRow) :=
  emit (EvDbSelectByUrl url) ;;;
  match select_fault db url with
  | Some msg => throw msg
  | None => fun w => (Ok (find (fun r => eqs (row_url r) url) (podcasts w)), w)
  end.

Inductive Lookup :=
| Hit (data : PodcastView)
| Miss
| LookupFailed (error : jsstring).

(** [getPodcastByUrl(db, url)] *)
Definition getPodcastByUrl (db : D1) (url : jsstring) : M Lookup :=
  try_catch
    (result <- select_by_url db url ;;
     match result with
     | Some row => ret (Hit (view_of_row row))
     | None => ret Miss
     end)
    (fun message => ret (LookupFailed message)).

(** [logProcessingError(db, errorData)] *)
Definition logProcessingError (db : D1) (errorData : LogEntry) : M bool :=
  try_catch
    (emit (EvDbInsertLog errorData) ;;;
     match log_fault db errorData with
     | Some msg => throw msg
     | None =>
         fun w =>
           (Ok true,
            set_tables w (podcasts w) (next_podcast_id w)
                       (processing_logs w ++ [errorData]))
     end)
    (fun _ => ret false).

(** [env.AUDIO_BUCKET.put(fileName, audioBuffer, ...)] *)
Definition bucket_put (put_fault : jsstring -> option jsstring)
           (fileName : jsstring) (audioBuffer : list Z) : M unit :=
  emit (EvBucketPut fileName audioBuffer) ;;;
  match put_fault fileName with
  | Some msg => throw msg
  | None =>
      fun w =>
        (Ok tt,
         set_bucket w
           ((fileName, audioBuffer)
              :: filter (fun kv => negb (eqs (fst kv) fileName)) (bucket w)))
  end.

(** ** Orchestrators ([index.js] and [workflow.js]) *)

Inductive GenResult :=
| GenSuccess (data : PodcastView)
| GenFailure (error : jsstring).

Definition set_audioUrl (v : PodcastView) (audioUrl : option jsstring)
           (cached : option bool) : PodcastView :=
  {| v_id := v_id v;
     v_url := v_url v;
     v_title := v_title v;
     v_summary := v_summary v;
     v_audioFileName := v_audioFileName v;
     v_audioUrl := audioUrl;
     v_createdAt := v_createdAt v;
     v_userId := v_userId v;
     v_status := v_status v;
     v_processingTimeMs := v_processingTimeMs v;
     v_contentLength := v_contentLength v;
     v_summaryLength := v_summaryLength v;
     v_audioSizeBytes := v_audioSizeBytes v;
     v_cacheKey := v_cacheKey v;
     v_cached := cached |}.

(** "Ensure full audio URL is included" (lines 647-649 of the worker):
    the URL is rebuilt when the record names a file and its stored URL
    does not start with [http]. *)
Definition ensure_audio_url (origin : jsstring) (cachedData : PodcastView)
  : option jsstring :=
  if (0 <? len (v_audioFileName cachedData)) &&
     negb (match v_audioUrl cachedData with
           | Some u => startsWith (str "http") u
           | None => false
           end)
  then Some (origin ++ str "/audio/" ++ v_audioFileName cachedData)
  else v_audioUrl cachedData.

(** [{...cachedData, cached: true}] after the URL is ensured. *)
Definition cached_view (origin : jsstring) (cachedData : PodcastView)
  : PodcastView :=
  set_audioUrl cachedData (ensure_audio_url origin cachedData) (Some true).

(** [{...podcastData, audioUrl, createdAt}] *)
Definition view_of_data (d : PodcastData) (audioUrl : jsstring)
           (createdAt : Z) (cached : option bool) : PodcastView :=
  {| v_id := None;
     v_url := pd_url d;
     v_title := pd_title d;
     v_summary := pd_summary d;
     v_audioFileName := pd_audioFileName d;
     v_audioUrl := Some audioUrl;
     v_createdAt := Some createdAt;
     v_userId := pd_userId d;
     v_status := pd_status d;
     v_processingTimeMs := pd_processingTimeMs d;
     v_contentLength := pd_contentLength d;
     v_summaryLength := pd_summaryLength d;
     v_audioSizeBytes := pd_audioSizeBytes d;
     v_cacheKey := Some (pd_cacheKey d);
     v_cached := cached |}.

(** [`podcast_${generateCacheKey(url)}.mp3`] *)
Definition audio_file_name (key : jsstring) : jsstring :=
  str "podcast_" ++ key ++ str ".mp3".

(** "Initialize database if needed" *)
Definition init_if_bound (env : Env) : M unit :=
  match PODCAST_DB env with
  | Some db => initializeDatabase db ;;; ret tt
  | None => ret tt
  end.

(** The best-effort save that ends both orchestrators: neither a failure
    result nor an exception of [savePodcast] stops the run. *)
Definition save_if_bound (env : Env) (podcastData : PodcastData) : M unit :=
  match PODCAST_DB env with
  | Some db =>
      try_catch (savePodcast db podcastData ;;; ret tt) (fun _ => ret tt)
  | None => ret tt
  end.

(** Steps 2 to 6 of [generatePodcastSync], after a cache miss. *)
Definition generate_fresh (startTime : Z) (url userId : jsstring) (env : Env)
           (origin : jsstring) : M GenResult :=
  content <- try_catch (scrapeWebpage url)
               (fun message =>
                  throw (str "Failed to scrape webpage: " ++ message)) ;;
  let title := extractTitle url in
  if len content <? 100 then
    throw (str "Insufficient content extracted from webpage. The page may be empty or require authentication.")
  else
  match AI env with
  | None => throw (str "AI service not available. Please check configuration.")
  | Some _ =>
  let truncatedContent := truncate_at 1000 800 content in
  summary <- try_catch (summarizeArticle (AI env) truncatedContent)
               (fun message =>
                  throw (str "AI summarization failed: " ++ message)) ;;
  if len summary <? 30 then
    throw (str "AI generated insufficient content. The article may be too short or complex to summarize.")
  else
  audioBuffer <- try_catch
                   (audioBuffer <- generateAudio summary env ;;
                    if len audioBuffer =? 0 then
                      throw (str "Generated audio is empty")
                    else ret audioBuffer)
                   (fun message =>
                      throw (str "Audio generation failed: " ++ message)) ;;
  match AUDIO_BUCKET env with
  | None =>
      throw (str "Audio storage not configured. Please check R2 bucket settings.")
  | Some put_fault =>
  let fileName := audio_file_name (generateCacheKey url) in
  try_catch (bucket_put put_fault fileName audioBuffer)
    (fun message => throw (str "Failed to store audio: " ++ message)) ;;;
  now <- Date_now ;;
  let processingTime := now - startTime in
  let cacheKey := generateCacheKey url in
  let fullAudioUrl := origin ++ str "/audio/" ++ fileName in
  let podcastData :=
    {| pd_url := url;
       pd_title := title;
       pd_summary := summary;
       pd_audioFileName := fileName;
       pd_audioUrl := fullAudioUrl;
       pd_userId := Some userId;
       pd_status := Some (str "completed");
       pd_processingTimeMs := Some processingTime;
       pd_contentLength := Some (len content);
       pd_summaryLength := Some (len summary);
       pd_audioSizeBytes := Some (len audioBuffer);
       pd_cacheKey := cacheKey |} in
  save_if_bound env podcastData ;;;
  createdAt <- Date_now ;;
  ret (GenSuccess (view_of_data podcastData fullAudioUrl createdAt None))
  end
  end.

(** "Step 1: Check database for existing podcast". *)
Definition check_database (env : Env) (url : jsstring) : M (option PodcastView) :=
  match PODCAST_DB env with
  | Some db =>
      result <- getPodcastByUrl db url ;;
      match result with
      | Hit cachedData => ret (Some cachedData)
      | _ => ret None
      end
  | None => ret None
  end.

(** The handler of the outermost [catch] of both orchestrators. *)
Definition failure_of (message : jsstring) : GenResult :=
  GenFailure (if len message =? 0 then str "Unknown error occurred"
              else message).

(** [generatePodcastSync(url, userId, env, origin)] *)
Definition generatePodcastSync (url userId : jsstring) (env : Env)
           (origin : jsstring) : M GenResult :=
  startTime <- Date_now ;;
  try_catch
    (init_if_bound env ;;;
     cached <- check_database env url ;;
     match cached with
     | Some cachedData => ret (GenSuccess (cached_view origin cachedData))
     | None => generate_fresh startTime url userId env origin
     end)
    (fun message => ret (failure_of message)).

(** [step.do(name, callback)]: the callback runs and its exception is the
    step's; the retries and the replay of the platform are left out. *)
Definition step_do {A} (name : jsstring) (callback : M A) : M A := callback.

(** Steps 2 to 7 of [PodcastWorkflow.run]. *)
Definition workflow_fresh (url : jsstring) (userId : option jsstring)
           (env : Env) : M GenResult :=
  content <- step_do (str "scrape-webpage")
    (try_catch
       (scrapedContent <- scrapeWebpage url ;;
        if len scrapedContent <? 100 then
          throw (str "Insufficient content extracted from webpage")
        else ret scrapedContent)
       (fun message => throw (str "Failed to scrape webpage: " ++ message))) ;;
  title <- step_do (str "extract-title") (ret (extractTitle url)) ;;
  summary <- step_do (str "summarize-content")
    (match AI env with
     | None => throw (str "AI not available")
     | Some _ =>
         try_catch
           (let truncatedContent := truncate_at 1000 800 content in
            podcastScript <- summarizeArticle (AI env) truncatedContent ;;
            if len podcastScript <? 30 then
              throw (str "AI generated insufficient content")
            else ret podcastScript)
           (fun message =>
              throw (str "Failed to create podcast script: " ++ message))
     end) ;;
  audioBuffer <- step_do (str "generate-audio")
    (try_catch
       (audio <- generateAudio summary env ;;
        if len audio =? 0 then throw (str "Generated audio is empty")
        else ret audio)
       (fun message => throw (str "Failed to generate audio: " ++ message))) ;;
  audioFileName <- step_do (str "store-audio")
    (match AUDIO_BUCKET env with
     | None => throw (str "R2 bucket not configured")
     | Some put_fault =>
         try_catch
           (match base_generateCacheKey rt with
            | None => throw (str "this.generateCacheKey is not a function")
            | Some this_generateCacheKey =>
                let fileName := audio_file_name (this_generateCacheKey url) in
                bucket_put put_fault fileName audioBuffer ;;;
                ret fileName
            end)
           (fun message => throw (str "Failed to store audio: " ++ message))
     end) ;;
  result <- step_do (str "save-to-database")
    (let cacheKey := generateCacheKey url in
     let podcastData :=
       {| pd_url := url;
          pd_title := title;
          pd_summary := summary;
          pd_audioFileName := audioFileName;
          pd_audioUrl := audioFileName;
          pd_userId := userId;
          pd_status := Some (str "completed");
          pd_processingTimeMs := None;
          pd_contentLength := None;
          pd_summaryLength := None;
          pd_audioSizeBytes := None;
          pd_cacheKey := cacheKey |} in
     save_if_bound env podcastData ;;;
     createdAt <- Date_now ;;
     ret (view_of_data podcastData audioFileName createdAt (Some false))) ;;
  ret (GenSuccess result).

(** [PodcastWorkflow.run(event, step)] with [event.params = {url, userId}]
    and [event.env = env]. *)
Definition PodcastWorkflow_run (url : jsstring) (userId : option jsstring)
           (env : Env) : M GenResult :=
  try_catch
    (init_if_bound env ;;;
     cached <- step_do (str "check-database") (check_database env url) ;;
     match cached with
     | Some c =>
         if 0 <? len (v_audioFileName c) then
           ret (GenSuccess (set_audioUrl c (v_audioUrl c) (Some true)))
         else workflow_fresh url userId env
     | None => workflow_fresh url userId env
     end)
    (fun message => ret (failure_of message)).

End Runtime.

(** ** Helpers ([utils.js]) *)

(** An argument that should be a string: a string, or any other value,
    of which only its truthiness matters. *)
Inductive JsValue :=
| JsString (s : jsstring)
| JsOther (truthy : bool).

(** The characters that [validateUserId] keeps: letters, digits,
    underscore and hyphen. *)
Definition is_id_char (c : Z) : bool :=
  ((97 <=? c) && (c <=? 122)) || ((65 <=? c) && (c <=? 90)) ||
  ((48 <=? c) && (c <=? 57)) || (c =? 95) || (c =? 45).

(** One character outside the class, at the head of [s]. *)
Definition match_non_id (s : jsstring) : option nat :=
  match s with
  | c :: _ => if is_id_char c then None else Some 1%nat
  | [] => None
  end.

(** [validateUserId(userId)] *)
Definition validateUserId (userId : JsValue) : Res jsstring :=
  match userId with
  | JsOther false => Ok (str "anonymous")
  | JsString [] => Ok (str "anonymous")
  | JsOther true => Throw (str "userId must be a string")
  | JsString s =>
      let sanitized := replace_all match_non_id [] s in
      if len sanitized =? 0 then Ok (str "anonymous")
      else if len sanitized >? 100 then
        Throw (str "userId is too long (max 100 characters)")
      else Ok sanitized
  end.

(** [sanitizeInput(input)]: five global replacements, in this order. *)
Definition sanitizeInput (input : JsValue) : JsValue :=
  match input with
  | JsString s =>
      let s := replace_all (match_lit (str "<")) (str "&lt;") s in
      let s := replace_all (match_lit (str ">")) (str "&gt;") s in
      let s := replace_all (match_lit [34]) (str "&quot;") s in
      let s := replace_all (match_lit (str "'")) (str "&#39;") s in
      let s := replace_all (match_lit (str "/")) (str "&#x2F;") s in
      JsString s
  | JsOther _ => input
  end.

(** How a run of [retryWithBackoff] ended: with the value of a call, or
    with [lastError] thrown, which is still undefined when no call was
    made. *)
Inductive RetryResult (A : Type) : Type :=
| Returned (a : A)
| Rethrown (lastError : option jsstring).
Arguments Returned {A} a.
Arguments Rethrown {A} lastError.

(** A run of [retryWithBackoff]: its result, the number of calls of [fn]
    and the delays it slept, in order. *)
Record RetryRun (A : Type) : Type := {
  retry_result : RetryResult A;
  retry_calls : nat;
  retry_sleeps : list Z
}.
Arguments retry_result {A} r.
Arguments retry_calls {A} r.
Arguments retry_sleeps {A} r.

(** The loop of [retryWithBackoff] from iteration [i] with [remaining]
    iterations to go; [fn j] is the outcome of the call of [fn] number
    [j], counted from 0. *)
Fixpoint retry_loop {A} (fn : nat -> Res A) (baseDelay : Z)
         (remaining i : nat) (lastError : option jsstring) : RetryRun A :=
  match remaining with
  | O => {| retry_result := Rethrown lastError;
            retry_calls := i;
            retry_sleeps := [] |}
  | S later =>
      match fn i with
      | Ok a => {| retry_result := Returned a;
                   retry_calls := S i;
                   retry_sleeps := [] |}
      | Throw error =>
          let rest := retry_loop fn baseDelay later (S i) (Some error) in
          {| retry_result := retry_result rest;
             retry_calls := retry_calls rest;
             retry_sleeps :=
               match later with
               | O => retry_sleeps rest
               | S _ => baseDelay * 2 ^ Z.of_nat i :: retry_sleeps rest
               end |}
      end
  end.

(** [retryWithBackoff(fn, maxRetries, baseDelay)] for a whole number of
    retries and a whole delay. *)
Definition retryWithBackoff {A} (fn : nat -> Res A) (maxRetries : Z)
           (baseDelay : Z) : RetryRun A :=
  retry_loop fn baseDelay (Z.to_nat maxRetries) O None.

(** ** Serving the audio ([index.js]) *)

(** The answers of the route [GET /audio/:filename]: the object with
    status 200, or a status and a text. *)
Inductive AudioReply :=
| AudioBody (bytes : list Z)
| AudioRefused (status : Z) (text : jsstring).

(** Route 4 of [handleRequest], for a request whose method is [GET] and
    whose path starts with [/audio/]; [get_fault] tells for which names
    [env.AUDIO_BUCKET.get] rejects. *)
Definition serve_audio (get_fault : jsstring -> option jsstring)
           (path : jsstring) (env : Env) : M AudioReply :=
  let fileName := nth 2 (split 47 path) [] in
  if len fileName =? 0 then ret (AudioRefused 400 (str "Filename required"))
  else
    match AUDIO_BUCKET env with
    | None => ret (AudioRefused 500 (str "Storage not configured"))
    | Some _ =>
        match get_fault fileName with
        | Some _ => ret (AudioRefused 500 (str "Failed to fetch audio"))
        | None =>
            fun w =>
              match find (fun kv => eqs (fst kv) fileName) (bucket w) with
              | Some (_, bytes) => (Ok (AudioBody bytes), w)
              | None => (Ok (AudioRefused 404 (str "Audio not found")), w)
              end
        end
    end.

(** ** Auxiliary notions of the statements *)

(** The polynomial that the loop of [generateCacheKey] evaluates, without
    the wrap-around. *)
Definition poly31 (url : jsstring) : Z :=
  fold_left (fun hash char => 31 * hash + char) url 0.

(** Reading back the digits written by [toString(radix)]. *)
Definition digit_value (c : Z) : Z := if c <? 58 then c - 48 else c - 87.

Definition parse_radix (radix : Z) (s : jsstring) : Z :=
  fold_left (fun acc c => acc * radix + digit_value c) s 0.

(** The last index of a character, by structural recursion. *)
Fixpoint last_index (c : Z) (s : jsstring) : option nat :=
  match s with
  | [] => None
  | x :: t =>
      match last_index c t with
      | Some k => Some (S k)
      | None => if x =? c then Some O else None
      end
  end.

(** Plain text that the clean-up of the scraper leaves as it is: no
    markup, no entity, words separated by single spaces, no space at
    either end. *)
Fixpoint single_spaced (s : jsstring) : bool :=
  match s with
  | [] => true
  | c :: t =>
      (if is_space c
       then (c =? 32) && match t with
                         | [] => false
                         | d :: _ => negb (is_space d)
                         end
       else true) && single_spaced t
  end.

Definition plain_text (s : jsstring) : bool :=
  forallb (fun c => negb (c =? 60) && negb (c =? 38)) s &&
  single_spaced s &&
  match s with
  | c :: _ => negb (is_space c)
  | [] => true
  end.

(** The events that stand for extraction, summarisation and synthesis. *)
Definition is_pipeline_call (e : Event) : bool :=
  match e with
  | EvFetchPage _ | EvAiRun _ _ _ | EvTts _ _ _ => true
  | _ => false
  end.

Definition is_log_insert (e : Event) : bool :=
  match e with
  | EvDbInsertLog _ => true
  | _ => false
  end.

Definition is_podcast_insert (e : Event) : bool :=
  match e with
  | EvDbInsertPodcast _ => true
  | _ => false
  end.

(** The calls of a run that stops before anything is saved: the page,
    the model, the speech service, and a write of the audio object under
    the name [file]. *)
Definition step_call (file : jsstring) (e : Event) : bool :=
  match e with
  | EvFetchPage _ | EvAiRun _ _ _ | EvTts _ _ _ => true
  | EvBucketPut key _ => eqs key file
  | _ => false
  end.

(** Tables and bucket as they were. *)
Definition untouched (w w' : World) : Prop :=
  podcasts w' = podcasts w /\
  next_podcast_id w' = next_podcast_id w /\
  processing_logs w' = processing_logs w /\
  bucket w' = bucket w.

(** From [w] to [w'] only calls that [allowed] admits were made, and
    nothing was written. *)
Definition only_calls (allowed : Event -> bool) (w w' : World) : Prop :=
  untouched w w' /\
  exists calls, trace w' = trace w ++ calls /\ forallb allowed calls = true.

(** The record that [generatePodcastSync] assembles. *)
Definition assembled (url title summary fileName origin userId : jsstring)
           (processingTime contentLength audioSize : Z) : PodcastData :=
  {| pd_url := url;
     pd_title := title;
     pd_summary := summary;
     pd_audioFileName := fileName;
     pd_audioUrl := origin ++ str "/audio/" ++ fileName;
     pd_userId := Some userId;
     pd_status := Some (str "completed");
     pd_processingTimeMs := Some processingTime;
     pd_contentLength := Some contentLength;
     pd_summaryLength := Some (len summary);
     pd_audioSizeBytes := Some audioSize;
     pd_cacheKey := generateCacheKey url |}.

(** The record that [PodcastWorkflow.run] assembles. *)
Definition assembled_workflow (url title summary fileName : jsstring)
           (userId : option jsstring) : PodcastData :=
  {| pd_url := url;
     pd_title := title;
     pd_summary := summary;
     pd_audioFileName := fileName;
     pd_audioUrl := fileName;
     pd_userId := userId;
     pd_status := Some (str "completed");
     pd_processingTimeMs := None;
     pd_contentLength := None;
     pd_summaryLength := None;
     pd_audioSizeBytes := None;
     pd_cacheKey := generateCacheKey url |}.

(** The world once the audio object is written under [file]. *)
Definition stored (rt : Runtime) (file : jsstring) (audio : list Z)
           (w : World) : World :=
  set_bucket (record_call rt (EvBucketPut file audio) w)
    ((file, audio) :: filter (fun kv => negb (eqs (fst kv) file)) (bucket w)).

(** The two calls of step 1. *)
Definition lookup_call (e : Event) : bool :=
  match e with
  | EvDbExec | EvDbSelectByUrl _ => true
  | _ => false
  end.

(** The world once the schema script and the lookup have run. *)
Definition checked (rt : Runtime) (env : Env) (url : jsstring) (w : World)
  : World :=
  snd (check_database rt env url (snd (init_if_bound rt env w))).

(** What the lookup of step 1 finds. *)
Definition cache_lookup (env : Env) (url : jsstring) (w : World)
  : option PodcastView :=
  match PODCAST_DB env with
  | None => None
  | Some db =>
      match select_fault db url with
      | Some _ => None
      | None =>
          option_map view_of_row
                     (find (fun r => eqs (row_url r) url) (podcasts w))
      end
  end.

(** Calls that write neither a podcast nor a log entry. *)
Definition harmless (e : Event) : bool :=
  negb (is_podcast_insert e) && negb (is_log_insert e).

(** The save of [d] came last, right after a speech request that was
    answered with audio and a write of that audio under the file name of
    [d] that succeeded; the object is in the bucket, and [d] is marked
    completed. *)
Definition save_follows_storage (rt : Runtime) (env : Env)
           (calls : list Event) (w' : World) (d : PodcastData) : Prop :=
  pd_status d = Some (str "completed") /\
  exists before endpoint key text response put_fault,
    calls = before ++ [EvTts endpoint key text;
                       EvBucketPut (pd_audioFileName d) (resp_bytes response);
                       EvDbInsertPodcast d] /\
    forallb harmless before = true /\
    http_post_tts rt endpoint key text = Responded response /\
    resp_ok response = true /\
    len (resp_bytes response) <> 0 /\
    AUDIO_BUCKET env = Some put_fault /\
    put_fault (pd_audioFileName d) = None /\
    In (pd_audioFileName d, resp_bytes response) (bucket w').

(** The discipline of a run from [w] that ends in [run]: it returns a
    result; a save comes only after synthesis and storage succeeded and
    saves a completed record; a new row is such a save; a failure result
    leaves table and bucket as they were and attempts no save; and no log
    entry is written either way. *)
Definition record_discipline (rt : Runtime) (env : Env) (w : World)
           (run : Res GenResult * World) : Prop :=
  exists calls,
    trace (snd run) = trace w ++ calls /\
    (exists result, fst run = Ok result) /\
    (forall d, In (EvDbInsertPodcast d) calls ->
               save_follows_storage rt env calls (snd run) d) /\
    (forall row, In row (podcasts (snd run)) ->
                 In row (podcasts w) \/
                 (row_status row = Some (str "completed") /\
                  exists d id created,
                    In (EvDbInsertPodcast d) calls /\
                    row = row_of_data id created d)) /\
    (forall error, fst run = Ok (GenFailure error) ->
                   podcasts (snd run) = podcasts w /\
                   bucket (snd run) = bucket w /\
                   forall d, ~ In (EvDbInsertPodcast d) calls) /\
    processing_logs (snd run) = processing_logs w /\
    (forall entry, ~ In (EvDbInsertLog entry) calls).

(** The four steps of a generation all succeeded, from the world [w0]
    left by the lookup: extraction, summarisation of the extracted text,
    synthesis of the script, and the write of the audio object under the
    file name; [file] is [None] when no file name can be computed. *)
Definition steps_succeed (rt : Runtime) (env : Env) (url : jsstring)
           (file : option jsstring) (w0 : World) : Prop :=
  exists content summary audio w1 w2 w3 put_fault name,
    scrapeWebpage rt url w0 = (Ok content, w1) /\
    summarizeArticle rt (AI env) (truncate_at 1000 800 content) w1
    = (Ok summary, w2) /\
    generateAudio rt summary env w2 = (Ok audio, w3) /\
    AUDIO_BUCKET env = Some put_fault /\
    file = Some name /\
    fst (bucket_put rt put_fault name audio w3) = Ok tt.

(** One of the four steps failed, those before it having succeeded. *)
Definition step_fails (rt : Runtime) (env : Env) (url : jsstring)
           (file : option jsstring) (w0 : World) : Prop :=
  (exists message w1, scrapeWebpage rt url w0 = (Throw message, w1)) \/
  (exists content w1,
      scrapeWebpage rt url w0 = (Ok content, w1) /\
      ((exists message w2,
           summarizeArticle rt (AI env) (truncate_at 1000 800 content) w1
           = (Throw message, w2)) \/
       (exists summary w2,
           summarizeArticle rt (AI env) (truncate_at 1000 800 content) w1
           = (Ok summary, w2) /\
           ((exists message w3,
                generateAudio rt summary env w2 = (Throw message, w3)) \/
            (exists audio w3,
                generateAudio rt summary env w2 = (Ok audio, w3) /\
                (AUDIO_BUCKET env = None \/
                 file = None \/
                 exists put_fault name message,
                   AUDIO_BUCKET env = Some put_fault /\
                   file = Some name /\
                   fst (bucket_put rt put_fault name audio w3)
                   = Throw message)))))).

(** The file name that [generatePodcastSync] computes, and the one that
    [PodcastWorkflow.run] can compute. *)
Definition sync_file (url : jsstring) : option jsstring :=
  Some (audio_file_name (generateCacheKey url)).

Definition workflow_file (rt : Runtime) (url : jsstring) : option jsstring :=
  option_map (fun this_generateCacheKey =>
                audio_file_name (this_generateCacheKey url))
             (base_generateCacheKey rt).

(** The workflow goes through its steps when the lookup finds no record,
    or one without a file name. *)
Definition workflow_generates (env : Env) (url : jsstring) (w : World) : Prop :=
  match cache_lookup env url w with
  | Some c => len (v_audioFileName c) <= 0
  | None => True
  end.

(** The calls of a run of [generatePodcastSync] before its save. *)
Definition sync_call (file : jsstring) (e : Event) : bool :=
  lookup_call e || step_call file e.

(** Every write to the bucket in the run goes to [file]; every record
    passed to the store, and every new row, names [file] and carries
    [key]; a success that is not a cached record returns such a record,
    and its audio object is in the bucket under [file]. *)
Definition key_discipline (file key : jsstring) (w : World)
           (run : Res GenResult * World) : Prop :=
  exists calls,
    trace (snd run) = trace w ++ calls /\
    (forall name bytes, In (EvBucketPut name bytes) calls -> name = file) /\
    (forall d, In (EvDbInsertPodcast d) calls ->
               pd_audioFileName d = file /\ pd_cacheKey d = key) /\
    (forall row, In row (podcasts (snd run)) ->
                 In row (podcasts w) \/
                 (row_audio_file_name row = file /\
                  row_cache_key row = Some key)) /\
    (forall data, fst run = Ok (GenSuccess data) ->
                  v_cached data = None ->
                  v_audioFileName data = file /\
                  v_cacheKey data = Some key /\
                  exists bytes,
                    In (EvBucketPut file bytes) calls /\
                    In (file, bytes) (bucket (snd run))).

(** The title of section 4.1 of the specification, in its words.  The
    name it starts from: the last path segment that is not empty or,
    without one, the host name minus a leading [www.]. *)
Definition spec_title_source (u : URLRecord) : jsstring :=
  match filter (fun segment => 0 <? len segment) (split 47 (pathname u)) with
  | [] => if startsWith (str "www.") (hostname u)
          then skipn 4 (hostname u) else hostname u
  | segments => last segments []
  end.

(** The extension stripped, hyphens and underscores turned into spaces,
    each word title-cased, white space collapsed. *)
Definition spec_title_words (name : jsstring) : jsstring :=
  let name := strip_extension name in
  let spaced :=
    map (fun c => if (c =? 45) || (c =? 95) then 32 else c) name in
  let title := join (str " ") (map capitalize (split 32 spaced)) in
  trim (replace_all match_spaces (str " ") title).

(** Clamped to 100 characters: the derived result. *)
Definition spec_title_clamped (name : jsstring) : jsstring :=
  substring0 100 (spec_title_words name).

(** The fallback for a derived result that is empty or under 3
    characters. *)
Definition spec_title (name : jsstring) : jsstring :=
  if len (spec_title_clamped name) <? 3 then str "Article"
  else spec_title_clamped name.

(** The characters of a string that are not white space, counted. *)
Definition letters (s : jsstring) : nat :=
  length (filter (fun c => negb (is_space c)) s).

(** ** Concrete environments for the examples *)

Fixpoint take_until (stop : Z -> bool) (s : jsstring) : jsstring :=
  match s with
  | [] => []
  | c :: t => if stop c then [] else c :: take_until stop t
  end.

(** The URL parser on the absolute [http] and [https] addresses of the
    examples: scheme, host up to the first slash, question mark or hash,
    path up to a question mark or hash, an empty path read as a slash.
    Anything without such a scheme and host does not parse. *)
Definition URL_basic (url : jsstring) : option URLRecord :=
  let rest :=
    if startsWith_ci (str "https://") url then Some (skipn 8 url)
    else if startsWith_ci (str "http://") url then Some (skipn 7 url)
    else None in
  match rest with
  | None => None
  | Some rest =>
      let host :=
        take_until (fun c => (c =? 47) || (c =? 63) || (c =? 35)) rest in
      match host with
      | [] => None
      | _ =>
          let path :=
            take_until (fun c => (c =? 63) || (c =? 35))
                       (skipn (length host) rest) in
          Some {| hostname := toLowerCase host;
                  pathname := match path with [] => str "/" | _ => path end |}
      end
  end.

(** A page of plain text: [n] letters, a full stop, then [m] letters. *)
Definition sample_text (n m : nat) : jsstring :=
  repeat 97 n ++ [46] ++ repeat 98 m.

Definition ok_response (text : jsstring) (bytes : list Z) : HttpResponse :=
  {| resp_ok := true;
     resp_status := 200;
     resp_statusText := str "OK";
     resp_text := text;
     resp_bytes := bytes |}.

(** A runtime whose every page is [page] and whose speech service answers
    with [audio]. *)
Definition sample_runtime (page : jsstring) (audio : list Z) : Runtime :=
  {| http_get := fun _ => Responded (ok_response page []);
     http_post_tts := fun _ _ _ => Responded (ok_response [] audio);
     new_URL := URL_basic;
     latency := fun _ => 1;
     base_generateCacheKey := None |}.

(** A database whose insert fails when [broken] is set. *)
Definition sample_db (broken : bool) : D1 :=
  {| exec_fault := None;
     select_fault := fun _ => None;
     insert_fault :=
       fun _ => if broken then Some (str "D1_ERROR: no such table") else None;
     log_fault := fun _ => None |}.

(** A model that answers every prompt with [script]. *)
Definition sample_env (broken : bool) (script : jsstring) : Env :=
  {| PODCAST_DB := Some (sample_db broken);
     AI := Some (fun _ _ _ => AiReturns (AiObject (Some script) None));
     AUDIO_BUCKET := Some (fun _ => None);
     ELEVENLABS_API_KEY := Some (str "sk-test");
     ELEVENLABS_VOICE_ID := None |}.

Definition empty_world : World :=
  {| podcasts := [];
     next_podcast_id := 1;
     processing_logs := [];
     bucket := [];
     trace := [];
     clock := 0 |}.

Definition story_url : jsstring := str "https://news.example/story-1".

Definition sample_page : jsstring := sample_text 60 60.
Definition sample_script : jsstring := sample_text 30 30.
Definition sample_audio : list Z := [73; 68; 51].
Definition sample_origin : jsstring := str "https://worker.example".
Definition sample_user : jsstring := str "user-1".

(** ** Further notions of the statements *)

(** The characters that [toString(36)] writes: a digit or a small letter. *)
Definition is_base36 (c : Z) : bool :=
  ((48 <=? c) && (c <=? 57)) || ((97 <=? c) && (c <=? 122)).

(** White space in normal form: a white-space character is a plain space
    and is not followed by another white-space character. *)
Fixpoint spaced (s : jsstring) : bool :=
  match s with
  | [] => true
  | c :: t =>
      (if is_space c
       then (c =? 32) && match t with
                         | [] => true
                         | d :: _ => negb (is_space d)
                         end
       else true) && spaced t
  end.

Definition starts_with_space (s : jsstring) : bool :=
  match s with
  | c :: _ => is_space c
  | [] => false
  end.

(** The failures that a run of [generatePodcastSync] reports: each names
    the step that stopped it; a failure of the speech step carries one of
    the messages of [generateAudio]. *)
Definition step_failure (error : jsstring) : Prop :=
  (exists reason,
      error
      = str "Failed to scrape webpage: " ++ str "Failed to scrape webpage: "
            ++ reason) \/
  error = str "AI service not available. Please check configuration." \/
  (exists reason, error = str "AI summarization failed: " ++ reason) \/
  (exists reason,
      error = str "Audio generation failed: " ++ reason /\
      (reason = str "ElevenLabs API key not configured" \/
       reason = str "Cannot generate audio from empty text" \/
       exists detail, reason = str "ElevenLabs TTS failed: " ++ detail)) \/
  error
  = str "Audio storage not configured. Please check R2 bucket settings." \/
  (exists reason, error = str "Failed to store audio: " ++ reason).

(** The messages with which the checks that [generatePodcastSync] makes
    on what its steps return would reach the caller, and the message of
    its last resort.  The check on the audio sits inside the [try] of the
    speech step, whose handler puts its prefix before the message; the
    message is listed with the prefix and without. *)
Definition guard_messages : list jsstring :=
  [ str "Insufficient content extracted from webpage. The page may be empty or require authentication.";
    str "AI generated insufficient content. The article may be too short or complex to summarize.";
    str "Audio generation failed: Generated audio is empty";
    str "Generated audio is empty";
    str "Unknown error occurred" ].

(** A record with every property defined, as [generatePodcastSync]
    assembles it. *)
Definition sample_record : PodcastData :=
  assembled story_url (str "Story 1") sample_script
            (audio_file_name (generateCacheKey story_url))
            sample_origin sample_user 5 121 3.

(** The world in which [sample_record] is the only row. *)
Definition sample_saved_world : World :=
  {| podcasts := [row_of_data 1 0 sample_record];
     next_podcast_id := 2;
     processing_logs := [];
     bucket := [];
     trace := [];
     clock := 0 |}.

(** The place of a call in a run: schema, lookup, page, model, speech,
    bucket, save; the log comes last. *)
Definition call_kind (e : Event) : nat :=
  match e with
  | EvDbExec => 0
  | EvDbSelectByUrl _ => 1
  | EvFetchPage _ => 2
  | EvAiRun _ _ _ => 3
  | EvTts _ _ _ => 4
  | EvBucketPut _ _ => 5
  | EvDbInsertPodcast _ => 6
  | EvDbInsertLog _ => 7
  end.

Fixpoint increasing (l : list nat) : bool :=
  match l with
  | a :: t =>
      match t with
      | b :: _ => (a <? b)%nat
      | [] => true
      end && increasing t
  | [] => true
  end.

(** The cache key of a row, when it has one. *)
Definition keys_of (r : PodcastRow) : list jsstring :=
  match row_cache_key r with
  | Some k => [k]
  | None => []
  end.

(** What the two [UNIQUE] columns of the schema ask of the table: no two
    rows with one URL, no two rows with one cache key. *)
Definition table_unique (rows : list PodcastRow) : Prop :=
  NoDup (map row_url rows) /\ NoDup (flat_map keys_of rows).

(** The sample bindings without the bucket. *)
Definition no_bucket_env : Env :=
  {| PODCAST_DB := Some (sample_db false);
     AI := Some (fun _ _ _ => AiReturns (AiObject (Some sample_script) None));
     AUDIO_BUCKET := None;
     ELEVENLABS_API_KEY := Some (str "sk-test");
     ELEVENLABS_VOICE_ID := None |}.

(** Two addresses with one cache key. *)
Definition aa_url : jsstring := str "https://news.example/Aa".
Definition bb_url : jsstring := str "https://news.example/BB".

(** One of the replacements of [sanitizeInput], seen on one character. *)
Definition escape_one (k : Z) (rep : jsstring) (x : Z) : jsstring :=
  if x =? k then rep else [x].

(** What [sanitizeInput] writes for one character. *)
Definition escape_char (c : Z) : jsstring :=
  if c =? 60 then str "&lt;"
  else if c =? 62 then str "&gt;"
  else if c =? 34 then str "&quot;"
  else if c =? 39 then str "&#39;"
  else if c =? 47 then str "&#x2F;"
  else [c].

(** The five characters that [sanitizeInput] replaces. *)
Definition is_markup_char (c : Z) : bool :=
  (c =? 60) || (c =? 62) || (c =? 34) || (c =? 39) || (c =? 47).

(** A call that fails twice and then returns 7. *)
Definition flaky (i : nat) : Res Z :=
  match i with
  | O => Throw (str "first")
  | S O => Throw (str "second")
  | _ => Ok 7
  end.

(** * Properties *)

(** ** Strings *)

Arguments str : simpl never.
Arguments substring0 : simpl never.
Arguments truncate_at : simpl never.
Arguments len : simpl never.
Arguments num : simpl never.

Lemma len_nonneg (s : jsstring) : 0 <= len s.
Proof. unfold len. lia. Qed.

Lemma len_app (a b : jsstring) : len (a ++ b) = len a + len b.
Proof. unfold len. rewrite length_app. lia. Qed.

Lemma len_cons (c : Z) (s : jsstring) : len (c :: s) = 1 + len s.
Proof. unfold len. simpl length. lia. Qed.

Lemma len_substring0 (n : Z) (s : jsstring) :
  0 <= n -> len (substring0 n s) = Z.min n (len s).
Proof.
  intros Hn. unfold len, substring0. rewrite length_firstn. lia.
Qed.

Lemma substring0_substring0 (n m : Z) (s : jsstring) :
  0 <= n <= m -> substring0 n (substring0 m s) = substring0 n s.
Proof.
  intros H. unfold substring0. rewrite firstn_firstn.
  f_equal. lia.
Qed.

Lemma charCodeAt_substring0 (n i : Z) (s : jsstring) :
  0 <= i < n -> charCodeAt (substring0 n s) i = charCodeAt s i.
Proof.
  intros H. unfold charCodeAt, substring0.
  destruct (i <? 0) eqn:E; [lia|].
  assert (Hlt : (Z.to_nat i < Z.to_nat n)%nat) by lia.
  revert Hlt. generalize (Z.to_nat i) (Z.to_nat n). clear.
  intros i n. revert i s.
  induction n as [|n IH]; intros i s Hlt; [lia|].
  destruct s as [|c t]; [destruct i; reflexivity|].
  destruct i as [|i]; [reflexivity|].
  simpl. apply IH. lia.
Qed.

Lemma lastIndexOf_from_last_index (c : Z) (s : jsstring) :
  forall i acc,
    lastIndexOf_from c s i acc =
    match last_index c s with
    | Some k => i + Z.of_nat k
    | None => acc
    end.
Proof.
  induction s as [|x t IH]; intros i acc; simpl; [reflexivity|].
  rewrite IH. destruct (last_index c t) as [k|]; [lia|].
  destruct (x =? c); lia.
Qed.

Lemma last_index_some (c : Z) (s : jsstring) (k : nat) :
  last_index c s = Some k ->
  nth_error s k = Some c /\
  forall j, (k < j)%nat -> nth_error s j <> Some c.
Proof.
  revert k. induction s as [|x t IH]; intros k H; simpl in H; [discriminate|].
  destruct (last_index c t) as [k'|] eqn:E.
  - injection H as <-. destruct (IH k' eq_refl) as [H1 H2]. split; [exact H1|].
    intros [|j] Hj; [lia|]. simpl. apply H2. lia.
  - destruct (x =? c) eqn:Ex; [|discriminate]. injection H as <-.
    apply Z.eqb_eq in Ex. subst x. split; [reflexivity|].
    intros [|j] Hj; [lia|]. simpl. clear -E.
    revert j. induction t as [|y t IHt]; intros j; [destruct j; discriminate|].
    simpl in E. destruct (last_index c t) eqn:Et; [discriminate|].
    destruct (y =? c) eqn:Ey; [discriminate|].
    destruct j as [|j]; simpl.
    + intros [= ->]. rewrite Z.eqb_refl in Ey. discriminate.
    + apply IHt. reflexivity.
Qed.

Lemma last_index_none (c : Z) (s : jsstring) :
  last_index c s = None -> forall j, nth_error s j <> Some c.
Proof.
  induction s as [|x t IH]; intros H j; [destruct j; discriminate|].
  simpl in H. destruct (last_index c t) eqn:Et; [discriminate|].
  destruct (x =? c) eqn:Ex; [discriminate|].
  destruct j as [|j]; simpl.
  - intros [= ->]. rewrite Z.eqb_refl in Ex. discriminate.
  - apply IH. reflexivity.
Qed.

Lemma last_index_unique (c : Z) (s : jsstring) (k : nat) :
  nth_error s k = Some c ->
  (forall j, (k < j)%nat -> nth_error s j <> Some c) ->
  last_index c s = Some k.
Proof.
  intros Hk Hafter.
  destruct (last_index c s) as [k'|] eqn:E.
  - destruct (last_index_some _ _ _ E) as [H1 H2].
    destruct (Nat.lt_trichotomy k k') as [Hlt|[->|Hgt]]; [|reflexivity|].
    + exfalso. exact (Hafter k' Hlt H1).
    + exfalso. exact (H2 k Hgt Hk).
  - exfalso. exact (last_index_none _ _ E k Hk).
Qed.

Lemma lastIndexOf_last_index (c : Z) (s : jsstring) :
  lastIndexOf c s =
  match last_index c s with
  | Some k => Z.of_nat k
  | None => -1
  end.
Proof.
  unfold lastIndexOf. rewrite lastIndexOf_from_last_index.
  destruct (last_index c s); lia.
Qed.

Lemma charCodeAt_nth_error (s : jsstring) (i c : Z) :
  0 <= i -> 0 <= c ->
  (charCodeAt s i = c <-> nth_error s (Z.to_nat i) = Some c).
Proof.
  intros Hi Hc. unfold charCodeAt.
  destruct (i <? 0) eqn:E; [lia|]. clear E.
  generalize (Z.to_nat i). intros n. revert s.
  induction n as [|n IH]; intros [|x t]; simpl.
  - split; [lia|discriminate].
  - split; [intros ->; reflexivity|intros [= ->]; reflexivity].
  - split; [lia|discriminate].
  - apply IH.
Qed.

(** [lastIndexOf] finds the index after which the character no longer
    occurs. *)
Lemma lastIndexOf_found (c : Z) (s : jsstring) (i : Z) :
  0 <= c -> 0 <= i < len s ->
  charCodeAt s i = c ->
  (forall j, i < j < len s -> charCodeAt s j <> c) ->
  lastIndexOf c s = i.
Proof.
  intros Hc Hi Hat Hafter. rewrite lastIndexOf_last_index.
  rewrite (last_index_unique c s (Z.to_nat i)); [lia| |].
  - apply charCodeAt_nth_error; [lia|lia|exact Hat].
  - intros j Hj Hn.
    assert (Hjl : (j < length s)%nat)
      by (apply nth_error_Some; rewrite Hn; discriminate).
    apply (Hafter (Z.of_nat j)); [unfold len; lia|].
    apply charCodeAt_nth_error; [lia|lia|]. rewrite Nat2Z.id. exact Hn.
Qed.

Lemma lastIndexOf_absent (c : Z) (s : jsstring) (b : Z) :
  0 <= c -> -1 <= b ->
  (forall j, b < j < len s -> charCodeAt s j <> c) ->
  lastIndexOf c s <= b.
Proof.
  intros Hc Hb Habs. rewrite lastIndexOf_last_index.
  destruct (last_index c s) as [k|] eqn:E; [|lia].
  destruct (last_index_some _ _ _ E) as [H1 _].
  assert (Hk : (k < length s)%nat)
    by (apply nth_error_Some; rewrite H1; discriminate).
  destruct (Z_le_gt_dec (Z.of_nat k) b) as [Hle|Hgt]; [exact Hle|].
  exfalso. apply (Habs (Z.of_nat k)); [unfold len; lia|].
  apply charCodeAt_nth_error; [lia|lia|]. rewrite Nat2Z.id. exact H1.
Qed.

Lemma lastIndexOf_range (c : Z) (s : jsstring) :
  -1 <= lastIndexOf c s < len s.
Proof.
  rewrite lastIndexOf_last_index.
  destruct (last_index c s) as [k|] eqn:E; [|pose proof (len_nonneg s); lia].
  destruct (last_index_some _ _ _ E) as [H1 _].
  assert (Hk : (k < length s)%nat)
    by (apply nth_error_Some; rewrite H1; discriminate).
  unfold len. lia.
Qed.

Lemma lastIndexOf_at (c : Z) (s : jsstring) :
  0 <= c -> 0 <= lastIndexOf c s ->
  charCodeAt s (lastIndexOf c s) = c.
Proof.
  intros Hc H. rewrite lastIndexOf_last_index in *.
  destruct (last_index c s) as [k|] eqn:E; [|lia].
  destruct (last_index_some _ _ _ E) as [H1 _].
  apply charCodeAt_nth_error; [lia|lia|]. rewrite Nat2Z.id. exact H1.
Qed.

(** ** The truncation policy *)

Lemma truncate_at_short (limit boundary : Z) (s : jsstring) :
  len s <= limit -> truncate_at limit boundary s = s.
Proof.
  intros H. unfold truncate_at.
  destruct (len s >? limit) eqn:E; [lia|reflexivity].
Qed.

Lemma truncate_at_long (limit boundary : Z) (s : jsstring) :
  0 <= limit < len s ->
  truncate_at limit boundary s =
  if lastIndexOf 46 (substring0 limit s) >? boundary
  then substring0 (lastIndexOf 46 (substring0 limit s) + 1) s
  else substring0 limit s.
Proof.
  intros H. unfold truncate_at.
  destruct (len s >? limit) eqn:E; [|lia].
  destruct (lastIndexOf 46 (substring0 limit s) >? boundary) eqn:E2;
    [|reflexivity].
  pose proof (lastIndexOf_range 46 (substring0 limit s)) as Hr.
  rewrite len_substring0 in Hr by lia.
  apply substring0_substring0. lia.
Qed.

(** Where the cut falls, in terms of the positions of the full stops. *)
Lemma truncate_at_period (limit boundary : Z) (s : jsstring) (i : Z) :
  0 <= boundary -> limit < len s ->
  boundary < i < limit ->
  charCodeAt s i = 46 ->
  (forall j, i < j < limit -> charCodeAt s j <> 46) ->
  truncate_at limit boundary s = substring0 (i + 1) s /\
  len (truncate_at limit boundary s) = i + 1 /\
  charCodeAt (truncate_at limit boundary s) i = 46.
Proof.
  intros Hb Hlen Hi Hat Hafter.
  assert (Hl : lastIndexOf 46 (substring0 limit s) = i).
  { apply lastIndexOf_found; [lia| | |].
    - rewrite len_substring0 by lia. lia.
    - rewrite charCodeAt_substring0 by lia. exact Hat.
    - intros j Hj. rewrite len_substring0 in Hj by lia.
      rewrite charCodeAt_substring0 by lia. apply Hafter. lia. }
  rewrite truncate_at_long by lia. rewrite Hl.
  destruct (i >? boundary) eqn:E; [|lia].
  split; [reflexivity|]. split.
  - rewrite len_substring0 by lia. lia.
  - rewrite charCodeAt_substring0 by lia. exact Hat.
Qed.

Lemma truncate_at_no_period (limit boundary : Z) (s : jsstring) :
  0 <= boundary < limit -> limit < len s ->
  (forall j, boundary < j < limit -> charCodeAt s j <> 46) ->
  truncate_at limit boundary s = substring0 limit s /\
  len (truncate_at limit boundary s) = limit.
Proof.
  intros Hb Hlen Habs.
  assert (Hl : lastIndexOf 46 (substring0 limit s) <= boundary).
  { apply lastIndexOf_absent; [lia|lia|].
    intros j Hj. rewrite len_substring0 in Hj by lia.
    rewrite charCodeAt_substring0 by lia. apply Habs. lia. }
  rewrite truncate_at_long by lia.
  destruct (lastIndexOf 46 (substring0 limit s) >? boundary) eqn:E; [lia|].
  split; [reflexivity|]. rewrite len_substring0 by lia. lia.
Qed.

Lemma truncate_at_len (limit boundary : Z) (s : jsstring) :
  0 <= boundary < limit -> limit < len s ->
  boundary < len (truncate_at limit boundary s) <= limit.
Proof.
  intros Hb Hlen. rewrite truncate_at_long by lia.
  pose proof (lastIndexOf_range 46 (substring0 limit s)) as Hr.
  rewrite len_substring0 in Hr by lia.
  destruct (lastIndexOf 46 (substring0 limit s) >? boundary) eqn:E;
    rewrite len_substring0 by lia; lia.
Qed.

Lemma truncate_at_ends_with_period (limit boundary : Z) (s : jsstring) :
  0 <= boundary < limit -> limit < len s ->
  boundary < lastIndexOf 46 (substring0 limit s) ->
  let out := truncate_at limit boundary s in
  len out = lastIndexOf 46 (substring0 limit s) + 1 /\
  charCodeAt out (len out - 1) = 46.
Proof.
  intros Hb Hlen Hl out. subst out.
  rewrite truncate_at_long by lia.
  pose proof (lastIndexOf_range 46 (substring0 limit s)) as Hr.
  rewrite len_substring0 in Hr by lia.
  destruct (lastIndexOf 46 (substring0 limit s) >? boundary) eqn:E; [|lia].
  rewrite len_substring0 by lia. split; [lia|].
  replace (Z.min (lastIndexOf 46 (substring0 limit s) + 1) (len s) - 1)
    with (lastIndexOf 46 (substring0 limit s)) by lia.
  rewrite charCodeAt_substring0 by lia.
  rewrite <- (charCodeAt_substring0 limit) by lia.
  apply lastIndexOf_at; lia.
Qed.

(** ** Global replacement and trimming *)

Lemma startsWith_length (p s : jsstring) :
  startsWith p s = true -> (length p <= length s)%nat.
Proof.
  revert s. induction p as [|a p IH]; intros s H; simpl; [lia|].
  destruct s as [|b s]; simpl in H; [discriminate|].
  apply andb_true_iff in H as [_ H]. apply IH in H. simpl. lia.
Qed.

Lemma startsWith_ci_length (p s : jsstring) :
  startsWith_ci p s = true -> (length p <= length s)%nat.
Proof.
  revert s. induction p as [|a p IH]; intros s H; simpl; [lia|].
  destruct s as [|b s]; simpl in H; [discriminate|].
  apply andb_true_iff in H as [_ H]. apply IH in H. simpl. lia.
Qed.

Lemma index_with_bound (pre : jsstring -> jsstring -> bool) (p s : jsstring)
      (i : nat) :
  (forall t, pre p t = true -> (length p <= length t)%nat) ->
  index_with pre p s = Some i -> (i + length p <= length s)%nat.
Proof.
  intros Hpre. revert i. induction s as [|c t IH]; intros i H; simpl in H.
  - destruct (pre p []) eqn:E; [|discriminate]. injection H as <-.
    apply Hpre in E. simpl in *. lia.
  - destruct (pre p (c :: t)) eqn:E.
    + injection H as <-. apply Hpre in E. lia.
    + destruct (index_with pre p t) as [k|]; [|discriminate].
      injection H as <-. specialize (IH k eq_refl). simpl. lia.
Qed.

Lemma replace_all_from_length (m : jsstring -> option nat) (rep : jsstring) :
  (forall t n, m t = Some n -> (length rep <= n <= length t)%nat) ->
  forall s skip,
    (skip <= length s)%nat ->
    (length (replace_all_from m rep skip s) + skip <= length s)%nat.
Proof.
  intros Hm. induction s as [|c t IH]; intros skip Hs; simpl in *; [lia|].
  destruct skip as [|k].
  - destruct (m (c :: t)) as [[|k]|] eqn:E.
    + simpl. specialize (IH O). lia.
    + apply Hm in E. simpl in E. rewrite length_app.
      specialize (IH k). lia.
    + simpl. specialize (IH O). lia.
  - specialize (IH k). lia.
Qed.

Lemma len_replace_all (m : jsstring -> option nat) (rep s : jsstring) :
  (forall t n, m t = Some n -> (length rep <= n <= length t)%nat) ->
  len (replace_all m rep s) <= len s.
Proof.
  intros Hm. unfold replace_all, len.
  pose proof (replace_all_from_length m rep Hm s O). lia.
Qed.

Lemma replace_all_id (m : jsstring -> option nat) (rep s : jsstring) :
  (forall c t, In c s -> m (c :: t) = None) ->
  replace_all m rep s = s.
Proof.
  unfold replace_all. induction s as [|c t IH]; intros H; simpl; [reflexivity|].
  rewrite (H c t (or_introl eq_refl)). f_equal.
  apply IH. intros c' t' Hin. apply H. right. exact Hin.
Qed.

Lemma match_block_bound (tag t : jsstring) (n : nat) :
  match_block tag t = Some n -> (length (@nil Z) <= n <= length t)%nat.
Proof.
  unfold match_block.
  generalize (60 :: tag) as opening, (60 :: 47 :: tag ++ [62]) as closing.
  intros opening closing H.
  destruct (startsWith_ci opening t) eqn:E; [|discriminate].
  apply startsWith_ci_length in E.
  destruct (match skipn (length opening) t with
            | [] => true | c :: _ => negb (is_word c) end); [|discriminate].
  destruct (index_with startsWith_ci closing (skipn (length opening) t))
    as [i|] eqn:Ei; [|discriminate].
  injection H as <-.
  apply index_with_bound in Ei; [|apply startsWith_ci_length].
  rewrite length_skipn in Ei. simpl length at 1. lia.
Qed.

Lemma match_comment_bound (t : jsstring) (n : nat) :
  match_comment t = Some n -> (length (@nil Z) <= n <= length t)%nat.
Proof.
  unfold match_comment. intros H.
  destruct (startsWith (str "<!--") t) eqn:E; [|discriminate].
  apply startsWith_length in E.
  destruct (index_with startsWith (str "-->") (skipn 4 t)) as [i|] eqn:Ei;
    [|discriminate].
  injection H as <-.
  apply index_with_bound in Ei; [|apply startsWith_length].
  rewrite length_skipn in Ei.
  change (length (str "<!--")) with 4%nat in E.
  change (length (str "-->")) with 3%nat in Ei.
  simpl length at 1. lia.
Qed.

Lemma match_tag_bound (t : jsstring) (n : nat) :
  match_tag t = Some n -> (length (str " ") <= n <= length t)%nat.
Proof.
  unfold match_tag. intros H.
  destruct t as [|c rest]; [discriminate|].
  destruct (c =? 60) eqn:Ec.
  - apply Z.eqb_eq in Ec. subst c.
    destruct (index_with startsWith [62] rest) as [[|i]|] eqn:Ei;
      try discriminate.
    injection H as <-.
    apply index_with_bound in Ei; [|apply startsWith_length].
    change (length (str " ")) with 1%nat. simpl in *. lia.
  - exfalso. revert H.
    destruct c as [|p|p]; try discriminate.
    do 6 (destruct p as [p|p|]; try discriminate).
Qed.

Lemma match_lit_bound (p rep t : jsstring) (n : nat) :
  (length rep <= length p)%nat ->
  match_lit p t = Some n -> (length rep <= n <= length t)%nat.
Proof.
  unfold match_lit. intros Hrep H.
  destruct (startsWith p t) eqn:E; [|discriminate].
  injection H as <-. apply startsWith_length in E. lia.
Qed.

Lemma space_run_length (t : jsstring) : (space_run t <= length t)%nat.
Proof.
  induction t as [|c t IH]; simpl; [lia|].
  destruct (is_space c); simpl; lia.
Qed.

Lemma match_spaces_bound (t : jsstring) (n : nat) :
  match_spaces t = Some n -> (length (str " ") <= n <= length t)%nat.
Proof.
  unfold match_spaces. intros H.
  pose proof (space_run_length t) as Hl.
  destruct (space_run t) as [|k] eqn:E; [discriminate|].
  injection H as <-. change (length (str " ")) with 1%nat. lia.
Qed.

Lemma trimStart_length (s : jsstring) :
  (length (trimStart s) <= length s)%nat.
Proof.
  induction s as [|c t IH]; simpl; [lia|].
  destruct (is_space c); simpl; lia.
Qed.

Lemma len_trim (s : jsstring) : len (trim s) <= len s.
Proof.
  unfold trim, trimEnd, len. rewrite length_rev.
  pose proof (trimStart_length (rev (trimStart s))) as H1.
  rewrite length_rev in H1.
  pose proof (trimStart_length s). lia.
Qed.

(** The clean-up never makes the text longer. *)
Lemma len_clean_html (html : jsstring) : len (clean_html html) <= len html.
Proof.
  unfold clean_html.
  repeat match goal with
  | |- len (trim ?t) <= _ =>
      apply Z.le_trans with (len t); [apply len_trim|]
  | |- len (replace_all ?m ?rep ?t) <= _ =>
      apply Z.le_trans with (len t);
      [apply len_replace_all; intros u n Hu|]
  end; try lia;
  first [ apply match_block_bound in Hu; exact Hu
        | apply match_comment_bound in Hu; exact Hu
        | apply match_tag_bound in Hu; exact Hu
        | apply match_spaces_bound in Hu; exact Hu
        | eapply match_lit_bound; [|exact Hu]; vm_compute; lia
        | idtac ].
Qed.

(** ** Plain text passes the clean-up unchanged *)

Lemma startsWith_ci_cons (a : Z) (p : jsstring) (c : Z) (t : jsstring) :
  startsWith_ci (a :: p) (c :: t) = (lower a =? lower c) && startsWith_ci p t.
Proof. reflexivity. Qed.

Lemma startsWith_cons (a : Z) (p : jsstring) (c : Z) (t : jsstring) :
  startsWith (a :: p) (c :: t) = (a =? c) && startsWith p t.
Proof. reflexivity. Qed.

Lemma lower_angle (c : Z) : c <> 60 -> (lower 60 =? lower c) = false.
Proof.
  intros Hc. apply Z.eqb_neq. unfold lower.
  destruct ((65 <=? c) && (c <=? 90)) eqn:E.
  - apply andb_true_iff in E as [E1 E2]. simpl. lia.
  - simpl. lia.
Qed.

Lemma match_block_head (tag : jsstring) (c : Z) (t : jsstring) :
  c <> 60 -> match_block tag (c :: t) = None.
Proof.
  intros Hc. unfold match_block.
  rewrite startsWith_ci_cons, lower_angle by exact Hc. reflexivity.
Qed.

Lemma match_comment_head (c : Z) (t : jsstring) :
  c <> 60 -> match_comment (c :: t) = None.
Proof.
  intros Hc. unfold match_comment.
  change (str "<!--") with [60; 33; 45; 45].
  rewrite startsWith_cons.
  replace (60 =? c) with false; [reflexivity|].
  symmetry. apply Z.eqb_neq. lia.
Qed.

Lemma match_tag_head (c : Z) (t : jsstring) :
  c <> 60 -> match_tag (c :: t) = None.
Proof.
  intros Hc. unfold match_tag.
  destruct c as [|p|p]; try reflexivity.
  do 6 (destruct p as [p|p|]; try reflexivity).
  exfalso. apply Hc. reflexivity.
Qed.

Lemma match_lit_head (p : jsstring) (a c : Z) (t : jsstring) :
  c <> a -> match_lit (a :: p) (c :: t) = None.
Proof.
  intros Hc. unfold match_lit. rewrite startsWith_cons.
  replace (a =? c) with false; [reflexivity|].
  symmetry. apply Z.eqb_neq. lia.
Qed.

Lemma replace_spaces_single (s : jsstring) :
  single_spaced s = true -> replace_all match_spaces (str " ") s = s.
Proof.
  unfold replace_all. induction s as [|c t IH]; intros H; [reflexivity|].
  simpl in H. apply andb_true_iff in H as [Hc Ht].
  simpl replace_all_from. unfold match_spaces. simpl space_run.
  destruct (is_space c) eqn:Es.
  - apply andb_true_iff in Hc as [Hc Hn]. apply Z.eqb_eq in Hc. subst c.
    destruct t as [|d t']; [discriminate|].
    simpl space_run. apply negb_true_iff in Hn. rewrite Hn.
    change (str " ") with [32]. simpl app. f_equal. apply IH. exact Ht.
  - f_equal. apply IH. exact Ht.
Qed.

Lemma single_spaced_last (s : jsstring) (x : Z) :
  single_spaced (s ++ [x]) = true -> is_space x = false.
Proof.
  induction s as [|c t IH]; simpl; intros H.
  - destruct (is_space x); [|reflexivity].
    rewrite andb_false_r in H. discriminate.
  - apply andb_true_iff in H as [_ H]. apply IH. exact H.
Qed.

Lemma trim_plain (s : jsstring) :
  plain_text s = true -> trim s = s.
Proof.
  unfold plain_text. intros H.
  apply andb_true_iff in H as [H Hhead].
  apply andb_true_iff in H as [_ Hss].
  unfold trim, trimEnd.
  assert (Hs : trimStart s = s).
  { destruct s as [|c t]; [reflexivity|]. simpl.
    apply negb_true_iff in Hhead. rewrite Hhead. reflexivity. }
  rewrite Hs.
  assert (Hrev : s = rev (rev s)) by (symmetry; apply rev_involutive).
  destruct (rev s) as [|x r] eqn:Er; [exact (eq_sym Hrev)|].
  simpl in Hrev. rewrite Hrev in Hss.
  apply single_spaced_last in Hss.
  simpl trimStart. rewrite Hss. simpl. exact (eq_sym Hrev).
Qed.

Lemma plain_text_chars (s : jsstring) (c : Z) :
  plain_text s = true -> In c s -> c <> 60 /\ c <> 38.
Proof.
  unfold plain_text. intros H Hin.
  apply andb_true_iff in H as [H _]. apply andb_true_iff in H as [H _].
  rewrite forallb_forall in H. specialize (H c Hin).
  apply andb_true_iff in H as [H1 H2].
  apply negb_true_iff in H1, H2. apply Z.eqb_neq in H1, H2. tauto.
Qed.

Lemma clean_html_plain (s : jsstring) :
  plain_text s = true -> clean_html s = s.
Proof.
  intros H. unfold clean_html.
  rewrite (replace_all_id (match_block (str "script")) [] s)
    by (intros c t Hin; apply match_block_head;
        apply (plain_text_chars s c H Hin)).
  rewrite (replace_all_id (match_block (str "style")) [] s)
    by (intros c t Hin; apply match_block_head;
        apply (plain_text_chars s c H Hin)).
  rewrite (replace_all_id match_comment [] s)
    by (intros c t Hin; apply match_comment_head;
        apply (plain_text_chars s c H Hin)).
  rewrite (replace_all_id match_tag (str " ") s)
    by (intros c t Hin; apply match_tag_head;
        apply (plain_text_chars s c H Hin)).
  repeat match goal with
  | |- context [replace_all (match_lit ?p) ?rep s] =>
      rewrite (replace_all_id (match_lit p) rep s)
        by (intros c t Hin; apply match_lit_head;
            apply (plain_text_chars s c H Hin))
  end.
  rewrite replace_spaces_single.
  - apply trim_plain. exact H.
  - unfold plain_text in H. apply andb_true_iff in H as [H _].
    apply andb_true_iff in H as [_ H]. exact H.
Qed.

(** ** The scraper *)

(** [scrapeWebpage] makes one request and decides on its answer. *)
Lemma scrapeWebpage_run (rt : Runtime) (url : jsstring) (w : World) :
  scrapeWebpage rt url w =
  (match http_get rt url with
   | NetworkError msg => Throw (str "Failed to scrape webpage: " ++ msg)
   | Responded response =>
       if negb (resp_ok response) then
         Throw (str "Failed to scrape webpage: "
                ++ str "Failed to fetch webpage: "
                ++ num (resp_status response)
                ++ str " " ++ resp_statusText response)
       else if len (resp_text response) <? 100 then
         Throw (str "Failed to scrape webpage: "
                ++ str "Webpage returned empty or insufficient content")
       else if len (truncate_at 1000 800 (clean_html (resp_text response)))
               <? 100 then
         Throw (str "Failed to scrape webpage: "
                ++ str "Not enough meaningful content found on the page")
       else Ok (truncate_at 1000 800 (clean_html (resp_text response)))
   end,
   record_call rt (EvFetchPage url) w).
Proof.
  cbv beta iota zeta delta
      [scrapeWebpage try_catch bind fetch_page emit throw ret].
  destruct (http_get rt url) as [msg|response]; [reflexivity|].
  cbv beta iota zeta.
  destruct (negb (resp_ok response)); [reflexivity|].
  destruct (len (resp_text response) <? 100); [reflexivity|].
  destruct (len (truncate_at 1000 800 (clean_html (resp_text response)))
            <? 100); reflexivity.
Qed.

(** A page that the scraper accepts has at least 100 characters left. *)
Lemma scrapeWebpage_ok (rt : Runtime) (url content : jsstring) (w w' : World) :
  scrapeWebpage rt url w = (Ok content, w') ->
  100 <= len content /\ w' = record_call rt (EvFetchPage url) w.
Proof.
  rewrite scrapeWebpage_run. intros H.
  destruct (http_get rt url) as [msg|response]; [discriminate|].
  destruct (negb (resp_ok response)); [discriminate|].
  destruct (len (resp_text response) <? 100); [discriminate|].
  destruct (len (truncate_at 1000 800 (clean_html (resp_text response)))
            <? 100) eqn:E; [discriminate|].
  injection H as <- <-. split; [lia|reflexivity].
Qed.

(** C4. For a cleaned text of more than 1000 characters, extraction
    keeps its first 1000 characters and, when the last full stop of that
    prefix lies after position 800, only what runs up to and including
    that full stop.  A full stop at position [i] between 800 and 1000
    with none after it before 1000 ends the extract (so a text of 1200
    characters with a full stop at 850 and none later before 1000 ends
    there), and a text with no full stop before position 1000 is cut at
    exactly 1000 characters. *)
Theorem extraction_truncation_boundary
        (rt : Runtime) (url : jsstring) (response : HttpResponse) (w : World) :
  http_get rt url = Responded response ->
  resp_ok response = true ->
  let text := clean_html (resp_text response) in
  1000 < len text ->
  let prefix := substring0 1000 text in
  let lastPeriod := lastIndexOf 46 prefix in
  exists out,
    fst (scrapeWebpage rt url w) = Ok out /\
    len prefix = 1000 /\
    out = (if 800 <? lastPeriod then substring0 (lastPeriod + 1) text
           else prefix) /\
    (800 < lastPeriod ->
     len out = lastPeriod + 1 /\ charCodeAt out (len out - 1) = 46) /\
    (forall i,
        800 < i < 1000 -> charCodeAt text i = 46 ->
        (forall j, i < j < 1000 -> charCodeAt text j <> 46) ->
        out = substring0 (i + 1) text /\ len out = i + 1 /\
        charCodeAt out i = 46) /\
    (len text = 1200 -> charCodeAt text 850 = 46 ->
     (forall j, 850 < j < 1000 -> charCodeAt text j <> 46) ->
     out = substring0 851 text /\ charCodeAt out (len out - 1) = 46) /\
    ((forall j, 0 <= j < 1000 -> charCodeAt text j <> 46) ->
     out = substring0 1000 text /\ len out = 1000).
Proof.
  intros Hget Hok text Hlen prefix lastPeriod.
  exists (truncate_at 1000 800 text).
  assert (Hbody : 100 <= len (resp_text response)).
  { pose proof (len_clean_html (resp_text response)). fold text in H. lia. }
  assert (Hout : 800 < len (truncate_at 1000 800 text) <= 1000)
    by (apply truncate_at_len; lia).
  split.
  { rewrite scrapeWebpage_run, Hget, Hok. simpl negb. cbv iota.
    destruct (len (resp_text response) <? 100) eqn:E1; [lia|].
    fold text.
    destruct (len (truncate_at 1000 800 text) <? 100) eqn:E2; [lia|].
    reflexivity. }
  split; [unfold prefix; rewrite len_substring0 by lia; lia|].
  split.
  { rewrite truncate_at_long by lia. fold prefix. fold lastPeriod.
    rewrite Z.gtb_ltb. reflexivity. }
  split.
  { intros Hl. apply truncate_at_ends_with_period; [lia|lia|exact Hl]. }
  split.
  { intros i Hi Hat Hafter. apply truncate_at_period; try lia; assumption. }
  split.
  { intros _ Hat Hafter.
    destruct (truncate_at_period 1000 800 text 850) as [H1 [H2 H3]];
      try lia; try assumption.
    split; [exact H1|]. rewrite H2.
    replace (850 + 1 - 1) with 850 by lia. exact H3. }
  intros Habs. apply truncate_at_no_period; try lia.
  intros j Hj. apply Habs. lia.
Qed.

Example clean_html_sample :
  clean_html (str "<html><head><STYLE>p { color: red }</style><script type=x>if (a<b) { go() }</SCRIPT></head><body><!-- note --><p>Tom &amp; Jerry&nbsp;said   &quot;hi&quot;</p></body></html>")
  = str "Tom & Jerry said " ++ [34] ++ str "hi" ++ [34].
Proof. vm_compute. reflexivity. Qed.

Example clean_html_unclosed :
  clean_html (str "a <script>b < c") = str "a b < c".
Proof. vm_compute. reflexivity. Qed.

(** C6. With a successful response, extraction fails when the body has
    fewer than 100 characters, fails when the text left after the clean-up
    and the truncation has fewer than 100 characters, and succeeds, giving
    the text back unchanged, on exactly 100 characters of plain text.
    Whatever the response, a text that extraction returns has at least
    100 characters. *)
Theorem minimum_content_rejection
        (rt : Runtime) (url : jsstring) (response : HttpResponse) (w : World) :
  http_get rt url = Responded response ->
  resp_ok response = true ->
  let body := resp_text response in
  (len body < 100 ->
   fst (scrapeWebpage rt url w) =
   Throw (str "Failed to scrape webpage: Webpage returned empty or insufficient content")) /\
  (100 <= len body ->
   len (truncate_at 1000 800 (clean_html body)) < 100 ->
   fst (scrapeWebpage rt url w) =
   Throw (str "Failed to scrape webpage: Not enough meaningful content found on the page")) /\
  (plain_text body = true -> len body = 100 ->
   fst (scrapeWebpage rt url w) = Ok body) /\
  (forall out, fst (scrapeWebpage rt url w) = Ok out -> 100 <= len out).
Proof.
  intros Hget Hok body.
  rewrite scrapeWebpage_run, Hget, Hok. simpl negb. cbv iota. fold body.
  repeat split.
  - intros Hshort. cbn [fst].
    destruct (len body <? 100) eqn:E; [reflexivity|lia].
  - intros Hlong Hclean. cbn [fst].
    destruct (len body <? 100) eqn:E; [lia|].
    destruct (len (truncate_at 1000 800 (clean_html body)) <? 100) eqn:E2;
      [reflexivity|lia].
  - intros Hplain Hlen. cbn [fst].
    rewrite (clean_html_plain body Hplain).
    rewrite truncate_at_short by lia.
    destruct (len body <? 100) eqn:E; [lia|].
    reflexivity.
  - intros out. cbn [fst].
    destruct (len body <? 100); [discriminate|].
    destruct (len (truncate_at 1000 800 (clean_html body)) <? 100) eqn:E2;
      [discriminate|].
    intros [= <-]. lia.
Qed.

(** ** The cache key *)

Lemma to_int32_repr (z : Z) : exists k, to_int32 z = z + k * 2 ^ 32.
Proof.
  exists (- ((z + 2 ^ 31) / 2 ^ 32)). unfold to_int32.
  rewrite Z.mod_eq by lia. lia.
Qed.

Lemma to_int32_cong (a b k : Z) : a = b + k * 2 ^ 32 -> to_int32 a = to_int32 b.
Proof.
  intros ->. unfold to_int32.
  replace (b + k * 2 ^ 32 + 2 ^ 31) with (b + 2 ^ 31 + k * 2 ^ 32) by lia.
  rewrite Z.mod_add by lia. reflexivity.
Qed.

Lemma to_int32_range (z : Z) : - 2 ^ 31 <= to_int32 z < 2 ^ 31.
Proof.
  unfold to_int32. pose proof (Z.mod_pos_bound (z + 2 ^ 31) (2 ^ 32)). lia.
Qed.

(** One turn of the loop is one step of the polynomial, modulo [2^32]. *)
Lemma hash_step_poly (h h' c k : Z) :
  h = h' + k * 2 ^ 32 -> hash_step h c = to_int32 (31 * h' + c).
Proof.
  intros ->. unfold hash_step. rewrite Z.shiftl_mul_pow2 by lia.
  destruct (to_int32_repr ((h' + k * 2 ^ 32) * 2 ^ 5)) as [q Hq].
  rewrite Hq. apply to_int32_cong with (k := 31 * k + q).
  change (2 ^ 5) with 32. change (2 ^ 32) with 4294967296. lia.
Qed.

Lemma fold_hash_poly (u : jsstring) :
  forall h h' k,
    h = h' + k * 2 ^ 32 ->
    exists q,
      fold_left hash_step u h =
      fold_left (fun hash char => 31 * hash + char) u h' + q * 2 ^ 32.
Proof.
  induction u as [|c t IH]; intros h h' k Hh; simpl.
  - exists k. exact Hh.
  - rewrite (hash_step_poly h h' c k Hh).
    destruct (to_int32_repr (31 * h' + c)) as [q Hq].
    apply (IH _ _ q). exact Hq.
Qed.

Lemma fold_hash_closed (u : jsstring) :
  fold_left hash_step u 0 = to_int32 (poly31 u).
Proof.
  unfold poly31. destruct u as [|c t] using rev_ind; [reflexivity|].
  rewrite !fold_left_app. simpl.
  destruct (fold_hash_poly t 0 0 0 eq_refl) as [q Hq].
  apply (hash_step_poly _ _ c q). exact Hq.
Qed.

Lemma charCodeAt_middle (pre : jsstring) (c : Z) (suf : jsstring) :
  charCodeAt (pre ++ c :: suf) (len pre) = c.
Proof.
  unfold charCodeAt, len.
  destruct (Z.ltb_spec (Z.of_nat (length pre)) 0) as [E|E]; [lia|].
  rewrite Nat2Z.id. rewrite nth_middle. reflexivity.
Qed.

(** The loop visits the characters in order and stops by its own test:
    it is a left fold, whatever fuel is left over. *)
Lemma key_loop_fold (suf : jsstring) :
  forall extra pre h,
    key_loop (length suf + extra) (pre ++ suf)
             {| k_hash := h; k_i := len pre |} =
    {| k_hash := fold_left hash_step suf h; k_i := len (pre ++ suf) |}.
Proof.
  induction suf as [|c t IH]; intros extra pre h.
  - rewrite app_nil_r. simpl. destruct extra as [|extra]; [reflexivity|].
    simpl. rewrite Z.ltb_irrefl. reflexivity.
  - simpl key_loop. cbn [k_i k_hash].
    destruct (len pre <? len (pre ++ c :: t)) eqn:E.
    + rewrite charCodeAt_middle.
      replace (pre ++ c :: t) with ((pre ++ [c]) ++ t)
        by (rewrite <- app_assoc; reflexivity).
      replace (len pre + 1) with (len (pre ++ [c]))
        by (rewrite len_app; unfold len; simpl; lia).
      rewrite IH. reflexivity.
    + rewrite len_app, len_cons in E. pose proof (len_nonneg t). lia.
Qed.

Lemma key_loop_closed (url : jsstring) (fuel : nat) :
  (length url <= fuel)%nat ->
  k_hash (key_loop fuel url {| k_hash := 0; k_i := 0 |}) =
  to_int32 (poly31 url).
Proof.
  intros Hfuel.
  replace fuel with (length url + (fuel - length url))%nat by lia.
  pose proof (key_loop_fold url (fuel - length url) [] 0) as H.
  simpl app in H. change (len []) with 0 in H. rewrite H.
  simpl. apply fold_hash_closed.
Qed.

Lemma digit_value_digit (d : Z) : 0 <= d < 36 -> digit_value (digit d) = d.
Proof.
  intros H. unfold digit, digit_value.
  destruct (d <? 10) eqn:E.
  - destruct (48 + d <? 58) eqn:E2; lia.
  - destruct (87 + d <? 58) eqn:E2; lia.
Qed.

(** The fuel of [to_radix] suffices: the digits written read back as the
    number. *)
Lemma to_radix_digits (radix : Z) (fuel : nat) :
  2 <= radix <= 36 ->
  forall n acc,
    0 <= n < 2 ^ Z.of_nat fuel ->
    exists digits,
      to_radix fuel radix n acc = digits ++ acc /\
      parse_radix radix digits = n.
Proof.
  intros Hr. induction fuel as [|fuel IH]; intros n acc Hn.
  - exists []. split; [reflexivity|]. simpl in Hn. unfold parse_radix.
    simpl. lia.
  - simpl to_radix.
    assert (Hmod : 0 <= n mod radix < 36)
      by (pose proof (Z.mod_pos_bound n radix); lia).
    destruct (n / radix =? 0) eqn:E.
    + exists [digit (n mod radix)]. split; [reflexivity|].
      unfold parse_radix. simpl. rewrite digit_value_digit by exact Hmod.
      apply Z.eqb_eq in E. pose proof (Z.div_mod n radix). lia.
    + assert (Hdiv : 0 <= n / radix < 2 ^ Z.of_nat fuel).
      { split; [apply Z.div_pos; lia|].
        apply Z.div_lt_upper_bound; [lia|].
        rewrite Nat2Z.inj_succ, Z.pow_succ_r in Hn by lia.
        assert (0 < 2 ^ Z.of_nat fuel) by (apply Z.pow_pos_nonneg; lia).
        nia. }
      destruct (IH (n / radix) (digit (n mod radix) :: acc) Hdiv)
        as [digits [Heq Hval]].
      exists (digits ++ [digit (n mod radix)]). split.
      * rewrite Heq, <- app_assoc. reflexivity.
      * unfold parse_radix in *. rewrite fold_left_app, Hval. simpl.
        rewrite digit_value_digit by exact Hmod.
        pose proof (Z.div_mod n radix). lia.
Qed.

Lemma toString_radix_parse (radix n : Z) :
  2 <= radix <= 36 -> 0 <= n ->
  parse_radix radix (toString_radix radix n) = n.
Proof.
  intros Hr Hn. unfold toString_radix.
  destruct (to_radix_digits radix (S (Z.to_nat (Z.log2 n))) Hr n [])
    as [digits [Heq Hval]].
  - split; [exact Hn|].
    rewrite Nat2Z.inj_succ, Z2Nat.id by apply Z.log2_nonneg.
    destruct (Z.eq_dec n 0) as [->|Hpos]; [reflexivity|].
    apply Z.log2_spec. lia.
  - rewrite Heq, app_nil_r. exact Hval.
Qed.

(** C9. The cache key is a function of the characters of the URL and of
    nothing else: the loop ends by its own test after one turn per
    character, whatever fuel it is given beyond that, and what it returns
    is the base-36 writing of the absolute value of the signed 32-bit
    wrap of the polynomial of the character codes in 31, a writing that
    reads back as that value.  Nothing but the string enters either. *)
Theorem cache_key_pure (u : jsstring) :
  generateCacheKey u = toString_radix 36 (Z.abs (to_int32 (poly31 u))) /\
  parse_radix 36 (generateCacheKey u) = Z.abs (to_int32 (poly31 u)) /\
  (forall fuel,
      (length u <= fuel)%nat ->
      key_loop fuel u {| k_hash := 0; k_i := 0 |} =
      {| k_hash := to_int32 (poly31 u); k_i := len u |}).
Proof.
  assert (Hkey : generateCacheKey u
                 = toString_radix 36 (Z.abs (to_int32 (poly31 u))))
    by (unfold generateCacheKey; rewrite key_loop_closed by lia; reflexivity).
  split; [exact Hkey|]. split.
  - rewrite Hkey. apply toString_radix_parse; lia.
  - intros fuel Hfuel.
    replace fuel with (length u + (fuel - length u))%nat by lia.
    pose proof (key_loop_fold u (fuel - length u) [] 0) as H.
    simpl app in H. change (len []) with 0 in H. rewrite H.
    rewrite fold_hash_closed. reflexivity.
Qed.

(** ** The summariser *)

Lemma startsWith_app (p b : jsstring) : startsWith p (p ++ b) = true.
Proof.
  induction p as [|a p IH]; [reflexivity|].
  simpl. rewrite Z.eqb_refl. exact IH.
Qed.

Lemma includes_app (a p b : jsstring) : includes p (a ++ p ++ b) = true.
Proof.
  induction a as [|c a IH].
  - simpl app. destruct (p ++ b) eqn:E; simpl; rewrite <- ?E;
      rewrite startsWith_app; reflexivity.
  - simpl. rewrite IH. apply orb_true_r.
Qed.

(** What the handler of [summarizeArticle] throws for a message. *)
Lemma summarize_handler_keeps (message : jsstring) (w : World) :
  includes (str "insufficient content") message = true ->
  (if includes (str "AI binding not available") message then throw message
   else if includes (str "Invalid content") message then throw message
   else if includes (str "too short") message then throw message
   else if includes (str "insufficient content") message then throw message
   else throw (str "AI summarization failed: " ++ message)) w
  = (@Throw jsstring message, w).
Proof.
  intros H. rewrite H.
  destruct (includes (str "AI binding not available") message);
    [reflexivity|].
  destruct (includes (str "Invalid content") message); [reflexivity|].
  destruct (includes (str "too short") message); reflexivity.
Qed.

Lemma summarizeArticle_short (rt : Runtime)
      (ai : option (jsstring -> jsstring -> jsstring -> AiOutcome))
      (content : jsstring) (w : World) :
  len content < 100 ->
  summarizeArticle rt ai content w =
  (Throw match ai with
         | None => str "AI binding not available"
         | Some _ =>
             if len content =? 0
             then str "Invalid content provided for summarization"
             else str "Content too short for summarization (minimum 100 characters)"
         end, w).
Proof.
  intros Hshort.
  cbv beta iota zeta delta [summarizeArticle try_catch bind throw ret].
  destruct ai as [run|]; [|reflexivity].
  destruct (len content =? 0); [reflexivity|].
  destruct (len content <? 100) eqn:E; [reflexivity|lia].
Qed.

Lemma summarizeArticle_run (rt : Runtime)
      (run : jsstring -> jsstring -> jsstring -> AiOutcome)
      (content : jsstring) (v : AiValue) (t : jsstring) (w : World) :
  100 <= len content ->
  run llama systemPrompt (userPrompt (truncate_at 1000 800 content))
  = AiReturns v ->
  text_of_response v = Some t ->
  summarizeArticle rt (Some run) content w =
  (if len (clean_summary t) <? 50
   then Throw (str "AI generated insufficient content: "
               ++ num (len (clean_summary t)) ++ str " characters")
   else Ok (clean_summary t),
   record_call rt
     (EvAiRun llama systemPrompt (userPrompt (truncate_at 1000 800 content)))
     w).
Proof.
  intros Hlong Hrun Htext.
  cbv beta iota zeta delta
      [summarizeArticle try_catch bind throw ret ai_run emit response_text].
  destruct (len content =? 0) eqn:E0; [lia|].
  destruct (len content <? 100) eqn:E1; [lia|].
  rewrite Hrun. cbv beta iota zeta. rewrite Htext. cbv beta iota zeta.
  destruct (len (clean_summary t) <? 50); [|reflexivity].
  cbv beta iota zeta.
  apply summarize_handler_keeps.
  change (str "AI generated insufficient content: ")
    with (str "AI generated " ++ str "insufficient content" ++ str ": ").
  rewrite <- !app_assoc. apply includes_app.
Qed.

Example clean_summary_preamble :
  clean_summary (str "  Here's a short podcast script: Welcome back, everyone! ")
  = str "Welcome back, everyone!".
Proof. vm_compute. reflexivity. Qed.

Example clean_summary_ack :
  clean_summary (str "SURE,  today we look at the news.")
  = str "today we look at the news.".
Proof. vm_compute. reflexivity. Qed.

Example clean_summary_no_colon :
  clean_summary (str "This is the news today.") = str "This is the news today.".
Proof. vm_compute. reflexivity. Qed.

(** C7. The summariser fails on every text of fewer than 100 characters,
    without calling the model, and with the message of its input check
    when the binding is there; when the model answers and its text, once
    trimmed and rid of the preamble patterns, has fewer than 50
    characters, it fails with the message of its output check; otherwise
    it returns that cleaned text. *)
Theorem summarizer_thresholds
        (rt : Runtime)
        (ai : option (jsstring -> jsstring -> jsstring -> AiOutcome))
        (content : jsstring) (w : World) :
  (len content < 100 ->
   exists message,
     summarizeArticle rt ai content w = (Throw message, w) /\
     (ai <> None ->
      message =
      if len content =? 0
      then str "Invalid content provided for summarization"
      else str "Content too short for summarization (minimum 100 characters)")) /\
  (forall run v t,
      ai = Some run ->
      100 <= len content ->
      run llama systemPrompt (userPrompt (truncate_at 1000 800 content))
      = AiReturns v ->
      text_of_response v = Some t ->
      (len (clean_summary t) < 50 ->
       fst (summarizeArticle rt ai content w) =
       Throw (str "AI generated insufficient content: "
              ++ num (len (clean_summary t)) ++ str " characters")) /\
      (50 <= len (clean_summary t) ->
       fst (summarizeArticle rt ai content w) = Ok (clean_summary t))).
Proof.
  split.
  - intros Hshort. rewrite summarizeArticle_short by exact Hshort.
    eexists. split; [reflexivity|].
    intros Hai. destruct ai; [reflexivity|contradiction].
  - intros run v t -> Hlong Hrun Htext.
    rewrite (summarizeArticle_run rt run content v t w Hlong Hrun Htext).
    cbn [fst]. split; intros H.
    + destruct (len (clean_summary t) <? 50) eqn:E; [reflexivity|lia].
    + destruct (len (clean_summary t) <? 50) eqn:E; [lia|reflexivity].
Qed.

(** ** The speech adapter *)

(** With a key and a text that is not blank, [generateAudio] makes one
    request, for the truncated text, and decides on its answer. *)
Lemma generateAudio_run (rt : Runtime) (text : jsstring) (env : Env)
      (key : jsstring) (w : World) :
  ELEVENLABS_API_KEY env = Some key -> key <> [] ->
  len (trim text) <> 0 ->
  generateAudio rt text env w =
  (match http_post_tts rt (tts_endpoint env) key (truncate_at 800 600 text) with
   | NetworkError msg => Throw (str "ElevenLabs TTS failed: " ++ msg)
   | Responded response =>
       if negb (resp_ok response) then
         Throw (str "ElevenLabs TTS failed: " ++ str "ElevenLabs API error: "
                ++ num (resp_status response) ++ str " - "
                ++ resp_text response)
       else if len (resp_bytes response) =? 0 then
         Throw (str "ElevenLabs TTS failed: "
                ++ str "ElevenLabs returned empty audio")
       else Ok (resp_bytes response)
   end,
   record_call rt (EvTts (tts_endpoint env) key (truncate_at 800 600 text)) w).
Proof.
  intros Hkey Hne Htext.
  cbv beta iota zeta delta
      [generateAudio try_catch bind throw ret fetch_tts emit].
  rewrite Hkey. destruct key as [|k ey]; [contradiction|].
  cbv beta iota zeta.
  destruct (len (trim text) =? 0) eqn:E; [lia|].
  destruct (http_post_tts rt (tts_endpoint env) (k :: ey)
              (truncate_at 800 600 text)) as [msg|response]; [reflexivity|].
  cbv beta iota zeta.
  destruct (negb (resp_ok response)); [reflexivity|].
  destruct (len (resp_bytes response) =? 0); reflexivity.
Qed.

(** Without a key, or for a blank text, nothing is submitted. *)
Lemma generateAudio_refuses (rt : Runtime) (text : jsstring) (env : Env)
      (w : World) :
  truthy (ELEVENLABS_API_KEY env) = false \/ len (trim text) = 0 ->
  exists message, generateAudio rt text env w = (Throw message, w).
Proof.
  intros H.
  cbv beta iota zeta delta [generateAudio throw].
  destruct (ELEVENLABS_API_KEY env) as [[|k ey]|] eqn:Hkey;
    try (eexists; reflexivity).
  destruct H as [H|H]; [discriminate|].
  rewrite H. simpl. eexists. reflexivity.
Qed.

(** C8. When [generateAudio] submits a script, it submits it once, and
    what it submits is the script itself if it has 800 characters or
    fewer, and otherwise a prefix of its first 800 characters: the part
    up to and including the last full stop of those 800 characters when
    that full stop lies after position 600, the 800 characters
    otherwise. *)
Theorem synthesis_truncation
        (rt : Runtime) (text : jsstring) (env : Env) (key : jsstring)
        (w : World) :
  ELEVENLABS_API_KEY env = Some key -> key <> [] ->
  len (trim text) <> 0 ->
  exists submitted,
    trace (snd (generateAudio rt text env w)) =
    trace w ++ [EvTts (tts_endpoint env) key submitted] /\
    (len text <= 800 -> submitted = text) /\
    (800 < len text ->
     let lastPeriod := lastIndexOf 46 (substring0 800 text) in
     submitted = (if 600 <? lastPeriod then substring0 (lastPeriod + 1) text
                  else substring0 800 text) /\
     600 < len submitted <= 800 /\
     submitted = substring0 (len submitted) text /\
     (600 < lastPeriod ->
      len submitted = lastPeriod + 1 /\
      charCodeAt submitted (len submitted - 1) = 46) /\
     (forall i,
         600 < i < 800 -> charCodeAt text i = 46 ->
         (forall j, i < j < 800 -> charCodeAt text j <> 46) ->
         submitted = substring0 (i + 1) text) /\
     ((forall j, 600 < j < 800 -> charCodeAt text j <> 46) ->
      submitted = substring0 800 text)).
Proof.
  intros Hkey Hne Htext.
  exists (truncate_at 800 600 text).
  rewrite (generateAudio_run rt text env key w Hkey Hne Htext).
  cbn [snd]. split; [reflexivity|].
  split; [intros Hshort; apply truncate_at_short; exact Hshort|].
  intros Hlong. set (lastPeriod := lastIndexOf 46 (substring0 800 text)).
  assert (Hcut : truncate_at 800 600 text =
                 if 600 <? lastPeriod then substring0 (lastPeriod + 1) text
                 else substring0 800 text).
  { rewrite truncate_at_long by lia. fold lastPeriod.
    rewrite Z.gtb_ltb. reflexivity. }
  pose proof (truncate_at_len 800 600 text ltac:(lia) Hlong) as Hl.
  split; [exact Hcut|]. split; [exact Hl|]. split.
  { pose proof (lastIndexOf_range 46 (substring0 800 text)) as Hr.
    rewrite len_substring0 in Hr by lia. fold lastPeriod in Hr.
    rewrite Hcut. destruct (600 <? lastPeriod) eqn:E;
      rewrite len_substring0 by lia; f_equal; lia. }
  split.
  { intros Hp. apply truncate_at_ends_with_period; [lia|lia|exact Hp]. }
  split.
  { intros i Hi Hat Hafter.
    apply (truncate_at_period 800 600 text i); try lia; assumption. }
  intros Habs. apply truncate_at_no_period; try lia. exact Habs.
Qed.

(** ** The title *)

Example title_of_story :
  extractTitle (sample_runtime [] []) story_url = str "Story 1".
Proof. vm_compute. reflexivity. Qed.

Example title_of_file :
  extractTitle (sample_runtime [] [])
               (str "https://www.example.com/news/my_great-article.html?x=1")
  = str "My Great Article".
Proof. vm_compute. reflexivity. Qed.

Example title_of_host :
  extractTitle (sample_runtime [] []) (str "https://www.example.com/")
  = str "Example".
Proof. vm_compute. reflexivity. Qed.

Example title_of_inner_www :
  extractTitle (sample_runtime [] []) (str "https://newswww.example.org")
  = str "Newsexample".
Proof. vm_compute. reflexivity. Qed.

Lemma includes_false_index (p s : jsstring) :
  includes p s = false -> index_with startsWith p s = None.
Proof.
  induction s as [|c t IH]; simpl; intros H.
  - rewrite orb_false_r in H. rewrite H. reflexivity.
  - apply orb_false_iff in H as [H1 H2]. rewrite H1, (IH H2). reflexivity.
Qed.

(** [replace('www.', '')] removes a leading "www." and leaves a host name
    without "www." alone. *)
Lemma replace_first_leading (p host : jsstring) :
  startsWith p host = true \/ includes p host = false ->
  replace_first p [] host
  = if startsWith p host then skipn (length p) host else host.
Proof.
  unfold replace_first. intros [H|H].
  - rewrite H. destruct host as [|c t]; simpl index_with; rewrite H;
      reflexivity.
  - rewrite (includes_false_index p host H).
    destruct host as [|c t]; simpl in H.
    + rewrite orb_false_r in H. rewrite H. reflexivity.
    + apply orb_false_iff in H as [H _]. rewrite H. reflexivity.
Qed.


(** ** What each step does to the world *)

Lemma summarizeArticle_cases (rt : Runtime)
      (ai : option (jsstring -> jsstring -> jsstring -> AiOutcome))
      (content : jsstring) (w : World) :
  let call :=
    EvAiRun llama systemPrompt (userPrompt (truncate_at 1000 800 content)) in
  (exists message, summarizeArticle rt ai content w = (Throw message, w)) \/
  (exists message,
      summarizeArticle rt ai content w = (Throw message, record_call rt call w)) \/
  (exists summary,
      summarizeArticle rt ai content w = (Ok summary, record_call rt call w) /\
      50 <= len summary /\ ai <> None /\ 100 <= len content).
Proof.
  intros call.
  destruct (Z_lt_le_dec (len content) 100) as [Hshort|Hlong].
  { left. rewrite summarizeArticle_short by exact Hshort.
    eexists. reflexivity. }
  destruct ai as [run|].
  2:{ left. eexists. reflexivity. }
  cbv beta iota zeta delta
      [summarizeArticle try_catch bind throw ret ai_run emit response_text].
  destruct (len content =? 0) eqn:E0; [lia|].
  destruct (len content <? 100) eqn:E1; [lia|].
  fold call.
  destruct (run llama systemPrompt
                (userPrompt (truncate_at 1000 800 content))) as [msg|v].
  { right. left. cbv beta iota zeta.
    destruct (includes (str "AI binding not available") msg);
      [eexists; reflexivity|].
    destruct (includes (str "Invalid content") msg); [eexists; reflexivity|].
    destruct (includes (str "too short") msg); [eexists; reflexivity|].
    destruct (includes (str "insufficient content") msg);
      eexists; reflexivity. }
  cbv beta iota zeta.
  destruct (text_of_response v) as [t|].
  2:{ right. left. eexists. reflexivity. }
  cbv beta iota zeta.
  destruct (len (clean_summary t) <? 50) eqn:E.
  - right. left. cbv beta iota zeta.
    destruct (includes (str "AI binding not available")
                (str "AI generated insufficient content: "
                 ++ num (len (clean_summary t)) ++ str " characters"));
      [eexists; reflexivity|].
    destruct (includes (str "Invalid content")
                (str "AI generated insufficient content: "
                 ++ num (len (clean_summary t)) ++ str " characters"));
      [eexists; reflexivity|].
    destruct (includes (str "too short")
                (str "AI generated insufficient content: "
                 ++ num (len (clean_summary t)) ++ str " characters"));
      [eexists; reflexivity|].
    destruct (includes (str "insufficient content")
                (str "AI generated insufficient content: "
                 ++ num (len (clean_summary t)) ++ str " characters"));
      eexists; reflexivity.
  - right. right. exists (clean_summary t).
    split; [reflexivity|]. split; [lia|]. split; [discriminate|lia].
Qed.

Lemma generateAudio_cases (rt : Runtime) (text : jsstring) (env : Env)
      (w : World) :
  (exists message, generateAudio rt text env w = (Throw message, w)) \/
  (exists key,
      ELEVENLABS_API_KEY env = Some key /\ key <> [] /\
      let call := EvTts (tts_endpoint env) key (truncate_at 800 600 text) in
      ((exists message,
           generateAudio rt text env w = (Throw message, record_call rt call w)) \/
       (exists response,
           generateAudio rt text env w =
           (Ok (resp_bytes response), record_call rt call w) /\
           http_post_tts rt (tts_endpoint env) key (truncate_at 800 600 text)
           = Responded response /\
           resp_ok response = true /\
           len (resp_bytes response) <> 0))).
Proof.
  destruct (ELEVENLABS_API_KEY env) as [[|k ey]|] eqn:Hkey.
  - left. apply generateAudio_refuses. left. rewrite Hkey. reflexivity.
  - destruct (Z.eq_dec (len (trim text)) 0) as [Hblank|Htext].
    { left. apply generateAudio_refuses. right. exact Hblank. }
    right. exists (k :: ey). split; [reflexivity|]. split; [discriminate|].
    intros call.
    rewrite (generateAudio_run rt text env (k :: ey) w Hkey
               ltac:(discriminate) Htext).
    fold call.
    destruct (http_post_tts rt (tts_endpoint env) (k :: ey)
                (truncate_at 800 600 text)) as [msg|response] eqn:Hpost.
    { left. eexists. reflexivity. }
    destruct (resp_ok response) eqn:Hok; simpl negb; cbv iota.
    2:{ left. eexists. reflexivity. }
    destruct (len (resp_bytes response) =? 0) eqn:E.
    { left. eexists. reflexivity. }
    apply Z.eqb_neq in E.
    right. exists response.
    split; [reflexivity|]. split; [reflexivity|]. split; [exact Hok|exact E].
  - left. apply generateAudio_refuses. left. rewrite Hkey. reflexivity.
Qed.

Lemma bucket_put_run (rt : Runtime) (put_fault : jsstring -> option jsstring)
      (fileName : jsstring) (audioBuffer : list Z) (w : World) :
  bucket_put rt put_fault fileName audioBuffer w =
  match put_fault fileName with
  | Some msg =>
      (Throw msg, record_call rt (EvBucketPut fileName audioBuffer) w)
  | None =>
      (Ok tt,
       set_bucket (record_call rt (EvBucketPut fileName audioBuffer) w)
         ((fileName, audioBuffer)
            :: filter (fun kv => negb (eqs (fst kv) fileName)) (bucket w)))
  end.
Proof.
  cbv beta iota zeta delta [bucket_put bind emit throw].
  destruct (put_fault fileName); reflexivity.
Qed.

(** The world after the best-effort save. *)
Lemma save_if_bound_run (rt : Runtime) (env : Env) (d : PodcastData)
      (w : World) :
  save_if_bound rt env d w =
  (Ok tt,
   match PODCAST_DB env with
   | None => w
   | Some db =>
       let w1 := record_call rt (EvDbInsertPodcast d) w in
       match insert_fault db d with
       | Some _ => w1
       | None =>
           if existsb (clashes d) (podcasts w) then w1
           else set_tables w1
                  (podcasts w ++ [row_of_data (next_podcast_id w)
                                              (clock w1) d])
                  (next_podcast_id w + 1) (processing_logs w)
       end
   end).
Proof.
  cbv beta iota zeta delta
      [save_if_bound savePodcast insert_podcast try_catch bind emit throw ret].
  destruct (PODCAST_DB env) as [db|]; [|reflexivity].
  destruct (insert_fault db d); [reflexivity|].
  cbv beta iota zeta. cbn [podcasts record_call].
  destruct (existsb (clashes d) (podcasts w)); reflexivity.
Qed.

Lemma init_if_bound_run (rt : Runtime) (env : Env) (w : World) :
  init_if_bound rt env w =
  (Ok tt,
   match PODCAST_DB env with
   | Some _ => record_call rt EvDbExec w
   | None => w
   end).
Proof.
  cbv beta iota zeta delta [init_if_bound initializeDatabase bind emit ret].
  destruct (PODCAST_DB env) as [db|]; [|reflexivity].
  destruct (exec_fault db); reflexivity.
Qed.

Lemma check_database_run (rt : Runtime) (env : Env) (url : jsstring)
      (w : World) :
  check_database rt env url w =
  match PODCAST_DB env with
  | None => (Ok None, w)
  | Some db =>
      (Ok match select_fault db url with
          | Some _ => None
          | None =>
              option_map view_of_row
                         (find (fun r => eqs (row_url r) url) (podcasts w))
          end,
       record_call rt (EvDbSelectByUrl url) w)
  end.
Proof.
  cbv beta iota zeta delta
      [check_database getPodcastByUrl select_by_url try_catch bind emit
       throw ret].
  destruct (PODCAST_DB env) as [db|]; [|reflexivity].
  destruct (select_fault db url); [reflexivity|].
  cbv beta iota zeta. cbn [podcasts record_call].
  destruct (find (fun r => eqs (row_url r) url) (podcasts w)); reflexivity.
Qed.

(** ** The cache hit *)

Lemma trace_record_call (rt : Runtime) (e : Event) (w : World) :
  trace (record_call rt e w) = trace w ++ [e].
Proof. reflexivity. Qed.

Lemma generatePodcastSync_hit (rt : Runtime) (env : Env) (db : D1)
      (url userId origin : jsstring) (w : World) (row : PodcastRow) :
  PODCAST_DB env = Some db ->
  select_fault db url = None ->
  find (fun r => eqs (row_url r) url) (podcasts w) = Some row ->
  generatePodcastSync rt url userId env origin w =
  (Ok (GenSuccess (cached_view origin (view_of_row row))),
   record_call rt (EvDbSelectByUrl url) (record_call rt EvDbExec w)).
Proof.
  intros Hdb Hsel Hfind.
  cbv beta iota zeta delta [generatePodcastSync Date_now try_catch bind].
  rewrite init_if_bound_run, Hdb. cbv beta iota zeta.
  rewrite check_database_run, Hdb, Hsel. cbv beta iota zeta.
  cbn [podcasts record_call]. rewrite Hfind. reflexivity.
Qed.

(** C1. When the database is bound and holds a record for the URL, with
    status completed, [generatePodcastSync] returns that record, whoever
    asks: the result carries the id, URL, title, script, file name,
    creation time, user, status, times, sizes and cache key of the stored
    row, each as the row has it, and the marker [cached: true].  Its audio
    URL is the origin followed by "/audio/" and the file name when the
    row names a file and its stored URL does not start with "http", and
    the stored URL otherwise.  The only calls made are the schema script
    and the lookup: no page is fetched, no model is run, no speech is
    requested, nothing is stored. *)
Theorem cache_hit_short_circuit
        (rt : Runtime) (env : Env) (db : D1) (url userId origin : jsstring)
        (w : World) (row : PodcastRow) :
  PODCAST_DB env = Some db ->
  select_fault db url = None ->
  find (fun r => eqs (row_url r) url) (podcasts w) = Some row ->
  row_status row = Some (str "completed") ->
  exists data w',
    generatePodcastSync rt url userId env origin w = (Ok (GenSuccess data), w') /\
    In row (podcasts w) /\
    v_id data = Some (row_id row) /\
    v_url data = url /\
    v_url data = row_url row /\
    v_title data = row_title row /\
    v_summary data = row_summary row /\
    v_audioFileName data = row_audio_file_name row /\
    v_createdAt data = Some (row_created_at row) /\
    v_userId data = row_user_id row /\
    v_status data = row_status row /\
    v_processingTimeMs data = row_processing_time_ms row /\
    v_contentLength data = row_content_length row /\
    v_summaryLength data = row_summary_length row /\
    v_audioSizeBytes data = row_audio_size_bytes row /\
    v_cacheKey data = row_cache_key row /\
    v_cached data = Some true /\
    v_audioUrl data
    = (if (0 <? len (row_audio_file_name row)) &&
          negb (match row_audio_url row with
                | Some stored => startsWith (str "http") stored
                | None => false
                end)
       then Some (origin ++ str "/audio/" ++ row_audio_file_name row)
       else row_audio_url row) /\
    data = set_audioUrl (view_of_row row) (v_audioUrl data) (Some true) /\
    v_status data = Some (str "completed") /\
    (row_audio_file_name row <> [] ->
     v_audioUrl data
     = Some (origin ++ str "/audio/" ++ row_audio_file_name row) \/
     exists stored,
       row_audio_url row = Some stored /\
       startsWith (str "http") stored = true /\
       v_audioUrl data = Some stored) /\
    trace w' = trace w ++ [EvDbExec; EvDbSelectByUrl url] /\
    (forall e, In e (trace w') ->
               In e (trace w) \/ is_pipeline_call e = false) /\
    podcasts w' = podcasts w /\
    bucket w' = bucket w /\
    processing_logs w' = processing_logs w.
Proof.
  intros Hdb Hsel Hfind Hstatus.
  exists (cached_view origin (view_of_row row)).
  exists (record_call rt (EvDbSelectByUrl url) (record_call rt EvDbExec w)).
  split; [apply (generatePodcastSync_hit rt env db); assumption|].
  destruct (find_some _ _ Hfind) as [Hin Hurl]. unfold eqs in Hurl.
  destruct (list_eq_dec Z.eq_dec (row_url row) url) as [Hsame|];
    [clear Hurl; rename Hsame into Hurl|discriminate].
  split; [exact Hin|].
  split; [reflexivity|].
  split; [exact Hurl|].
  do 12 (split; [reflexivity|]).
  split; [reflexivity|].
  split; [reflexivity|].
  split; [reflexivity|].
  split; [exact Hstatus|].
  split.
  { intros Hfile. unfold cached_view, ensure_audio_url.
    cbn [v_audioUrl set_audioUrl view_of_row v_audioFileName].
    destruct (row_audio_file_name row) as [|c f] eqn:Ef; [contradiction|].
    replace (0 <? len (c :: f)) with true
      by (symmetry; apply Z.ltb_lt; rewrite len_cons;
          pose proof (len_nonneg f); lia).
    destruct (row_audio_url row) as [stored|]; [|left; reflexivity].
    destruct (startsWith (str "http") stored) eqn:Eh.
    - right. exists stored. repeat split. exact Eh.
    - left. reflexivity. }
  split.
  { rewrite !trace_record_call, <- app_assoc. reflexivity. }
  split.
  { intros e. rewrite !trace_record_call, <- app_assoc.
    intros Hin'. apply in_app_or in Hin' as [Hin'|Hin']; [left; exact Hin'|].
    right. destruct Hin' as [<-|[<-|[]]]; reflexivity. }
  repeat split.
Qed.

(** ** Runs that miss the cache *)

Lemma eqs_refl (a : jsstring) : eqs a a = true.
Proof. unfold eqs. destruct (list_eq_dec Z.eq_dec a a); congruence. Qed.

Lemma eqs_true (a b : jsstring) : eqs a b = true -> a = b.
Proof. unfold eqs. destruct (list_eq_dec Z.eq_dec a b); congruence. Qed.

Lemma only_calls_refl (allowed : Event -> bool) (w : World) :
  only_calls allowed w w.
Proof.
  split; [repeat split|]. exists []. rewrite app_nil_r. split; reflexivity.
Qed.

Lemma only_calls_call (rt : Runtime) (allowed : Event -> bool) (e : Event)
      (w w' : World) :
  only_calls allowed w w' -> allowed e = true ->
  only_calls allowed w (record_call rt e w').
Proof.
  intros [[H1 [H2 [H3 H4]]] [calls [Ht Hall]]] He.
  split; [repeat split; assumption|].
  exists (calls ++ [e]). split.
  - rewrite trace_record_call, Ht, app_assoc. reflexivity.
  - rewrite forallb_app, Hall. simpl. rewrite He. reflexivity.
Qed.

Lemma only_calls_trans (allowed : Event -> bool) (w1 w2 w3 : World) :
  only_calls allowed w1 w2 -> only_calls allowed w2 w3 ->
  only_calls allowed w1 w3.
Proof.
  intros [[A1 [A2 [A3 A4]]] [c1 [T1 F1]]] [[B1 [B2 [B3 B4]]] [c2 [T2 F2]]].
  split; [repeat split; congruence|].
  exists (c1 ++ c2). split.
  - rewrite T2, T1, app_assoc. reflexivity.
  - rewrite forallb_app, F1, F2. reflexivity.
Qed.

Lemma scrapeWebpage_world (rt : Runtime) (url : jsstring) (w : World) :
  exists r,
    scrapeWebpage rt url w = (r, record_call rt (EvFetchPage url) w) /\
    forall content, r = Ok content -> 100 <= len content.
Proof.
  destruct (scrapeWebpage rt url w) as [r w'] eqn:E.
  exists r.
  assert (Hw : w' = record_call rt (EvFetchPage url) w).
  { rewrite scrapeWebpage_run in E. injection E as _ <-. reflexivity. }
  subst w'. split; [reflexivity|].
  intros content ->. apply (scrapeWebpage_ok rt url content w _ E).
Qed.

Ltac stopped :=
  repeat first
    [ apply only_calls_refl
    | apply only_calls_call;
      [|cbn [step_call]; rewrite ?eqs_refl; reflexivity] ].

(** A run of steps 2 to 6 either stops with an exception, having written
    nothing, or goes through all of them, writes the audio object, and
    returns the assembled record after the best-effort save. *)
Lemma generate_fresh_shape (rt : Runtime) (startTime : Z)
      (url userId : jsstring) (env : Env) (origin : jsstring) (w : World) :
  let file := audio_file_name (generateCacheKey url) in
  (exists message w',
      generate_fresh rt startTime url userId env origin w = (Throw message, w') /\
      only_calls (step_call file) w w') \/
  (exists content summary key response put_fault w3,
      let audio := resp_bytes response in
      let w1 := record_call rt (EvFetchPage url) w in
      let w4 := record_call rt
                  (EvTts (tts_endpoint env) key (truncate_at 800 600 summary))
                  w3 in
      let w5 := stored rt file audio w4 in
      let d := assembled url (extractTitle rt url) summary file origin userId
                         (clock w5 - startTime) (len content) (len audio) in
      let w6 := snd (save_if_bound rt env d w5) in
      generate_fresh rt startTime url userId env origin w =
      (Ok (GenSuccess (view_of_data d (origin ++ str "/audio/" ++ file)
                                    (clock w6) None)), w6) /\
      only_calls (step_call file) w w3 /\
      scrapeWebpage rt url w = (Ok content, w1) /\
      summarizeArticle rt (AI env) (truncate_at 1000 800 content) w1
      = (Ok summary, w3) /\
      generateAudio rt summary env w3 = (Ok audio, w4) /\
      100 <= len content /\ 50 <= len summary /\
      ELEVENLABS_API_KEY env = Some key /\
      http_post_tts rt (tts_endpoint env) key (truncate_at 800 600 summary)
      = Responded response /\
      resp_ok response = true /\ len audio <> 0 /\
      AUDIO_BUCKET env = Some put_fault /\ put_fault file = None).
Proof.
  intros file.
  cbv beta iota zeta delta [generate_fresh bind try_catch throw ret Date_now].
  destruct (scrapeWebpage_world rt url w) as [r [Hs Hlen]]. rewrite Hs.
  destruct r as [content|msg].
  2:{ left. do 2 eexists. split; [reflexivity|]. stopped. }
  specialize (Hlen content eq_refl).
  destruct (len content <? 100) eqn:E100; [lia|].
  destruct (AI env) as [run|] eqn:Hai.
  2:{ left. do 2 eexists. split; [reflexivity|]. stopped. }
  destruct (summarizeArticle_cases rt (Some run)
              (truncate_at 1000 800 content)
              (record_call rt (EvFetchPage url) w))
    as [[msg Hsum]|[[msg Hsum]|[summary [Hsum [Hsl _]]]]]; rewrite Hsum.
  { left. do 2 eexists. split; [reflexivity|]. stopped. }
  { left. do 2 eexists. split; [reflexivity|]. stopped. }
  destruct (len summary <? 30) eqn:E30; [lia|].
  set (w2 := record_call rt
               (EvAiRun llama systemPrompt
                  (userPrompt
                     (truncate_at 1000 800 (truncate_at 1000 800 content))))
               (record_call rt (EvFetchPage url) w)) in *.
  assert (Hw2 : only_calls (step_call file) w w2) by (unfold w2; stopped).
  destruct (generateAudio_cases rt summary env w2)
    as [[msg Ha]|[key [Hkey [Hne [[msg Ha]|[response [Ha [Hpost [Hok Hbytes]]]]]]]]];
    rewrite Ha.
  { left. do 2 eexists. split; [reflexivity|]. exact Hw2. }
  { left. do 2 eexists. split; [reflexivity|].
    apply only_calls_call; [exact Hw2|reflexivity]. }
  cbv beta iota zeta.
  destruct (len (resp_bytes response) =? 0) eqn:Eb;
    [apply Z.eqb_eq in Eb; contradiction|].
  cbv beta iota zeta.
  destruct (AUDIO_BUCKET env) as [put_fault|] eqn:Hbucket.
  2:{ left. do 2 eexists. split; [reflexivity|].
      apply only_calls_call; [exact Hw2|reflexivity]. }
  rewrite bucket_put_run. fold file.
  destruct (put_fault file) as [msg|] eqn:Hput.
  { left. do 2 eexists. split; [reflexivity|].
    apply only_calls_call;
      [apply only_calls_call; [exact Hw2|reflexivity]
      |cbn [step_call]; rewrite eqs_refl; reflexivity]. }
  right. exists content, summary, key, response, put_fault, w2.
  cbv beta iota zeta.
  rewrite !save_if_bound_run. cbn [snd].
  split; [reflexivity|].
  split; [exact Hw2|]. split; [reflexivity|].
  repeat (split; [first [assumption|reflexivity]|]).
  first [assumption|reflexivity].
Qed.

Lemma checked_world (rt : Runtime) (env : Env) (url : jsstring) (w : World) :
  checked rt env url w =
  match PODCAST_DB env with
  | Some _ => record_call rt (EvDbSelectByUrl url) (record_call rt EvDbExec w)
  | None => w
  end.
Proof.
  unfold checked. rewrite init_if_bound_run, check_database_run. cbn [snd].
  destruct (PODCAST_DB env); reflexivity.
Qed.

Lemma checked_only_calls (rt : Runtime) (env : Env) (url : jsstring)
      (w : World) :
  only_calls lookup_call w (checked rt env url w).
Proof.
  rewrite checked_world.
  destruct (PODCAST_DB env) as [db|].
  - apply only_calls_call; [|reflexivity].
    apply only_calls_call; [|reflexivity]. apply only_calls_refl.
  - apply only_calls_refl.
Qed.

Lemma check_database_value (rt : Runtime) (env : Env) (url : jsstring)
      (w : World) :
  fst (check_database rt env url (snd (init_if_bound rt env w)))
  = Ok (cache_lookup env url w).
Proof.
  rewrite init_if_bound_run, check_database_run. unfold cache_lookup.
  cbn [snd]. destruct (PODCAST_DB env) as [db|]; reflexivity.
Qed.

(** [generatePodcastSync] is the lookup, then either the cached record or
    the fresh run with its exception turned into a failure result. *)
Lemma generatePodcastSync_run (rt : Runtime) (url userId : jsstring)
      (env : Env) (origin : jsstring) (w : World) :
  generatePodcastSync rt url userId env origin w =
  match cache_lookup env url w with
  | Some cachedData =>
      (Ok (GenSuccess (cached_view origin cachedData)), checked rt env url w)
  | None =>
      match generate_fresh rt (clock w) url userId env origin
                           (checked rt env url w) with
      | (Ok result, w') => (Ok result, w')
      | (Throw message, w') => (Ok (failure_of message), w')
      end
  end.
Proof.
  rewrite checked_world. unfold cache_lookup.
  cbv beta iota zeta delta [generatePodcastSync Date_now try_catch bind ret].
  rewrite init_if_bound_run. cbv beta iota zeta.
  rewrite check_database_run.
  destruct (PODCAST_DB env) as [db|]; cbv beta iota zeta.
  - destruct (select_fault db url); cbv beta iota zeta.
    + destruct (generate_fresh rt (clock w) url userId env origin _)
        as [[result|message] w']; reflexivity.
    + cbn [podcasts record_call].
      destruct (find (fun r => eqs (row_url r) url) (podcasts w));
        cbn [option_map]; cbv beta iota zeta; [reflexivity|].
      destruct (generate_fresh rt (clock w) url userId env origin _)
        as [[result|message] w']; reflexivity.
  - destruct (generate_fresh rt (clock w) url userId env origin w)
      as [[result|message] w']; reflexivity.
Qed.

(** The same for steps 2 to 7 of the workflow.  The class does not
    declare [generateCacheKey]; unless its base class provides one, the
    step that stores the audio throws before it writes anything. *)
Lemma workflow_fresh_shape (rt : Runtime) (url : jsstring)
      (userId : option jsstring) (env : Env) (w : World) :
  (exists message w',
      workflow_fresh rt url userId env w = (Throw message, w') /\
      only_calls
        (step_call
           (match base_generateCacheKey rt with
            | Some this_generateCacheKey =>
                audio_file_name (this_generateCacheKey url)
            | None => []
            end)) w w') \/
  (exists this_generateCacheKey content summary key response put_fault w3,
      let file := audio_file_name (this_generateCacheKey url) in
      let audio := resp_bytes response in
      let w1 := record_call rt (EvFetchPage url) w in
      let w4 := record_call rt
                  (EvTts (tts_endpoint env) key (truncate_at 800 600 summary))
                  w3 in
      let w5 := stored rt file audio w4 in
      let d := assembled_workflow url (extractTitle rt url) summary file
                                  userId in
      let w6 := snd (save_if_bound rt env d w5) in
      workflow_fresh rt url userId env w =
      (Ok (GenSuccess (view_of_data d file (clock w6) (Some false))), w6) /\
      base_generateCacheKey rt = Some this_generateCacheKey /\
      only_calls (step_call file) w w3 /\
      scrapeWebpage rt url w = (Ok content, w1) /\
      summarizeArticle rt (AI env) (truncate_at 1000 800 content) w1
      = (Ok summary, w3) /\
      generateAudio rt summary env w3 = (Ok audio, w4) /\
      100 <= len content /\ 50 <= len summary /\
      ELEVENLABS_API_KEY env = Some key /\
      http_post_tts rt (tts_endpoint env) key (truncate_at 800 600 summary)
      = Responded response /\
      resp_ok response = true /\ len audio <> 0 /\
      AUDIO_BUCKET env = Some put_fault /\ put_fault file = None).
Proof.
  set (file0 := match base_generateCacheKey rt with
                | Some this_generateCacheKey =>
                    audio_file_name (this_generateCacheKey url)
                | None => []
                end).
  cbv beta iota zeta delta
      [workflow_fresh step_do bind try_catch throw ret Date_now].
  destruct (scrapeWebpage_world rt url w) as [r [Hs Hlen]]. rewrite Hs.
  destruct r as [content|msg].
  2:{ left. do 2 eexists. split; [reflexivity|]. stopped. }
  specialize (Hlen content eq_refl).
  destruct (len content <? 100) eqn:E100; [lia|].
  destruct (AI env) as [run|] eqn:Hai.
  2:{ left. do 2 eexists. split; [reflexivity|]. stopped. }
  destruct (summarizeArticle_cases rt (Some run)
              (truncate_at 1000 800 content)
              (record_call rt (EvFetchPage url) w))
    as [[msg Hsum]|[[msg Hsum]|[summary [Hsum [Hsl _]]]]]; rewrite Hsum.
  { left. do 2 eexists. split; [reflexivity|]. stopped. }
  { left. do 2 eexists. split; [reflexivity|]. stopped. }
  destruct (len summary <? 30) eqn:E30; [lia|].
  set (w2 := record_call rt
               (EvAiRun llama systemPrompt
                  (userPrompt
                     (truncate_at 1000 800 (truncate_at 1000 800 content))))
               (record_call rt (EvFetchPage url) w)) in *.
  assert (Hw2 : forall file, only_calls (step_call file) w w2)
    by (intros file; unfold w2; stopped).
  destruct (generateAudio_cases rt summary env w2)
    as [[msg Ha]|[key [Hkey [Hne [[msg Ha]|[response [Ha [Hpost [Hok Hbytes]]]]]]]]];
    rewrite Ha.
  { left. do 2 eexists. split; [reflexivity|]. apply Hw2. }
  { left. do 2 eexists. split; [reflexivity|].
    apply only_calls_call; [apply Hw2|reflexivity]. }
  cbv beta iota zeta.
  destruct (len (resp_bytes response) =? 0) eqn:Eb;
    [apply Z.eqb_eq in Eb; contradiction|].
  cbv beta iota zeta.
  destruct (AUDIO_BUCKET env) as [put_fault|] eqn:Hbucket.
  2:{ left. do 2 eexists. split; [reflexivity|].
      apply only_calls_call; [apply Hw2|reflexivity]. }
  destruct (base_generateCacheKey rt) as [this_generateCacheKey|] eqn:Hbase.
  2:{ left. do 2 eexists. split; [reflexivity|].
      apply only_calls_call; [apply Hw2|reflexivity]. }
  cbv beta iota zeta delta [bind ret].
  rewrite bucket_put_run. subst file0.
  destruct (put_fault (audio_file_name (this_generateCacheKey url)))
    as [msg|] eqn:Hput.
  { left. do 2 eexists. split; [reflexivity|].
    apply only_calls_call;
      [apply only_calls_call; [apply Hw2|reflexivity]
      |cbn [step_call]; rewrite eqs_refl; reflexivity]. }
  right.
  exists this_generateCacheKey, content, summary, key, response, put_fault, w2.
  cbv beta iota zeta.
  rewrite !save_if_bound_run. cbn [snd].
  split; [reflexivity|].
  split; [reflexivity|].
  split; [apply Hw2|]. split; [reflexivity|].
  repeat (split; [first [assumption|reflexivity]|]).
  first [assumption|reflexivity].
Qed.

(** [PodcastWorkflow.run] is the lookup, then either the cached record,
    when it names an audio file, or the fresh run with its exception
    turned into a failure result. *)
Lemma PodcastWorkflow_run_run (rt : Runtime) (url : jsstring)
      (userId : option jsstring) (env : Env) (w : World) :
  PodcastWorkflow_run rt url userId env w =
  match cache_lookup env url w with
  | Some c =>
      if 0 <? len (v_audioFileName c) then
        (Ok (GenSuccess (set_audioUrl c (v_audioUrl c) (Some true))),
         checked rt env url w)
      else
        match workflow_fresh rt url userId env (checked rt env url w) with
        | (Ok result, w') => (Ok result, w')
        | (Throw message, w') => (Ok (failure_of message), w')
        end
  | None =>
      match workflow_fresh rt url userId env (checked rt env url w) with
      | (Ok result, w') => (Ok result, w')
      | (Throw message, w') => (Ok (failure_of message), w')
      end
  end.
Proof.
  rewrite checked_world. unfold cache_lookup.
  cbv beta iota zeta delta [PodcastWorkflow_run step_do try_catch bind ret].
  rewrite init_if_bound_run. cbv beta iota zeta.
  rewrite check_database_run.
  destruct (PODCAST_DB env) as [db|]; cbv beta iota zeta.
  - destruct (select_fault db url); cbv beta iota zeta.
    + destruct (workflow_fresh rt url userId env _)
        as [[result|message] w']; reflexivity.
    + cbn [podcasts record_call].
      destruct (find (fun r => eqs (row_url r) url) (podcasts w)) as [row|];
        cbn [option_map]; cbv beta iota zeta.
      * destruct (0 <? len (v_audioFileName (view_of_row row)));
          [reflexivity|].
        destruct (workflow_fresh rt url userId env _)
          as [[result|message] w']; reflexivity.
      * destruct (workflow_fresh rt url userId env _)
          as [[result|message] w']; reflexivity.
  - destruct (workflow_fresh rt url userId env w)
      as [[result|message] w']; reflexivity.
Qed.

(** ** The discipline of saving *)

Lemma only_calls_weaken (a b : Event -> bool) (w w' : World) :
  (forall e, a e = true -> b e = true) ->
  only_calls a w w' -> only_calls b w w'.
Proof.
  intros Hab [Hu [calls [Ht Hall]]]. split; [exact Hu|].
  exists calls. split; [exact Ht|].
  rewrite forallb_forall in *. intros e He. apply Hab, Hall, He.
Qed.

Lemma lookup_call_harmless (e : Event) :
  lookup_call e = true -> harmless e = true.
Proof. destruct e; intros H; first [reflexivity|discriminate]. Qed.

Lemma step_call_harmless (file : jsstring) (e : Event) :
  step_call file e = true -> harmless e = true.
Proof. destruct e; intros H; first [reflexivity|discriminate]. Qed.

Lemma harmless_not_insert (calls : list Event) (d : PodcastData) :
  forallb harmless calls = true -> ~ In (EvDbInsertPodcast d) calls.
Proof.
  rewrite forallb_forall. intros H Hin. apply H in Hin. discriminate.
Qed.

Lemma harmless_not_log (calls : list Event) (entry : LogEntry) :
  forallb harmless calls = true -> ~ In (EvDbInsertLog entry) calls.
Proof.
  rewrite forallb_forall. intros H Hin. apply H in Hin. discriminate.
Qed.

(** A run that made harmless calls only and wrote nothing keeps the
    discipline, whatever it returns. *)
Lemma discipline_quiet (rt : Runtime) (env : Env) (w w' : World)
      (result : GenResult) :
  only_calls harmless w w' ->
  record_discipline rt env w (Ok result, w').
Proof.
  intros [[H1 [H2 [H3 H4]]] [calls [Ht Hall]]].
  exists calls. cbn [fst snd].
  split; [exact Ht|]. split; [exists result; reflexivity|].
  split; [intros d Hin; exfalso; exact (harmless_not_insert _ _ Hall Hin)|].
  split; [intros row Hin; left; rewrite <- H1; exact Hin|].
  split.
  { intros error _. split; [exact H1|]. split; [exact H4|].
    intros d. apply harmless_not_insert. exact Hall. }
  split; [exact H3|].
  intros entry. apply harmless_not_log. exact Hall.
Qed.

(** The world after the best-effort save: at most one call more, at most
    one row more, and that row is the record passed. *)
Lemma save_world (rt : Runtime) (env : Env) (d : PodcastData) (w : World) :
  let w' := snd (save_if_bound rt env d w) in
  bucket w' = bucket w /\
  processing_logs w' = processing_logs w /\
  ((trace w' = trace w /\ podcasts w' = podcasts w) \/
   (trace w' = trace w ++ [EvDbInsertPodcast d] /\
    (podcasts w' = podcasts w \/
     exists id created,
       podcasts w' = podcasts w ++ [row_of_data id created d]))).
Proof.
  rewrite save_if_bound_run. cbn [snd].
  destruct (PODCAST_DB env) as [db|]; [|repeat split; left; split; reflexivity].
  cbv zeta.
  destruct (insert_fault db d).
  { repeat split. right. split; [reflexivity|left; reflexivity]. }
  destruct (existsb (clashes d) (podcasts w)).
  { repeat split. right. split; [reflexivity|left; reflexivity]. }
  repeat split. right. split; [reflexivity|].
  right. do 2 eexists. reflexivity.
Qed.

(** A run that went through synthesis and storage and then tried the
    save keeps the discipline. *)
Lemma discipline_saved (rt : Runtime) (env : Env) (w w3 : World)
      (endpoint key text file : jsstring) (response : HttpResponse)
      (put_fault : jsstring -> option jsstring) (d : PodcastData)
      (data : PodcastView) :
  only_calls harmless w w3 ->
  http_post_tts rt endpoint key text = Responded response ->
  resp_ok response = true ->
  len (resp_bytes response) <> 0 ->
  AUDIO_BUCKET env = Some put_fault ->
  put_fault file = None ->
  pd_audioFileName d = file ->
  pd_status d = Some (str "completed") ->
  record_discipline rt env w
    (Ok (GenSuccess data),
     snd (save_if_bound rt env d
            (stored rt file (resp_bytes response)
                    (record_call rt (EvTts endpoint key text) w3)))).
Proof.
  intros [[H1 [H2 [H3 H4]]] [calls [Ht Hall]]]
         Hpost Hok Hbytes Hbucket Hput Hfile Hstatus.
  set (audio := resp_bytes response) in *.
  set (w5 := stored rt file audio (record_call rt (EvTts endpoint key text) w3)).
  assert (Ht5 : trace w5 = trace w ++ calls
                              ++ [EvTts endpoint key text; EvBucketPut file audio]).
  { unfold w5, stored. cbn [trace set_bucket record_call].
    rewrite Ht, <- !app_assoc. reflexivity. }
  assert (Hp5 : podcasts w5 = podcasts w) by exact H1.
  assert (Hl5 : processing_logs w5 = processing_logs w) by exact H3.
  assert (Hin5 : In (file, audio) (bucket w5)) by (left; reflexivity).
  pose proof (save_world rt env d w5) as Hsave. cbv zeta in Hsave.
  revert Hsave. generalize (snd (save_if_bound rt env d w5)). clearbody w5.
  intros w6 [Hb [Hl Hcases]].
  assert (Hpre : forallb harmless
                   (calls ++ [EvTts endpoint key text; EvBucketPut file audio])
                 = true)
    by (rewrite forallb_app, Hall; reflexivity).
  unfold record_discipline. cbn [fst snd].
  destruct Hcases as [[Htr Hrows]|[Htr Hrows]].
  - exists (calls ++ [EvTts endpoint key text; EvBucketPut file audio]).
    split; [rewrite Htr; exact Ht5|].
    split; [eexists; reflexivity|].
    split; [intros d' Hin; exfalso; exact (harmless_not_insert _ _ Hpre Hin)|].
    split; [intros row Hin; left; rewrite <- Hp5, <- Hrows; exact Hin|].
    split; [intros error [=]|].
    split; [rewrite Hl; exact Hl5|].
    intros entry. apply harmless_not_log. exact Hpre.
  - exists (calls ++ [EvTts endpoint key text; EvBucketPut file audio;
                      EvDbInsertPodcast d]).
    assert (Hlast : forall e,
               In e (calls ++ [EvTts endpoint key text; EvBucketPut file audio;
                               EvDbInsertPodcast d]) ->
               harmless e = true \/ e = EvDbInsertPodcast d).
    { intros e Hin. apply in_app_or in Hin as [Hin|Hin].
      - left. rewrite forallb_forall in Hall. apply Hall. exact Hin.
      - destruct Hin as [<-|[<-|[<-|[]]]];
          [left; reflexivity|left; reflexivity|right; reflexivity]. }
    split.
    { rewrite Htr, Ht5, <- !app_assoc. reflexivity. }
    split; [eexists; reflexivity|].
    split.
    { intros d' Hin. apply Hlast in Hin as [Hin|Hin]; [discriminate|].
      injection Hin as ->. split; [exact Hstatus|].
      exists calls, endpoint, key, text, response, put_fault.
      rewrite Hfile. fold audio.
      split; [reflexivity|]. split; [exact Hall|].
      split; [exact Hpost|]. split; [exact Hok|]. split; [exact Hbytes|].
      split; [exact Hbucket|]. split; [exact Hput|].
      rewrite Hb. exact Hin5. }
    split.
    { intros row Hin. destruct Hrows as [Hrows|[id [created Hrows]]].
      - left. rewrite <- Hp5, <- Hrows. exact Hin.
      - rewrite Hrows, Hp5 in Hin. apply in_app_or in Hin as [Hin|Hin].
        + left. exact Hin.
        + destruct Hin as [<-|[]]. right. split.
          * cbn [row_status row_of_data]. rewrite Hstatus. reflexivity.
          * exists d, id, created. split; [|reflexivity].
            apply in_or_app. right. right. right. left. reflexivity. }
    split; [intros error [=]|].
    split; [rewrite Hl; exact Hl5|].
    intros entry Hin. apply Hlast in Hin as [Hin|Hin]; discriminate.
Qed.

Lemma checked_harmless (rt : Runtime) (env : Env) (url : jsstring) (w : World) :
  only_calls harmless w (checked rt env url w).
Proof.
  apply (only_calls_weaken lookup_call); [exact lookup_call_harmless|].
  apply checked_only_calls.
Qed.

Lemma after_checked_harmless (rt : Runtime) (env : Env) (url file : jsstring)
      (w w' : World) :
  only_calls (step_call file) (checked rt env url w) w' ->
  only_calls harmless w w'.
Proof.
  intros H. apply (only_calls_trans harmless w (checked rt env url w) w').
  - apply checked_harmless.
  - apply (only_calls_weaken (step_call file));
      [exact (step_call_harmless file)|exact H].
Qed.

Lemma sync_discipline (rt : Runtime) (url userId : jsstring) (env : Env)
      (origin : jsstring) (w : World) :
  record_discipline rt env w (generatePodcastSync rt url userId env origin w).
Proof.
  rewrite generatePodcastSync_run.
  destruct (cache_lookup env url w) as [cachedData|].
  { apply discipline_quiet, checked_harmless. }
  destruct (generate_fresh_shape rt (clock w) url userId env origin
              (checked rt env url w))
    as [[message [w' [Hrun Hcalls]]]
       |[content [summary [key [response [put_fault [w3 Hfresh]]]]]]].
  - rewrite Hrun. apply discipline_quiet.
    apply (after_checked_harmless rt env url _ w w' Hcalls).
  - cbv zeta in Hfresh.
    destruct Hfresh as [Hrun [Hcalls [_ [_ [_ [_ [_ [_ [Hpost [Hok
                         [Hbytes [Hbucket Hput]]]]]]]]]]]].
    rewrite Hrun.
    apply discipline_saved with (put_fault := put_fault);
      try assumption; try reflexivity.
    apply (after_checked_harmless rt env url _ w w3 Hcalls).
Qed.

Lemma workflow_discipline (rt : Runtime) (url : jsstring)
      (userId : option jsstring) (env : Env) (w : World) :
  record_discipline rt env w (PodcastWorkflow_run rt url userId env w).
Proof.
  rewrite PodcastWorkflow_run_run.
  assert (Hfresh :
            record_discipline rt env w
              match workflow_fresh rt url userId env (checked rt env url w) with
              | (Ok result, w') => (Ok result, w')
              | (Throw message, w') => (Ok (failure_of message), w')
              end).
  { destruct (workflow_fresh_shape rt url userId env (checked rt env url w))
      as [[message [w' [Hrun Hcalls]]]
         |[this_generateCacheKey [content [summary [key [response
            [put_fault [w3 Hfresh]]]]]]]].
    - rewrite Hrun. apply discipline_quiet.
      apply (after_checked_harmless rt env url _ w w' Hcalls).
    - cbv zeta in Hfresh.
      destruct Hfresh as [Hrun [_ [Hcalls [_ [_ [_ [_ [_ [_ [Hpost [Hok
                           [Hbytes [Hbucket Hput]]]]]]]]]]]]].
      rewrite Hrun.
      apply discipline_saved with (put_fault := put_fault);
        try assumption; try reflexivity.
      apply (after_checked_harmless rt env url _ w w3 Hcalls). }
  destruct (cache_lookup env url w) as [c|]; [|exact Hfresh].
  destruct (0 <? len (v_audioFileName c)); [|exact Hfresh].
  apply discipline_quiet, checked_harmless.
Qed.

(** What a call of [logProcessingError] would leave behind: one call in
    the trace and, unless the insert fails, one entry in the log. *)
Lemma logProcessingError_writes (rt : Runtime) (db : D1) (entry : LogEntry)
      (w : World) :
  let w' := snd (logProcessingError rt db entry w) in
  trace w' = trace w ++ [EvDbInsertLog entry] /\
  (log_fault db entry = None ->
   processing_logs w' = processing_logs w ++ [entry]).
Proof.
  cbv beta iota zeta delta [logProcessingError try_catch bind emit throw ret].
  destruct (log_fault db entry); cbn [snd]; split;
    try reflexivity; discriminate.
Qed.

(** On the sample bindings the workflow gets as far as the step that
    stores the audio, which throws: the class has no [generateCacheKey]. *)
Example workflow_store_step_throws :
  let run := PodcastWorkflow_run (sample_runtime sample_page sample_audio)
               story_url None (sample_env false sample_script) empty_world in
  fst run = Ok (GenFailure (str "Failed to store audio: this.generateCacheKey is not a function")) /\
  podcasts (snd run) = [] /\ bucket (snd run) = [] /\
  map is_pipeline_call (trace (snd run)) = [false; false; true; true; true].
Proof. vm_compute. repeat split. Qed.

Lemma steps_exclusive (rt : Runtime) (env : Env) (url : jsstring)
      (file : option jsstring) (w0 : World) :
  steps_succeed rt env url file w0 -> step_fails rt env url file w0 -> False.
Proof.
  intros (content & summary & audio & w1 & w2 & w3 & put_fault & name
          & Hs & Hsum & Ha & Hbucket & Hfile & Hput).
  intros [(m & w1' & H)|(content' & w1' & Hs' & H)]; [congruence|].
  rewrite Hs in Hs'. injection Hs' as <- <-.
  destruct H as [(m & w2' & H)|(summary' & w2' & Hsum' & H)]; [congruence|].
  rewrite Hsum in Hsum'. injection Hsum' as <- <-.
  destruct H as [(m & w3' & H)|(audio' & w3' & Ha' & H)]; [congruence|].
  rewrite Ha in Ha'. injection Ha' as <- <-.
  destruct H as [H|[H|(put_fault' & name' & m & Hbucket' & Hfile' & Hput')]];
    [congruence|congruence|].
  rewrite Hbucket in Hbucket'. injection Hbucket' as <-.
  rewrite Hfile in Hfile'. injection Hfile' as <-.
  congruence.
Qed.

(** After a miss [generatePodcastSync] reports a failure, or all four
    steps succeeded and it reports success. *)
Lemma sync_miss_outcome (rt : Runtime) (url userId : jsstring) (env : Env)
      (origin : jsstring) (w : World) :
  cache_lookup env url w = None ->
  let run := generatePodcastSync rt url userId env origin w in
  (exists error, fst run = Ok (GenFailure error)) \/
  ((exists data, fst run = Ok (GenSuccess data)) /\
   steps_succeed rt env url (sync_file url) (checked rt env url w)).
Proof.
  intros Hmiss. cbv zeta. rewrite generatePodcastSync_run, Hmiss.
  destruct (generate_fresh_shape rt (clock w) url userId env origin
              (checked rt env url w))
    as [[message [w' [Hrun _]]]
       |[content [summary [key [response [put_fault [w3 Hfresh]]]]]]].
  { rewrite Hrun. left. eexists. reflexivity. }
  cbv zeta in Hfresh.
  destruct Hfresh as [Hrun [_ [Hs [Hsum [Ha [_ [_ [_ [_ [_ [_ [Hbucket Hput]]]]]]]]]]]].
  rewrite Hrun. right. split; [eexists; reflexivity|].
  exists content, summary, (resp_bytes response).
  do 3 eexists. exists put_fault, (audio_file_name (generateCacheKey url)).
  split; [exact Hs|]. split; [exact Hsum|]. split; [exact Ha|].
  split; [exact Hbucket|]. split; [reflexivity|].
  rewrite bucket_put_run, Hput. reflexivity.
Qed.

(** The same for [PodcastWorkflow.run] when it goes through its steps. *)
Lemma workflow_miss_outcome (rt : Runtime) (url : jsstring)
      (userId : option jsstring) (env : Env) (w : World) :
  workflow_generates env url w ->
  let run := PodcastWorkflow_run rt url userId env w in
  (exists error, fst run = Ok (GenFailure error)) \/
  ((exists data, fst run = Ok (GenSuccess data)) /\
   steps_succeed rt env url (workflow_file rt url) (checked rt env url w)).
Proof.
  intros Hgen. cbv zeta. rewrite PodcastWorkflow_run_run.
  assert (Hfresh :
            let run :=
              match workflow_fresh rt url userId env (checked rt env url w) with
              | (Ok result, w') => (Ok result, w')
              | (Throw message, w') => (Ok (failure_of message), w')
              end in
            (exists error, fst run = Ok (GenFailure error)) \/
            ((exists data, fst run = Ok (GenSuccess data)) /\
             steps_succeed rt env url (workflow_file rt url)
                           (checked rt env url w))).
  { cbv zeta.
    destruct (workflow_fresh_shape rt url userId env (checked rt env url w))
      as [[message [w' [Hrun _]]]
         |[this [content [summary [key [response [put_fault [w3 Hs]]]]]]]].
    { rewrite Hrun. left. eexists. reflexivity. }
    cbv zeta in Hs.
    destruct Hs as [Hrun [Hbase [_ [Hs [Hsum [Ha [_ [_ [_ [_ [_ [_ [Hbucket Hput]]]]]]]]]]]]].
    rewrite Hrun. right. split; [eexists; reflexivity|].
    exists content, summary, (resp_bytes response).
    do 3 eexists. exists put_fault, (audio_file_name (this url)).
    split; [exact Hs|]. split; [exact Hsum|]. split; [exact Ha|].
    split; [exact Hbucket|].
    split; [unfold workflow_file; rewrite Hbase; reflexivity|].
    rewrite bucket_put_run, Hput. reflexivity. }
  unfold workflow_generates in Hgen.
  destruct (cache_lookup env url w) as [c|]; [|exact Hfresh].
  destruct (0 <? len (v_audioFileName c)) eqn:E; [|exact Hfresh].
  apply Z.ltb_lt in E. lia.
Qed.

(** C3, amended.  In every run of [generatePodcastSync] and of
    [PodcastWorkflow.run]: a record is passed to the store only as the
    last call, right after a speech request answered with audio and a
    write of that audio to the bucket that succeeded, and it is marked
    completed; every new row is such a record; a failure result comes
    with table and bucket unchanged and no save attempted; and whatever
    the outcome no entry is written to the processing log.  When the
    lookup finds the record, [generatePodcastSync] returns it, and so
    does the workflow when the record names its file.  Otherwise the run
    goes through the steps: when extraction, summarisation, synthesis or
    the write of the audio object fails, the earlier ones having
    succeeded, the run returns a failure result, and a run that returns
    success is one in which all four succeeded. *)
Theorem record_creation_invariant
        (rt : Runtime) (env : Env) (url userId : jsstring)
        (workflowUser : option jsstring) (origin : jsstring) (w : World) :
  let sync := generatePodcastSync rt url userId env origin w in
  let flow := PodcastWorkflow_run rt url workflowUser env w in
  let w0 := checked rt env url w in
  record_discipline rt env w sync /\
  record_discipline rt env w flow /\
  (forall c, cache_lookup env url w = Some c ->
             fst sync = Ok (GenSuccess (cached_view origin c))) /\
  (cache_lookup env url w = None ->
   (step_fails rt env url (sync_file url) w0 ->
    exists error, fst sync = Ok (GenFailure error)) /\
   (forall data, fst sync = Ok (GenSuccess data) ->
                 steps_succeed rt env url (sync_file url) w0)) /\
  (forall c, cache_lookup env url w = Some c ->
             0 < len (v_audioFileName c) ->
             fst flow
             = Ok (GenSuccess (set_audioUrl c (v_audioUrl c) (Some true)))) /\
  (workflow_generates env url w ->
   (step_fails rt env url (workflow_file rt url) w0 ->
    exists error, fst flow = Ok (GenFailure error)) /\
   (forall data, fst flow = Ok (GenSuccess data) ->
                 steps_succeed rt env url (workflow_file rt url) w0)) /\
  (forall data,
      fst (generatePodcastSync rt url userId env origin w)
      = Ok (GenSuccess data) ->
      v_cached data = Some true \/
      exists content summary audio w1 w2 w3 put_fault,
        scrapeWebpage rt url (checked rt env url w) = (Ok content, w1) /\
        summarizeArticle rt (AI env) (truncate_at 1000 800 content) w1
        = (Ok summary, w2) /\
        generateAudio rt summary env w2 = (Ok audio, w3) /\
        AUDIO_BUCKET env = Some put_fault /\
        fst (bucket_put rt put_fault
                        (audio_file_name (generateCacheKey url)) audio w3)
        = Ok tt).
Proof.
  intros sync flow w0.
  split; [apply sync_discipline|]. split; [apply workflow_discipline|].
  split.
  { intros c Hhit. unfold sync. rewrite generatePodcastSync_run, Hhit.
    reflexivity. }
  split.
  { intros Hmiss.
    pose proof (sync_miss_outcome rt url userId env origin w Hmiss) as Hout.
    cbv zeta in Hout. fold sync in Hout. fold w0 in Hout.
    split.
    - intros Hfails. destruct Hout as [Hfail|[_ Hok]]; [exact Hfail|].
      destruct (steps_exclusive _ _ _ _ _ Hok Hfails).
    - intros data Hdata. destruct Hout as [[error Hfail]|[_ Hok]];
        [congruence|exact Hok]. }
  split.
  { intros c Hhit Hname. unfold flow.
    rewrite PodcastWorkflow_run_run, Hhit.
    apply Z.ltb_lt in Hname. rewrite Hname. reflexivity. }
  split.
  { intros Hgen.
    pose proof (workflow_miss_outcome rt url workflowUser env w Hgen) as Hout.
    cbv zeta in Hout. fold flow in Hout. fold w0 in Hout.
    split.
    - intros Hfails. destruct Hout as [Hfail|[_ Hok]]; [exact Hfail|].
      destruct (steps_exclusive _ _ _ _ _ Hok Hfails).
    - intros data Hdata. destruct Hout as [[error Hfail]|[_ Hok]];
        [congruence|exact Hok]. }
  intros data. rewrite generatePodcastSync_run.
  destruct (cache_lookup env url w) as [cachedData|].
  { cbn [fst]. intros [= <-]. left. reflexivity. }
  destruct (generate_fresh_shape rt (clock w) url userId env origin
              (checked rt env url w))
    as [[message [w' [Hrun _]]]
       |[content [summary [key [response [put_fault [w3 Hfresh]]]]]]].
  { rewrite Hrun. cbn [fst]. discriminate. }
  cbv zeta in Hfresh.
  destruct Hfresh as [_ [_ [Hs [Hsum [Ha [_ [_ [_ [_ [_ [_ [Hbucket Hput]]]]]]]]]]]].
  intros _. right.
  exists content, summary, (resp_bytes response).
  do 3 eexists. exists put_fault.
  split; [exact Hs|]. split; [exact Hsum|]. split; [exact Ha|].
  split; [exact Hbucket|].
  rewrite bucket_put_run, Hput. reflexivity.
Qed.

(** A run that fails at extraction: the page is too short.  The caller
    gets a failure result and nothing is saved, but no entry reaches the
    processing log, and no call to write one is made. *)
Lemma failed_run_writes_no_log_entry :
  let run := generatePodcastSync (sample_runtime (sample_text 10 10) sample_audio)
               story_url sample_user (sample_env false sample_script)
               sample_origin empty_world in
  fst run = Ok (GenFailure (str "Failed to scrape webpage: Failed to scrape webpage: Webpage returned empty or insufficient content")) /\
  podcasts (snd run) = [] /\
  processing_logs (snd run) = [] /\
  existsb is_log_insert (trace (snd run)) = false.
Proof. vm_compute. repeat split. Qed.

Lemma record_creation_invariant_witness :
  let good := sample_runtime sample_page sample_audio in
  let short := sample_runtime (sample_text 10 10) sample_audio in
  let env := sample_env false sample_script in
  record_discipline good env empty_world
    (generatePodcastSync good story_url sample_user env sample_origin
                         empty_world) /\
  (exists error,
      fst (generatePodcastSync short story_url sample_user env sample_origin
                               empty_world)
      = Ok (GenFailure error)) /\
  (exists error,
      fst (PodcastWorkflow_run short story_url None env empty_world)
      = Ok (GenFailure error)) /\
  steps_succeed good env story_url (sync_file story_url)
                (checked good env story_url empty_world).
Proof.
  intros good short env.
  pose proof (record_creation_invariant good env story_url sample_user None
                sample_origin empty_world) as Hgood.
  pose proof (record_creation_invariant short env story_url sample_user None
                sample_origin empty_world) as Hshort.
  cbv zeta in Hgood, Hshort.
  destruct Hgood as (Hrecord & _ & _ & Hmiss & _).
  destruct Hshort as (_ & _ & _ & Hsync & _ & Hflow & _).
  assert (Hfails : forall file,
             step_fails short env story_url file
                        (checked short env story_url empty_world)).
  { intros file. left. do 2 eexists. vm_compute. reflexivity. }
  split; [exact Hrecord|].
  split; [apply (proj1 (Hsync eq_refl)), Hfails|].
  split; [apply (proj1 (Hflow I)), Hfails|].
  assert (Hrun : exists data,
             fst (generatePodcastSync good story_url sample_user env
                                      sample_origin empty_world)
             = Ok (GenSuccess data))
    by (vm_compute; eexists; reflexivity).
  destruct Hrun as [data Hrun].
  exact (proj2 (Hmiss eq_refl) data Hrun).
Defined.

Example fresh_run_saves_completed_record :
  let run := generatePodcastSync (sample_runtime sample_page sample_audio)
               story_url sample_user (sample_env false sample_script)
               sample_origin empty_world in
  map row_status (podcasts (snd run)) = [Some (str "completed")] /\
  map row_audio_file_name (podcasts (snd run)) = [str "podcast_r8v9js.mp3"] /\
  map fst (bucket (snd run)) = [str "podcast_r8v9js.mp3"] /\
  map is_podcast_insert (trace (snd run))
  = [false; false; false; false; false; false; true].
Proof. vm_compute. repeat split. Qed.

(** ** The failed save *)

Lemma summarizeArticle_ok (rt : Runtime)
      (ai : option (jsstring -> jsstring -> jsstring -> AiOutcome))
      (content summary : jsstring) (w w' : World) :
  summarizeArticle rt ai content w = (Ok summary, w') ->
  50 <= len summary /\ ai <> None.
Proof.
  intros H.
  destruct (summarizeArticle_cases rt ai content w)
    as [[msg E]|[[msg E]|[s [E [Hl [Hai _]]]]]];
    rewrite E in H; try discriminate.
  injection H as <- _. split; assumption.
Qed.

Lemma generateAudio_ok (rt : Runtime) (text : jsstring) (env : Env)
      (audio : list Z) (w w' : World) :
  generateAudio rt text env w = (Ok audio, w') -> len audio <> 0.
Proof.
  intros H.
  destruct (generateAudio_cases rt text env w)
    as [[msg E]|[key [_ [_ [[msg E]|[response [E [_ [_ Hb]]]]]]]]];
    rewrite E in H; try discriminate.
  injection H as <- _. exact Hb.
Qed.

Lemma savePodcast_failed (rt : Runtime) (db : D1) (d : PodcastData)
      (error : jsstring) (w w' : World) :
  savePodcast rt db d w = (Ok (SaveFailed error), w') ->
  w' = record_call rt (EvDbInsertPodcast d) w.
Proof.
  cbv beta iota zeta delta
      [savePodcast insert_podcast try_catch bind emit throw ret].
  destruct (insert_fault db d); [intros [= _ <-]; reflexivity|].
  cbv beta iota zeta. cbn [podcasts record_call].
  destruct (existsb (clashes d) (podcasts w)); [intros [= _ <-]; reflexivity|].
  discriminate.
Qed.

(** C2, amended.  When the cache misses, extraction, summarisation,
    synthesis and the write of the audio object succeed, and
    [savePodcast] reports a failure, [generatePodcastSync] still returns
    a success with the assembled record; the table is left as it was;
    and the failure is not recorded: the processing log is unchanged and
    no call to write an entry is made. *)
Theorem swallowed_persistence_failure
        (rt : Runtime) (env : Env) (db : D1) (url userId origin : jsstring)
        (content summary : jsstring) (audio : list Z)
        (put_fault : jsstring -> option jsstring) (error : jsstring)
        (w w1 w2 w3 w4 w5 : World) :
  let file := audio_file_name (generateCacheKey url) in
  let d := assembled url (extractTitle rt url) summary file origin userId
                     (clock w4 - clock w) (len content) (len audio) in
  PODCAST_DB env = Some db ->
  cache_lookup env url w = None ->
  scrapeWebpage rt url (checked rt env url w) = (Ok content, w1) ->
  summarizeArticle rt (AI env) (truncate_at 1000 800 content) w1
  = (Ok summary, w2) ->
  generateAudio rt summary env w2 = (Ok audio, w3) ->
  AUDIO_BUCKET env = Some put_fault ->
  bucket_put rt put_fault file audio w3 = (Ok tt, w4) ->
  savePodcast rt db d w4 = (Ok (SaveFailed error), w5) ->
  generatePodcastSync rt url userId env origin w =
  (Ok (GenSuccess (view_of_data d (origin ++ str "/audio/" ++ file)
                                (clock w5) None)), w5) /\
  podcasts w5 = podcasts w /\
  processing_logs w5 = processing_logs w /\
  exists calls,
    trace w5 = trace w ++ calls /\
    In (EvDbInsertPodcast d) calls /\
    forall entry, ~ In (EvDbInsertLog entry) calls.
Proof.
  intros file d Hdb Hmiss Hs Hsum Ha Hbucket Hput Hsave.
  assert (Hrun : generatePodcastSync rt url userId env origin w =
                 (Ok (GenSuccess (view_of_data d (origin ++ str "/audio/" ++ file)
                                               (clock w5) None)), w5)).
  { rewrite generatePodcastSync_run, Hmiss.
    cbv beta iota zeta delta [generate_fresh bind try_catch throw ret Date_now].
    rewrite Hs.
    destruct (scrapeWebpage_ok rt url content _ _ Hs) as [Hlen _].
    destruct (len content <? 100) eqn:E100; [lia|].
    destruct (summarizeArticle_ok rt _ _ _ _ _ Hsum) as [Hsl Hai].
    destruct (AI env) as [run|] eqn:Eai; [|contradiction].
    rewrite Hsum.
    destruct (len summary <? 30) eqn:E30; [lia|].
    rewrite Ha. cbv beta iota zeta.
    pose proof (generateAudio_ok rt _ _ _ _ _ Ha) as Hb.
    destruct (len audio =? 0) eqn:Eb; [apply Z.eqb_eq in Eb; contradiction|].
    cbv beta iota zeta. rewrite Hbucket. fold file. rewrite Hput.
    cbv beta iota zeta delta [save_if_bound try_catch bind ret].
    rewrite Hdb. unfold d, assembled in Hsave. rewrite Hsave. reflexivity. }
  split; [exact Hrun|].
  destruct (checked_only_calls rt env url w)
    as [[Hp0 [_ [Hl0 _]]] [calls0 [Ht0 Hall0]]].
  destruct (scrapeWebpage_ok rt url content _ _ Hs) as [_ Hw1].
  assert (Hw2 : w2 = record_call rt
                       (EvAiRun llama systemPrompt
                          (userPrompt
                             (truncate_at 1000 800
                                (truncate_at 1000 800 content)))) w1).
  { destruct (summarizeArticle_cases rt (AI env)
                (truncate_at 1000 800 content) w1)
      as [[msg E]|[[msg E]|[s [E _]]]]; rewrite E in Hsum; try discriminate.
    injection Hsum as _ <-. reflexivity. }
  assert (Hw3 : exists key,
             w3 = record_call rt
                    (EvTts (tts_endpoint env) key (truncate_at 800 600 summary))
                    w2).
  { destruct (generateAudio_cases rt summary env w2)
      as [[msg Ea]|[key [_ [_ [[msg Ea]|[response [Ea _]]]]]]];
      rewrite Ea in Ha; try discriminate.
    injection Ha as _ <-. exists key. reflexivity. }
  destruct Hw3 as [key Hw3].
  assert (Hw4 : w4 = stored rt file audio w3).
  { rewrite bucket_put_run in Hput.
    destruct (put_fault file); [discriminate|]. injection Hput as <-.
    reflexivity. }
  assert (Hw5 : w5 = record_call rt (EvDbInsertPodcast d) w4)
    by (apply (savePodcast_failed rt db d error); exact Hsave).
  split; [rewrite Hw5, Hw4, Hw3, Hw2, Hw1; exact Hp0|].
  split; [rewrite Hw5, Hw4, Hw3, Hw2, Hw1; exact Hl0|].
  exists (calls0 ++
          [EvFetchPage url;
           EvAiRun llama systemPrompt
             (userPrompt (truncate_at 1000 800 (truncate_at 1000 800 content)));
           EvTts (tts_endpoint env) key (truncate_at 800 600 summary);
           EvBucketPut file audio;
           EvDbInsertPodcast d]).
  split.
  { rewrite Hw5 at 1. rewrite Hw4, Hw3, Hw2, Hw1.
    cbn [trace record_call stored set_bucket].
    rewrite Ht0, <- !app_assoc. reflexivity. }
  split; [apply in_or_app; right; do 4 right; left; reflexivity|].
  intros entry Hin. apply in_app_or in Hin as [Hin|Hin].
  - rewrite forallb_forall in Hall0. apply Hall0 in Hin. discriminate.
  - destruct Hin as [H|[H|[H|[H|[H|[]]]]]]; discriminate.
Qed.

(** A run in which every step succeeds and the insert fails: the caller
    gets the record, the save was attempted and wrote no row, and no
    entry reached the processing log. *)
Lemma failed_save_writes_no_log_entry :
  let run := generatePodcastSync (sample_runtime sample_page sample_audio)
               story_url sample_user (sample_env true sample_script)
               sample_origin empty_world in
  (exists data,
      fst run = Ok (GenSuccess data) /\
      v_status data = Some (str "completed") /\
      v_audioFileName data = str "podcast_r8v9js.mp3") /\
  existsb is_podcast_insert (trace (snd run)) = true /\
  podcasts (snd run) = [] /\
  processing_logs (snd run) = [] /\
  existsb is_log_insert (trace (snd run)) = false.
Proof.
  vm_compute. split; [eexists; repeat split|repeat split].
Qed.

Lemma swallowed_persistence_failure_witness :
  exists data w',
    generatePodcastSync (sample_runtime sample_page sample_audio)
      story_url sample_user (sample_env true sample_script)
      sample_origin empty_world
    = (Ok (GenSuccess data), w') /\
    podcasts w' = podcasts empty_world /\
    processing_logs w' = processing_logs empty_world.
Proof.
  set (rt := sample_runtime sample_page sample_audio).
  set (env := sample_env true sample_script).
  set (file := audio_file_name (generateCacheKey story_url)).
  set (w1 := snd (scrapeWebpage rt story_url
                    (checked rt env story_url empty_world))).
  set (w2 := snd (summarizeArticle rt (AI env)
                    (truncate_at 1000 800 sample_page) w1)).
  set (w3 := snd (generateAudio rt sample_script env w2)).
  set (w4 := snd (bucket_put rt (fun _ => None) file sample_audio w3)).
  set (d := assembled story_url (extractTitle rt story_url) sample_script file
                      sample_origin sample_user
                      (clock w4 - clock empty_world)
                      (len sample_page) (len sample_audio)).
  set (w5 := snd (savePodcast rt (sample_db true) d w4)).
  destruct (swallowed_persistence_failure rt env (sample_db true)
              story_url sample_user sample_origin
              sample_page sample_script sample_audio
              (fun _ => None) (str "D1_ERROR: no such table")
              empty_world w1 w2 w3 w4 w5)
    as [Hrun [Hrows [Hlogs _]]];
    try (vm_compute; reflexivity).
  eexists. exists w5. split; [exact Hrun|]. split; [exact Hrows|exact Hlogs].
Defined.

(** ** The name of the audio object *)

Lemma sync_call_put (file name : jsstring) (bytes : list Z)
      (calls : list Event) :
  forallb (sync_call file) calls = true ->
  In (EvBucketPut name bytes) calls -> name = file.
Proof.
  rewrite forallb_forall. intros H Hin. apply H in Hin.
  apply eqs_true. exact Hin.
Qed.

Lemma sync_call_harmless (file : jsstring) (e : Event) :
  sync_call file e = true -> harmless e = true.
Proof. destruct e; intros H; first [reflexivity|discriminate]. Qed.

Lemma checked_then_steps (rt : Runtime) (env : Env) (url file : jsstring)
      (w w' : World) :
  only_calls (step_call file) (checked rt env url w) w' ->
  only_calls (sync_call file) w w'.
Proof.
  intros H. apply (only_calls_trans _ w (checked rt env url w) w').
  - apply (only_calls_weaken lookup_call);
      [intros e He; unfold sync_call; rewrite He; reflexivity|].
    apply checked_only_calls.
  - apply (only_calls_weaken (step_call file));
      [intros e He; unfold sync_call; rewrite He; apply orb_true_r|exact H].
Qed.

Lemma key_quiet (file key : jsstring) (w w' : World) (result : GenResult) :
  only_calls (sync_call file) w w' ->
  (forall data, result = GenSuccess data -> v_cached data <> None) ->
  key_discipline file key w (Ok result, w').
Proof.
  intros [[H1 [H2 [H3 H4]]] [calls [Ht Hall]]] Hres.
  assert (Hh : forallb harmless calls = true).
  { rewrite forallb_forall in *. intros e He.
    apply (sync_call_harmless file), Hall, He. }
  exists calls. cbn [fst snd].
  split; [exact Ht|].
  split; [intros name bytes; apply sync_call_put; exact Hall|].
  split; [intros d Hin; exfalso; exact (harmless_not_insert _ _ Hh Hin)|].
  split; [intros row Hin; left; rewrite <- H1; exact Hin|].
  intros data [= ->] Hc. exfalso. exact (Hres data eq_refl Hc).
Qed.

Lemma key_saved (rt : Runtime) (env : Env) (w w3 : World)
      (endpoint apiKey text file : jsstring) (audio : list Z)
      (d : PodcastData) (audioUrl : jsstring) (createdAt : Z) :
  only_calls (sync_call file) w w3 ->
  pd_audioFileName d = file ->
  key_discipline file (pd_cacheKey d) w
    (Ok (GenSuccess (view_of_data d audioUrl createdAt None)),
     snd (save_if_bound rt env d
            (stored rt file audio
                    (record_call rt (EvTts endpoint apiKey text) w3)))).
Proof.
  intros [[H1 [H2 [H3 H4]]] [calls [Ht Hall]]] Hfile.
  set (w5 := stored rt file audio (record_call rt (EvTts endpoint apiKey text) w3)).
  assert (Ht5 : trace w5 = trace w ++ calls
                              ++ [EvTts endpoint apiKey text;
                                  EvBucketPut file audio]).
  { unfold w5, stored. cbn [trace set_bucket record_call].
    rewrite Ht, <- !app_assoc. reflexivity. }
  assert (Hp5 : podcasts w5 = podcasts w) by exact H1.
  assert (Hin5 : In (file, audio) (bucket w5)) by (left; reflexivity).
  pose proof (save_world rt env d w5) as Hsave. cbv zeta in Hsave.
  revert Hsave. generalize (snd (save_if_bound rt env d w5)). clearbody w5.
  intros w6 [Hb [_ Hcases]].
  assert (Hputs : forall tail name bytes,
             (forall e, In e tail -> e = EvDbInsertPodcast d) ->
             In (EvBucketPut name bytes)
                (calls ++ [EvTts endpoint apiKey text; EvBucketPut file audio]
                       ++ tail) ->
             name = file).
  { intros tail name bytes Htail Hin. apply in_app_or in Hin as [Hin|Hin].
    - exact (sync_call_put file name bytes calls Hall Hin).
    - destruct Hin as [Hin|[Hin|Hin]]; [discriminate| |].
      + injection Hin as <- _. reflexivity.
      + apply Htail in Hin. discriminate. }
  assert (Hins : forall tail d',
             (forall e, In e tail -> e = EvDbInsertPodcast d) ->
             In (EvDbInsertPodcast d')
                (calls ++ [EvTts endpoint apiKey text; EvBucketPut file audio]
                       ++ tail) ->
             d' = d).
  { intros tail d' Htail Hin. apply in_app_or in Hin as [Hin|Hin].
    - rewrite forallb_forall in Hall. apply Hall in Hin. discriminate.
    - destruct Hin as [Hin|[Hin|Hin]]; [discriminate|discriminate|].
      apply Htail in Hin. injection Hin as ->. reflexivity. }
  unfold key_discipline. cbn [fst snd].
  destruct Hcases as [[Htr Hrows]|[Htr Hrows]].
  - exists (calls ++ [EvTts endpoint apiKey text; EvBucketPut file audio] ++ []).
    split; [rewrite Htr, Ht5, app_nil_r; reflexivity|].
    split; [intros name bytes; apply Hputs; intros e []|].
    split.
    { intros d' Hin. apply Hins in Hin; [|intros e []]. subst d'.
      split; [exact Hfile|reflexivity]. }
    split; [intros row Hin; left; rewrite <- Hp5, <- Hrows; exact Hin|].
    intros data [= <-] _. cbn [v_audioFileName v_cacheKey view_of_data].
    split; [exact Hfile|]. split; [reflexivity|].
    exists audio. split; [|rewrite Hb; exact Hin5].
    apply in_or_app. right. right. left. reflexivity.
  - exists (calls ++ [EvTts endpoint apiKey text; EvBucketPut file audio]
                  ++ [EvDbInsertPodcast d]).
    assert (Htail : forall e, In e [EvDbInsertPodcast d] ->
                              e = EvDbInsertPodcast d)
      by (intros e [<-|[]]; reflexivity).
    split; [rewrite Htr, Ht5, <- !app_assoc; reflexivity|].
    split; [intros name bytes; apply Hputs; exact Htail|].
    split.
    { intros d' Hin. apply Hins in Hin; [|exact Htail]. subst d'.
      split; [exact Hfile|reflexivity]. }
    split.
    { intros row Hin. destruct Hrows as [Hrows|[id [created Hrows]]].
      - left. rewrite <- Hp5, <- Hrows. exact Hin.
      - rewrite Hrows, Hp5 in Hin. apply in_app_or in Hin as [Hin|Hin].
        + left. exact Hin.
        + destruct Hin as [<-|[]]. right.
          cbn [row_audio_file_name row_cache_key row_of_data].
          split; [exact Hfile|reflexivity]. }
    intros data [= <-] _. cbn [v_audioFileName v_cacheKey view_of_data].
    split; [exact Hfile|]. split; [reflexivity|].
    exists audio. split; [|rewrite Hb; exact Hin5].
    apply in_or_app. right. right. left. reflexivity.
Qed.

Lemma sync_key_discipline (rt : Runtime) (url userId : jsstring) (env : Env)
      (origin : jsstring) (w : World) :
  key_discipline (audio_file_name (generateCacheKey url))
                 (generateCacheKey url) w
                 (generatePodcastSync rt url userId env origin w).
Proof.
  rewrite generatePodcastSync_run.
  destruct (cache_lookup env url w) as [cachedData|].
  { apply key_quiet.
    - apply (only_calls_weaken lookup_call);
        [intros e He; unfold sync_call; rewrite He; reflexivity|].
      apply checked_only_calls.
    - intros data [= <-]. discriminate. }
  destruct (generate_fresh_shape rt (clock w) url userId env origin
              (checked rt env url w))
    as [[message [w' [Hrun Hcalls]]]
       |[content [summary [key [response [put_fault [w3 Hfresh]]]]]]].
  - rewrite Hrun. apply key_quiet.
    + apply (checked_then_steps rt env url _ w w' Hcalls).
    + intros data. discriminate.
  - cbv zeta in Hfresh. destruct Hfresh as [Hrun [Hcalls _]].
    rewrite Hrun.
    apply (key_saved rt env w w3 _ _ _
             (audio_file_name (generateCacheKey url))
             (resp_bytes response)
             (assembled url (extractTitle rt url) summary
                        (audio_file_name (generateCacheKey url)) origin userId
                        _ (len content) (len (resp_bytes response)))).
    + apply (checked_then_steps rt env url _ w w3 Hcalls).
    + reflexivity.
Qed.

(** C10.  In every run of [generatePodcastSync] for a URL, the audio
    object is written under "podcast_" + [generateCacheKey(url)] +
    ".mp3" and under no other name; the record passed to the store and
    the row it becomes carry that file name and that cache key.  When the
    lookup of the URL finds no record, a run that reports success has
    written the audio object under that name in this very run: the write
    is among its calls, the object is in the bucket under the name, and
    the record returned names the file, the key and the size of the
    object, and carries no cached marker.  The name depends on the URL
    alone: two runs for the same URL, whatever their runtime, bindings,
    user, origin and starting state, write to the same name. *)
Theorem audio_object_key_deterministic
        (rt : Runtime) (url userId : jsstring) (env : Env)
        (origin : jsstring) (w : World) :
  let file := audio_file_name (generateCacheKey url) in
  let run := generatePodcastSync rt url userId env origin w in
  file = str "podcast_" ++ generateCacheKey url ++ str ".mp3" /\
  key_discipline file (generateCacheKey url) w
                 (generatePodcastSync rt url userId env origin w) /\
  (forall rt' userId' env' origin' w' calls calls' name bytes name' bytes',
      trace (snd (generatePodcastSync rt url userId env origin w))
      = trace w ++ calls ->
      trace (snd (generatePodcastSync rt' url userId' env' origin' w'))
      = trace w' ++ calls' ->
      In (EvBucketPut name bytes) calls ->
      In (EvBucketPut name' bytes') calls' ->
      name = name') /\
  (cache_lookup env url w = None ->
   forall data,
     fst run = Ok (GenSuccess data) ->
     v_cached data = None /\
     v_audioFileName data = file /\
     v_cacheKey data = Some (generateCacheKey url) /\
     v_audioUrl data = Some (origin ++ str "/audio/" ++ file) /\
     exists calls bytes,
       trace (snd run) = trace w ++ calls /\
       In (EvBucketPut file bytes) calls /\
       (forall name other, In (EvBucketPut name other) calls ->
                           name = file) /\
       In (file, bytes) (bucket (snd run)) /\
       (forall other, In (file, other) (bucket (snd run)) -> other = bytes) /\
       v_audioSizeBytes data = Some (len bytes) /\
       (forall d, In (EvDbInsertPodcast d) calls ->
                  pd_audioFileName d = file /\
                  pd_cacheKey d = generateCacheKey url)).
Proof.
  intros file run. split; [reflexivity|].
  split; [apply sync_key_discipline|].
  split.
  { intros rt' userId' env' origin' w' calls calls' name bytes name' bytes'
           Ht Ht' Hin Hin'.
    destruct (sync_key_discipline rt url userId env origin w)
      as [c [Hc [Hput _]]].
    destruct (sync_key_discipline rt' url userId' env' origin' w')
      as [c' [Hc' [Hput' _]]].
    rewrite Hc in Ht. apply app_inv_head in Ht. subst c.
    rewrite Hc' in Ht'. apply app_inv_head in Ht'. subst c'.
    rewrite (Hput name bytes Hin), (Hput' name' bytes' Hin'). reflexivity. }
  intros Hmiss data.
  pose proof (sync_key_discipline rt url userId env origin w) as Hkd.
  fold file in Hkd. fold run in Hkd.
  assert (Hrun' : run
                  = match generate_fresh rt (clock w) url userId env origin
                                         (checked rt env url w) with
                    | (Ok result, w') => (Ok result, w')
                    | (Throw message, w') => (Ok (failure_of message), w')
                    end)
    by (unfold run; rewrite generatePodcastSync_run, Hmiss; reflexivity).
  destruct (generate_fresh_shape rt (clock w) url userId env origin
              (checked rt env url w))
    as [[message [w' [Hrun _]]]
       |[content [summary [key [response [put_fault [w3 Hfresh]]]]]]].
  { rewrite Hrun', Hrun. cbn [fst]. discriminate. }
  cbv zeta in Hfresh. destruct Hfresh as [Hrun _].
  rewrite Hrun in Hrun'. fold file in Hrun'.
  set (audio := resp_bytes response) in *.
  set (w5 := stored rt file audio _) in *.
  set (d := assembled url (extractTitle rt url) summary file origin userId
                      _ (len content) (len audio)) in *.
  destruct Hkd as [calls [Ht [Hput [Hins [_ Hlast]]]]].
  rewrite Hrun' in *. cbn [fst snd] in *.
  intros H. injection H as <-.
  do 4 (split; [reflexivity|]).
  destruct (Hlast (view_of_data d (origin ++ str "/audio/" ++ file)
                     (clock (snd (save_if_bound rt env d w5))) None)
                  eq_refl eq_refl)
    as [_ [_ [bytes [Hin Hstored]]]].
  assert (Hbucket : bucket (snd (save_if_bound rt env d w5))
                    = (file, audio)
                        :: filter (fun kv => negb (eqs (fst kv) file))
                                  (bucket
                                     (record_call rt
                                        (EvTts (tts_endpoint env) key
                                               (truncate_at 800 600 summary))
                                        w3))).
  { rewrite (proj1 (save_world rt env d w5)). reflexivity. }
  assert (Hone : forall other,
             In (file, other) (bucket (snd (save_if_bound rt env d w5))) ->
             other = audio).
  { intros other. rewrite Hbucket. intros [Hother|Hother]; [congruence|].
    apply filter_In in Hother as [_ Hother]. cbn [fst] in Hother.
    rewrite eqs_refl in Hother. discriminate. }
  pose proof (Hone bytes Hstored) as Hbytes. subst bytes.
  exists calls, audio.
  split; [exact Ht|]. split; [exact Hin|]. split; [exact Hput|].
  split; [exact Hstored|]. split; [exact Hone|].
  split; [reflexivity|exact Hins].
Qed.

Lemma audio_object_key_deterministic_witness :
  let run :=
    generatePodcastSync (sample_runtime sample_page sample_audio)
      story_url sample_user (sample_env false sample_script)
      sample_origin empty_world in
  key_discipline (str "podcast_r8v9js.mp3") (str "r8v9js") empty_world run /\
  exists data bytes,
    fst run = Ok (GenSuccess data) /\
    v_audioFileName data = str "podcast_r8v9js.mp3" /\
    In (str "podcast_r8v9js.mp3", bytes) (bucket (snd run)) /\
    v_audioSizeBytes data = Some (len bytes).
Proof.
  intros run.
  pose proof (audio_object_key_deterministic
                (sample_runtime sample_page sample_audio)
                story_url sample_user
                (sample_env false sample_script)
                sample_origin empty_world) as H.
  cbv zeta in H. destruct H as [_ [Hkeys [_ Hfresh]]].
  split; [exact Hkeys|].
  assert (Hrun : exists data, fst run = Ok (GenSuccess data))
    by (vm_compute; eexists; reflexivity).
  destruct Hrun as [data Hrun].
  destruct (Hfresh eq_refl data Hrun)
    as (_ & Hname & _ & _ & calls & bytes & _ & _ & _ & Hstored & _ & Hsize & _).
  exists data, bytes. split; [exact Hrun|].
  split; [exact Hname|]. split; [exact Hstored|exact Hsize].
Defined.

(** ** The claims on concrete inputs *)

Lemma cache_key_pure_witness :
  generateCacheKey story_url = str "r8v9js" /\
  generateCacheKey [] = str "0".
Proof.
  split.
  - rewrite (proj1 (cache_key_pure story_url)). vm_compute. reflexivity.
  - rewrite (proj1 (cache_key_pure [])). vm_compute. reflexivity.
Defined.

(** A stored record for the story, saved by an earlier run. *)
Lemma cache_hit_short_circuit_witness :
  let rt := sample_runtime sample_page sample_audio in
  let env := sample_env false sample_script in
  let w := snd (generatePodcastSync rt story_url sample_user env
                                    sample_origin empty_world) in
  exists data w',
    generatePodcastSync rt story_url (str "someone-else") env
                        (str "https://other.example") w
    = (Ok (GenSuccess data), w') /\
    v_id data = Some 1 /\
    v_url data = story_url /\
    v_title data = str "Story 1" /\
    v_summary data = sample_script /\
    v_userId data = Some sample_user /\
    v_cached data = Some true /\
    v_audioUrl data
    = Some (str "https://worker.example/audio/podcast_r8v9js.mp3") /\
    trace w' = trace w ++ [EvDbExec; EvDbSelectByUrl story_url].
Proof.
  intros rt env w.
  destruct (find (fun r => eqs (row_url r) story_url) (podcasts w))
    as [row|] eqn:Hfind; [|vm_compute in Hfind; discriminate].
  pose proof Hfind as Hrow. vm_compute in Hrow. injection Hrow as <-.
  destruct (cache_hit_short_circuit rt env (sample_db false) story_url
              (str "someone-else") (str "https://other.example") w _
              eq_refl eq_refl Hfind eq_refl)
    as (data & w' & Hrun & _ & Hid & Hurl & _ & Htitle & Hsummary & _ & _
        & Huser & _ & _ & _ & _ & _ & _ & Hcached & Haudio & _ & _ & _
        & Htrace & _).
  exists data, w'. split; [exact Hrun|].
  split; [rewrite Hid; reflexivity|].
  split; [exact Hurl|].
  split; [rewrite Htitle; reflexivity|].
  split; [rewrite Hsummary; vm_compute; reflexivity|].
  split; [rewrite Huser; reflexivity|].
  split; [exact Hcached|].
  split; [rewrite Haudio; vm_compute; reflexivity|].
  exact Htrace.
Defined.

(** A page of 1200 characters with its only full stop at position 850. *)
Lemma extraction_truncation_boundary_witness :
  fst (scrapeWebpage (sample_runtime (sample_text 850 349) []) story_url
                     empty_world)
  = Ok (sample_text 850 0).
Proof.
  destruct (extraction_truncation_boundary
              (sample_runtime (sample_text 850 349) []) story_url
              (ok_response (sample_text 850 349) []) empty_world
              eq_refl eq_refl)
    as [out [Hrun [_ [Hout _]]]].
  - vm_compute. reflexivity.
  - rewrite Hrun, Hout. vm_compute. reflexivity.
Defined.

(** A body of 50 characters is refused; 100 characters of plain text are
    returned as they are. *)
Lemma minimum_content_rejection_witness :
  fst (scrapeWebpage (sample_runtime (sample_text 24 25) []) story_url
                     empty_world)
  = Throw (str "Failed to scrape webpage: Webpage returned empty or insufficient content") /\
  fst (scrapeWebpage (sample_runtime (sample_text 49 50) []) story_url
                     empty_world)
  = Ok (sample_text 49 50).
Proof.
  split.
  - apply (minimum_content_rejection
             (sample_runtime (sample_text 24 25) []) story_url
             (ok_response (sample_text 24 25) []) empty_world
             eq_refl eq_refl).
    vm_compute. reflexivity.
  - apply (minimum_content_rejection
             (sample_runtime (sample_text 49 50) []) story_url
             (ok_response (sample_text 49 50) []) empty_world
             eq_refl eq_refl); vm_compute; reflexivity.
Defined.

(** A text of 21 characters is refused without a call to the model; for
    the sample page the model's script comes back cleaned; a script that
    is too short once its preamble is gone is refused. *)
Lemma summarizer_thresholds_witness :
  summarizeArticle (sample_runtime [] []) (AI (sample_env false sample_script))
                   (sample_text 10 10) empty_world
  = (Throw (str "Content too short for summarization (minimum 100 characters)"),
     empty_world) /\
  fst (summarizeArticle (sample_runtime [] [])
         (AI (sample_env false (str "Sure! " ++ sample_script)))
         sample_page empty_world)
  = Ok sample_script /\
  fst (summarizeArticle (sample_runtime [] [])
         (AI (sample_env false (str "Here's your script: Short one.")))
         sample_page empty_world)
  = Throw (str "AI generated insufficient content: 10 characters").
Proof.
  split; [|split].
  - destruct (proj1 (summarizer_thresholds (sample_runtime [] [])
                       (AI (sample_env false sample_script))
                       (sample_text 10 10) empty_world))
      as [message [Hrun Hmsg]].
    + vm_compute. reflexivity.
    + rewrite Hrun, Hmsg by discriminate. reflexivity.
  - apply (proj2 (summarizer_thresholds (sample_runtime [] [])
                    (AI (sample_env false (str "Sure! " ++ sample_script)))
                    sample_page empty_world)
                 _ (AiObject (Some (str "Sure! " ++ sample_script)) None)
                 (str "Sure! " ++ sample_script) eq_refl);
      vm_compute; first [reflexivity|discriminate].
  - apply (proj2 (summarizer_thresholds (sample_runtime [] [])
                    (AI (sample_env false (str "Here's your script: Short one.")))
                    sample_page empty_world)
                 _ (AiObject (Some (str "Here's your script: Short one.")) None)
                 (str "Here's your script: Short one.") eq_refl);
      vm_compute; first [reflexivity|discriminate].
Defined.

(** A script of 900 characters with its only full stop at position 700
    is submitted up to that full stop; a short script goes as it is. *)
Lemma synthesis_truncation_witness :
  trace (snd (generateAudio (sample_runtime [] sample_audio)
                (sample_text 700 199) (sample_env false []) empty_world))
  = [EvTts (tts_endpoint (sample_env false [])) (str "sk-test")
           (sample_text 700 0)] /\
  trace (snd (generateAudio (sample_runtime [] sample_audio)
                sample_script (sample_env false []) empty_world))
  = [EvTts (tts_endpoint (sample_env false [])) (str "sk-test") sample_script].
Proof.
  split.
  - destruct (synthesis_truncation (sample_runtime [] sample_audio)
                (sample_text 700 199) (sample_env false []) (str "sk-test")
                empty_world eq_refl)
      as [submitted [Htrace [_ Hlong]]].
    + discriminate.
    + vm_compute. discriminate.
    + rewrite Htrace. destruct Hlong as [Hcut _]; [vm_compute; reflexivity|].
      rewrite Hcut. vm_compute. reflexivity.
  - destruct (synthesis_truncation (sample_runtime [] sample_audio)
                sample_script (sample_env false []) (str "sk-test")
                empty_world eq_refl)
      as [submitted [Htrace [Hshort _]]].
    + discriminate.
    + vm_compute. discriminate.
    + rewrite Htrace, Hshort by (vm_compute; discriminate). reflexivity.
Defined.

(** * Further properties of the code *)

(** ** The shape of a cache key *)

Lemma is_base36_digit (d : Z) : 0 <= d < 36 -> is_base36 (digit d) = true.
Proof.
  intros H. unfold digit, is_base36.
  destruct (d <? 10) eqn:E.
  - replace (48 <=? 48 + d) with true by (symmetry; apply Z.leb_le; lia).
    replace (48 + d <=? 57) with true by (symmetry; apply Z.leb_le; lia).
    reflexivity.
  - replace (97 <=? 87 + d) with true by (symmetry; apply Z.leb_le; lia).
    replace (87 + d <=? 122) with true by (symmetry; apply Z.leb_le; lia).
    apply orb_true_r.
Qed.

(** The digits written for [n]: at least one, no more than the number of
    base-[radix] places of [n], each a digit or a small letter. *)
Lemma to_radix_places (radix : Z) (fuel : nat) :
  2 <= radix <= 36 ->
  forall n acc,
    0 <= n < 2 ^ Z.of_nat fuel ->
    exists digits,
      to_radix fuel radix n acc = digits ++ acc /\
      forallb is_base36 digits = true /\
      (fuel <> O -> digits <> []) /\
      forall places, (1 <= places)%nat -> n < radix ^ Z.of_nat places ->
                     (length digits <= places)%nat.
Proof.
  intros Hr. induction fuel as [|fuel IH]; intros n acc Hn.
  - exists []. repeat split; try reflexivity; [congruence|simpl; lia].
  - simpl to_radix.
    assert (Hmod : 0 <= n mod radix < 36)
      by (pose proof (Z.mod_pos_bound n radix); lia).
    destruct (n / radix =? 0) eqn:E.
    + exists [digit (n mod radix)]. split; [reflexivity|].
      split; [simpl; rewrite is_base36_digit by exact Hmod; reflexivity|].
      split; [discriminate|]. intros places Hp _. simpl. lia.
    + assert (Hdiv : 0 <= n / radix < 2 ^ Z.of_nat fuel).
      { split; [apply Z.div_pos; lia|].
        apply Z.div_lt_upper_bound; [lia|].
        rewrite Nat2Z.inj_succ, Z.pow_succ_r in Hn by lia.
        assert (0 < 2 ^ Z.of_nat fuel) by (apply Z.pow_pos_nonneg; lia).
        nia. }
      destruct (IH (n / radix) (digit (n mod radix) :: acc) Hdiv)
        as [digits [Heq [Hall [_ Hlen]]]].
      exists (digits ++ [digit (n mod radix)]). split.
      * rewrite Heq, <- app_assoc. reflexivity.
      * split.
        { rewrite forallb_app, Hall. simpl.
          rewrite is_base36_digit by exact Hmod. reflexivity. }
        split; [destruct digits; discriminate|].
        intros places Hp Hn'. rewrite length_app. simpl.
        apply Z.eqb_neq in E.
        assert (Hge : radix <= n).
        { destruct (Z_lt_le_dec n radix) as [Hlt|Hge]; [|exact Hge].
          exfalso. apply E. apply Z.div_small. lia. }
        destruct places as [|[|places]]; [lia| |].
        { change (Z.of_nat 1) with 1 in Hn'. rewrite Z.pow_1_r in Hn'. lia. }
        specialize (Hlen (S places) ltac:(lia)).
        assert (n / radix < radix ^ Z.of_nat (S places)).
        { apply Z.div_lt_upper_bound; [lia|].
          rewrite (Nat2Z.inj_succ (S places)), Z.pow_succ_r in Hn' by lia.
          exact Hn'. }
        specialize (Hlen H). lia.
Qed.

Lemma generateCacheKey_base36 (url : jsstring) :
  1 <= len (generateCacheKey url) <= 6 /\
  forallb is_base36 (generateCacheKey url) = true.
Proof.
  assert (Hkey : generateCacheKey url
                 = toString_radix 36 (Z.abs (to_int32 (poly31 url))))
    by (unfold generateCacheKey; rewrite key_loop_closed by lia; reflexivity).
  pose proof (to_int32_range (poly31 url)) as Hrange.
  set (n := Z.abs (to_int32 (poly31 url))) in *.
  assert (Hn : 0 <= n <= 2 ^ 31) by (unfold n; lia).
  destruct (to_radix_places 36 (S (Z.to_nat (Z.log2 n))) ltac:(lia) n [])
    as [digits [Heq [Hall [Hne Hlen]]]].
  { split; [lia|].
    rewrite Nat2Z.inj_succ, Z2Nat.id by apply Z.log2_nonneg.
    destruct (Z.eq_dec n 0) as [->|Hpos]; [reflexivity|].
    apply Z.log2_spec. lia. }
  rewrite app_nil_r in Heq.
  assert (Hdigits : generateCacheKey url = digits)
    by (rewrite Hkey; exact Heq).
  rewrite Hdigits.
  assert (Hsix : (length digits <= 6)%nat).
  { apply Hlen; [lia|]. change (36 ^ Z.of_nat 6) with 2176782336.
    change (2 ^ 31) with 2147483648 in Hn. lia. }
  assert (Hone : digits <> []) by (apply Hne; discriminate).
  split; [|exact Hall].
  unfold len. destruct digits; [contradiction|]. simpl length in *. lia.
Qed.

Lemma audio_file_name_no_slash (key : jsstring) :
  forallb is_base36 key = true -> ~ In 47 (audio_file_name key).
Proof.
  intros Hall. unfold audio_file_name. intros Hin.
  apply in_app_or in Hin as [Hin|Hin].
  { revert Hin. vm_compute. intuition discriminate. }
  apply in_app_or in Hin as [Hin|Hin].
  - rewrite forallb_forall in Hall. apply Hall in Hin. discriminate.
  - revert Hin. vm_compute. intuition discriminate.
Qed.

(** X1.  A cache key has between one and six characters, each a digit or
    a small letter; so the audio file name has no slash in it. *)
Theorem cache_key_shape (url : jsstring) :
  1 <= len (generateCacheKey url) <= 6 /\
  forallb is_base36 (generateCacheKey url) = true /\
  ~ In 47 (audio_file_name (generateCacheKey url)).
Proof.
  destruct (generateCacheKey_base36 url) as [Hlen Hall].
  split; [exact Hlen|]. split; [exact Hall|].
  apply audio_file_name_no_slash. exact Hall.
Qed.

(** ** Keys that collide *)

Lemma generateCacheKey_poly (u v : jsstring) :
  poly31 u = poly31 v -> generateCacheKey u = generateCacheKey v.
Proof.
  intros H. unfold generateCacheKey.
  rewrite !key_loop_closed by lia. rewrite H. reflexivity.
Qed.

(** X2.  The key is not injective: replacing "Aa" by "BB" anywhere in a
    URL gives another URL with the same key, and so with the same audio
    file name. *)
Theorem cache_key_collisions (before after : jsstring) :
  let u := before ++ str "Aa" ++ after in
  let v := before ++ str "BB" ++ after in
  u <> v /\
  generateCacheKey u = generateCacheKey v /\
  audio_file_name (generateCacheKey u) = audio_file_name (generateCacheKey v).
Proof.
  intros u v.
  assert (Hkey : generateCacheKey u = generateCacheKey v).
  { apply generateCacheKey_poly. unfold poly31, u, v.
    rewrite !fold_left_app.
    change (str "Aa") with [65; 97]. change (str "BB") with [66; 66].
    cbn [fold_left].
    match goal with
    | |- fold_left _ _ ?a = fold_left _ _ ?b => replace a with b by lia
    end.
    reflexivity. }
  split.
  - unfold u, v. intros H. apply app_inv_head in H.
    change (str "Aa") with [65; 97] in H. change (str "BB") with [66; 66] in H.
    discriminate.
  - split; [exact Hkey|]. rewrite Hkey. reflexivity.
Qed.

(** ** Saving and looking up *)

Lemma eqs_false (a b : jsstring) : eqs a b = false -> a <> b.
Proof. unfold eqs. destruct (list_eq_dec Z.eq_dec a b); congruence. Qed.

Lemma savePodcast_run (rt : Runtime) (db : D1) (d : PodcastData) (w : World) :
  savePodcast rt db d w =
  let w1 := record_call rt (EvDbInsertPodcast d) w in
  match insert_fault db d with
  | Some msg => (Ok (SaveFailed msg), w1)
  | None =>
      if existsb (clashes d) (podcasts w)
      then (Ok (SaveFailed (str "UNIQUE constraint failed")), w1)
      else (Ok (Saved (next_podcast_id w)),
            set_tables w1
              (podcasts w ++ [row_of_data (next_podcast_id w) (clock w1) d])
              (next_podcast_id w + 1) (processing_logs w))
  end.
Proof.
  cbv beta iota zeta delta
      [savePodcast insert_podcast try_catch bind emit throw ret].
  destruct (insert_fault db d); [reflexivity|].
  cbv beta iota zeta. cbn [podcasts record_call].
  destruct (existsb (clashes d) (podcasts w)); reflexivity.
Qed.

Lemma getPodcastByUrl_run (rt : Runtime) (db : D1) (url : jsstring)
      (w : World) :
  getPodcastByUrl rt db url w =
  (Ok match select_fault db url with
      | Some msg => LookupFailed msg
      | None =>
          match find (fun r => eqs (row_url r) url) (podcasts w) with
          | Some row => Hit (view_of_row row)
          | None => Miss
          end
      end,
   record_call rt (EvDbSelectByUrl url) w).
Proof.
  cbv beta iota zeta delta
      [getPodcastByUrl select_by_url try_catch bind emit throw ret].
  destruct (select_fault db url); [reflexivity|].
  cbv beta iota zeta. cbn [podcasts record_call].
  destruct (find (fun r => eqs (row_url r) url) (podcasts w)); reflexivity.
Qed.

Lemma find_app_new {A} (f : A -> bool) (l : list A) (x : A) :
  existsb f l = false -> f x = true -> find f (l ++ [x]) = Some x.
Proof.
  induction l as [|a l IH]; simpl; intros Hl Hx.
  - rewrite Hx. reflexivity.
  - apply orb_false_iff in Hl as [Ha Hl]. rewrite Ha. apply IH; assumption.
Qed.

Lemma clashes_url (d : PodcastData) (rows : list PodcastRow) :
  existsb (clashes d) rows = false ->
  existsb (fun r => eqs (row_url r) (pd_url d)) rows = false.
Proof.
  induction rows as [|r rows IH]; simpl; intros H; [reflexivity|].
  apply orb_false_iff in H as [Hr H]. unfold clashes in Hr.
  apply orb_false_iff in Hr as [Hr _]. rewrite Hr. apply IH. exact H.
Qed.

(** X3.  A record that [savePodcast] reports as saved is the one that
    [getPodcastByUrl] then finds under its URL: same id, title, script,
    file name, audio URL and cache key, with the user and the status
    that were given or, if left out, "anonymous" and "completed". *)
Theorem save_then_lookup
        (rt : Runtime) (db : D1) (d : PodcastData) (id : Z) (w w' : World) :
  savePodcast rt db d w = (Ok (Saved id), w') ->
  select_fault db (pd_url d) = None ->
  exists found,
    fst (getPodcastByUrl rt db (pd_url d) w') = Ok (Hit found) /\
    v_id found = Some id /\
    v_url found = pd_url d /\
    v_title found = pd_title d /\
    v_summary found = pd_summary d /\
    v_audioFileName found = pd_audioFileName d /\
    v_audioUrl found = Some (pd_audioUrl d) /\
    v_cacheKey found = Some (pd_cacheKey d) /\
    v_userId found
    = Some (match pd_userId d with Some u => u | None => str "anonymous" end) /\
    v_status found
    = Some (match pd_status d with Some s => s | None => str "completed" end).
Proof.
  rewrite savePodcast_run. cbv zeta. intros Hsave Hsel.
  destruct (insert_fault db d); [discriminate|].
  destruct (existsb (clashes d) (podcasts w)) eqn:Hclash; [discriminate|].
  injection Hsave as <- <-.
  exists (view_of_row (row_of_data (next_podcast_id w)
                         (clock (record_call rt (EvDbInsertPodcast d) w)) d)).
  split; [|repeat split].
  rewrite getPodcastByUrl_run, Hsel. cbn [fst podcasts record_call set_tables].
  rewrite find_app_new; [reflexivity| |].
  - apply clashes_url. exact Hclash.
  - cbn [row_url row_of_data]. apply eqs_refl.
Qed.

(** X4.  The table keeps URLs and cache keys unique: when a row already
    has the URL or the cache key of the record, [savePodcast] reports a
    failure, and neither the table nor the next id changes. *)
Theorem save_rejects_duplicates
        (rt : Runtime) (db : D1) (d : PodcastData) (row : PodcastRow)
        (w : World) :
  In row (podcasts w) ->
  row_url row = pd_url d \/ row_cache_key row = Some (pd_cacheKey d) ->
  exists error w',
    savePodcast rt db d w = (Ok (SaveFailed error), w') /\
    podcasts w' = podcasts w /\
    next_podcast_id w' = next_podcast_id w /\
    trace w' = trace w ++ [EvDbInsertPodcast d].
Proof.
  intros Hin Hdup. rewrite savePodcast_run. cbv zeta.
  destruct (insert_fault db d) as [msg|].
  { do 2 eexists. split; [reflexivity|]. repeat split. }
  assert (Hclash : existsb (clashes d) (podcasts w) = true).
  { apply existsb_exists. exists row. split; [exact Hin|].
    unfold clashes. destruct Hdup as [Hu|Hk].
    - rewrite Hu, eqs_refl. reflexivity.
    - rewrite Hk, eqs_refl. apply orb_true_r. }
  rewrite Hclash. do 2 eexists. split; [reflexivity|]. repeat split.
Qed.

Lemma save_then_lookup_witness :
  exists found,
    fst (getPodcastByUrl (sample_runtime sample_page sample_audio)
                         (sample_db false) story_url
                         (snd (savePodcast
                                 (sample_runtime sample_page sample_audio)
                                 (sample_db false) sample_record empty_world)))
    = Ok (Hit found) /\
    v_id found = Some 1 /\
    v_userId found = Some sample_user.
Proof.
  destruct (save_then_lookup (sample_runtime sample_page sample_audio)
              (sample_db false) sample_record 1 empty_world
              (snd (savePodcast (sample_runtime sample_page sample_audio)
                                (sample_db false) sample_record empty_world)))
    as [found [Hfound [Hid [_ [_ [_ [_ [_ [_ [Huser _]]]]]]]]]].
  - vm_compute. reflexivity.
  - reflexivity.
  - exists found. split; [exact Hfound|]. split; [exact Hid|exact Huser].
Defined.

Lemma save_rejects_duplicates_witness :
  exists error w',
    savePodcast (sample_runtime sample_page sample_audio) (sample_db false)
                sample_record sample_saved_world
    = (Ok (SaveFailed error), w') /\
    podcasts w' = podcasts sample_saved_world.
Proof.
  destruct (save_rejects_duplicates
              (sample_runtime sample_page sample_audio) (sample_db false)
              sample_record (row_of_data 1 0 sample_record)
              sample_saved_world)
    as [error [w' [Hrun [Hrows _]]]].
  - left. reflexivity.
  - left. reflexivity.
  - exists error, w'. split; [exact Hrun|exact Hrows].
Defined.

(** ** What a failed run reports *)

Lemma scrapeWebpage_throws (rt : Runtime) (url message : jsstring)
      (w w' : World) :
  scrapeWebpage rt url w = (Throw message, w') ->
  exists reason, message = str "Failed to scrape webpage: " ++ reason.
Proof.
  rewrite scrapeWebpage_run. intros H. injection H as H _.
  destruct (http_get rt url) as [msg|response].
  - injection H as <-. eexists. reflexivity.
  - destruct (negb (resp_ok response));
      [injection H as <-; eexists; reflexivity|].
    destruct (len (resp_text response) <? 100);
      [injection H as <-; eexists; reflexivity|].
    destruct (len (truncate_at 1000 800 (clean_html (resp_text response)))
              <? 100);
      [injection H as <-; eexists; reflexivity|discriminate].
Qed.

Lemma generateAudio_throws (rt : Runtime) (text : jsstring) (env : Env)
      (message : jsstring) (w w' : World) :
  generateAudio rt text env w = (Throw message, w') ->
  message = str "ElevenLabs API key not configured" \/
  message = str "Cannot generate audio from empty text" \/
  exists detail, message = str "ElevenLabs TTS failed: " ++ detail.
Proof.
  unfold generateAudio.
  destruct (ELEVENLABS_API_KEY env) as [[|k ey]|];
    try (intros H; injection H as <- _; left; reflexivity).
  destruct (len (trim text) =? 0);
    [intros H; injection H as <- _; right; left; reflexivity|].
  cbv beta iota zeta delta [try_catch bind fetch_tts emit throw ret].
  destruct (http_post_tts rt _ _ _) as [msg|response].
  { intros H. injection H as <- _. right. right. eexists. reflexivity. }
  destruct (negb (resp_ok response));
    [intros H; injection H as <- _; right; right; eexists; reflexivity|].
  cbv zeta.
  destruct (len (resp_bytes response) =? 0);
    [intros H; injection H as <- _; right; right; eexists; reflexivity|].
  discriminate.
Qed.

Lemma generate_fresh_failure (rt : Runtime) (startTime : Z)
      (url userId : jsstring) (env : Env) (origin message : jsstring)
      (w w' : World) :
  generate_fresh rt startTime url userId env origin w = (Throw message, w') ->
  step_failure message.
Proof.
  cbv beta iota zeta delta [generate_fresh bind try_catch throw ret Date_now].
  destruct (scrapeWebpage rt url w) as [[content|msg] w1] eqn:Hs.
  2:{ intros H. injection H as <- _.
      destruct (scrapeWebpage_throws rt url msg w w1 Hs) as [reason ->].
      left. exists reason. reflexivity. }
  destruct (scrapeWebpage_ok rt url content w w1 Hs) as [Hlen _].
  destruct (len content <? 100) eqn:E100; [lia|].
  destruct (AI env) as [run|] eqn:Hai.
  2:{ intros H. injection H as <- _. right. left. reflexivity. }
  destruct (summarizeArticle rt (Some run) (truncate_at 1000 800 content) w1)
    as [[summary|msg] w2] eqn:Hsum.
  2:{ intros H. injection H as <- _. right. right. left.
      exists msg. reflexivity. }
  destruct (summarizeArticle_ok rt _ _ _ _ _ Hsum) as [Hsl _].
  destruct (len summary <? 30) eqn:E30; [lia|].
  destruct (generateAudio rt summary env w2) as [[audio|msg] w3] eqn:Ha.
  2:{ intros H. injection H as <- _. right. right. right. left.
      exists msg. split; [reflexivity|].
      apply (generateAudio_throws rt summary env msg w2 w3 Ha). }
  pose proof (generateAudio_ok rt _ _ _ _ _ Ha) as Hbytes.
  cbv beta iota zeta.
  destruct (len audio =? 0) eqn:Eb; [apply Z.eqb_eq in Eb; contradiction|].
  cbv beta iota zeta.
  destruct (AUDIO_BUCKET env) as [put_fault|] eqn:Hbucket.
  2:{ intros H. injection H as <- _. do 4 right. left. reflexivity. }
  rewrite bucket_put_run.
  destruct (put_fault (audio_file_name (generateCacheKey url))) as [msg|].
  { intros H. injection H as <- _. do 5 right. exists msg. reflexivity. }
  cbv beta iota zeta. rewrite !save_if_bound_run. discriminate.
Qed.

Lemma step_failure_not_guard (error : jsstring) :
  step_failure error -> error <> [] /\ ~ In error guard_messages.
Proof.
  intros [[r ->]|[->|[[r ->]|[[r [-> [->|[->|[d ->]]]]]|[->|[r ->]]]]]];
    (split; [discriminate|]);
    intros [H|[H|[H|[H|[H|[]]]]]]; discriminate H.
Qed.

(** X5.  Whenever [generatePodcastSync] reports a failure, the message
    names the step that stopped the run: the page (with the prefix
    doubled), the model, the speech service or the storage; what follows
    the prefix of the speech step is one of the three messages of
    [generateAudio].  The checks that the function itself makes on the
    page text, on the script and on the audio never fire: the message is
    none of theirs, the one on the audio taken with the prefix that its
    handler would put before it, and it is never the last-resort one. *)
Theorem failure_names_its_step
        (rt : Runtime) (url userId : jsstring) (env : Env)
        (origin error : jsstring) (w w' : World) :
  generatePodcastSync rt url userId env origin w
  = (Ok (GenFailure error), w') ->
  step_failure error /\ ~ In error guard_messages.
Proof.
  rewrite generatePodcastSync_run.
  destruct (cache_lookup env url w); [discriminate|].
  destruct (generate_fresh rt (clock w) url userId env origin
                           (checked rt env url w))
    as [[result|message] w1] eqn:Hfresh.
  - intros H. injection H as -> _.
    destruct (generate_fresh_shape rt (clock w) url userId env origin
                (checked rt env url w))
      as [[m [w2 [Hthrow _]]]|
          [content [summary [key [response [put_fault [w3 [Hok _]]]]]]]];
      rewrite Hfresh in *; discriminate.
  - intros H. injection H as <- _.
    pose proof (generate_fresh_failure _ _ _ _ _ _ _ _ _ Hfresh) as Hstep.
    destruct (step_failure_not_guard _ Hstep) as [Hne Hguard].
    unfold failure_of.
    destruct (len message =? 0) eqn:E.
    + apply Z.eqb_eq in E. destruct message; [contradiction|].
      unfold len in E. simpl in E. lia.
    + split; assumption.
Qed.

Lemma failure_names_its_step_witness :
  step_failure (str "Failed to scrape webpage: Failed to scrape webpage: Webpage returned empty or insufficient content") /\
  ~ In (str "Failed to scrape webpage: Failed to scrape webpage: Webpage returned empty or insufficient content")
       guard_messages.
Proof.
  apply (failure_names_its_step
           (sample_runtime (sample_text 10 10) sample_audio)
           story_url sample_user (sample_env false sample_script)
           sample_origin _ empty_world
           (snd (generatePodcastSync
                   (sample_runtime (sample_text 10 10) sample_audio)
                   story_url sample_user (sample_env false sample_script)
                   sample_origin empty_world))).
  vm_compute. reflexivity.
Defined.

(** ** A run that went through, and the next one *)

Lemma untouched_trans (w1 w2 w3 : World) :
  untouched w1 w2 -> untouched w2 w3 -> untouched w1 w3.
Proof.
  unfold untouched. intros [A [B [C D]]] [A' [B' [C' D']]].
  repeat split; congruence.
Qed.

(** A success of [generatePodcastSync] that is not a cached record: the
    lookup missed, the audio object was written over whatever the bucket
    held under the file name, and the record went to the best-effort
    save. *)
Lemma fresh_success (rt : Runtime) (url userId : jsstring) (env : Env)
      (origin : jsstring) (data : PodcastView) (w w' : World) :
  generatePodcastSync rt url userId env origin w = (Ok (GenSuccess data), w') ->
  v_cached data = None ->
  cache_lookup env url w = None /\
  exists content summary audio w5,
    let file := audio_file_name (generateCacheKey url) in
    let d := assembled url (extractTitle rt url) summary file origin userId
                       (clock w5 - clock w) (len content) (len audio) in
    podcasts w5 = podcasts w /\
    next_podcast_id w5 = next_podcast_id w /\
    bucket w5
    = (file, audio)
        :: filter (fun kv => negb (eqs (fst kv) file)) (bucket w) /\
    w' = snd (save_if_bound rt env d w5) /\
    data = view_of_data d (origin ++ str "/audio/" ++ file) (clock w') None /\
    100 <= len content /\ 50 <= len summary /\ len audio <> 0 /\
    AUDIO_BUCKET env <> None.
Proof.
  rewrite generatePodcastSync_run.
  destruct (cache_lookup env url w) as [c|] eqn:Hlook.
  { intros H Hc. injection H as <- _. discriminate Hc. }
  intros H _. split; [reflexivity|].
  destruct (generate_fresh_shape rt (clock w) url userId env origin
              (checked rt env url w))
    as [[m [w2 [Hthrow _]]]|
        [content [summary [key [response [put_fault [w3 Hshape]]]]]]].
  { rewrite Hthrow in H. discriminate. }
  cbv zeta in Hshape.
  destruct Hshape
    as [Hrun [Hcalls [_ [_ [_ [Hcl [Hsl [_ [_ [_ [Hbytes [Hbucket _]]]]]]]]]]]].
  rewrite Hrun in H. injection H as <- <-.
  destruct (untouched_trans _ _ _ (proj1 (checked_only_calls rt env url w))
                            (proj1 Hcalls)) as [Hp [Hn [_ Hb]]].
  exists content, summary, (resp_bytes response),
    (stored rt (audio_file_name (generateCacheKey url)) (resp_bytes response)
       (record_call rt
          (EvTts (tts_endpoint env) key (truncate_at 800 600 summary)) w3)).
  cbv zeta. unfold stored at 1 2 3.
  cbn [podcasts next_podcast_id bucket set_bucket record_call].
  rewrite Hb. repeat (split; [first [assumption|reflexivity]|]).
  congruence.
Qed.

Lemma find_none_existsb {A} (f : A -> bool) (l : list A) :
  find f l = None -> existsb f l = false.
Proof.
  induction l as [|a l IH]; simpl; [reflexivity|].
  destruct (f a); [discriminate|]. exact IH.
Qed.

Lemma no_clash (d : PodcastData) (rows : list PodcastRow) :
  find (fun r => eqs (row_url r) (pd_url d)) rows = None ->
  (forall row, In row rows -> row_cache_key row <> Some (pd_cacheKey d)) ->
  existsb (clashes d) rows = false.
Proof.
  induction rows as [|r rows IH]; simpl; intros Hurl Hkey; [reflexivity|].
  destruct (eqs (row_url r) (pd_url d)) eqn:E; [discriminate|].
  rewrite IH; [|exact Hurl|intros row Hin; apply Hkey; right; exact Hin].
  unfold clashes. rewrite E. simpl.
  destruct (row_cache_key r) as [k|] eqn:Ek; [|reflexivity].
  destruct (eqs k (pd_cacheKey d)) eqn:E'; [|reflexivity].
  apply eqs_true in E'. subst k. exfalso.
  apply (Hkey r); [left; reflexivity|exact Ek].
Qed.

Lemma cache_lookup_miss (env : Env) (db : D1) (url : jsstring) (w : World) :
  PODCAST_DB env = Some db -> select_fault db url = None ->
  cache_lookup env url w = None ->
  find (fun r => eqs (row_url r) url) (podcasts w) = None.
Proof.
  unfold cache_lookup. intros -> ->.
  destruct (find _ (podcasts w)); [discriminate|reflexivity].
Qed.

(** X6.  Asking twice costs once.  When a run of [generatePodcastSync]
    went through all its steps, the database takes inserts and no row
    carried the cache key of the URL, the next request for that URL, from
    whatever user, is answered from the table: the same title, script,
    file and audio URL, marked cached, under the id of the new row and
    the name of the first user, with the two calls of the lookup and
    nothing else. *)
Theorem fresh_run_then_cache_hit
        (rt : Runtime) (env : Env) (db : D1)
        (url userId nextUser origin : jsstring)
        (data : PodcastView) (w w' : World) :
  PODCAST_DB env = Some db ->
  select_fault db url = None ->
  (forall d, insert_fault db d = None) ->
  (forall row, In row (podcasts w) ->
               row_cache_key row <> Some (generateCacheKey url)) ->
  generatePodcastSync rt url userId env origin w = (Ok (GenSuccess data), w') ->
  v_cached data = None ->
  exists again w'',
    generatePodcastSync rt url nextUser env origin w'
    = (Ok (GenSuccess again), w'') /\
    v_cached again = Some true /\
    v_id again = Some (next_podcast_id w) /\
    v_url again = url /\
    v_title again = v_title data /\
    v_summary again = v_summary data /\
    v_audioFileName again = v_audioFileName data /\
    v_audioUrl again = v_audioUrl data /\
    v_userId again = Some userId /\
    trace w'' = trace w' ++ [EvDbExec; EvDbSelectByUrl url] /\
    untouched w' w''.
Proof.
  intros Hdb Hsel Hins Hkeys Hrun Hfresh.
  destruct (fresh_success rt url userId env origin data w w' Hrun Hfresh)
    as [Hmiss [content [summary [audio [w5 Hs]]]]].
  cbv zeta in Hs.
  destruct Hs as [Hp [Hn [_ [Hw' [Hdata _]]]]].
  set (file := audio_file_name (generateCacheKey url)) in *.
  set (d := assembled url (extractTitle rt url) summary file origin userId
                      (clock w5 - clock w) (len content) (len audio)) in *.
  assert (Hrows : podcasts w'
                  = podcasts w
                    ++ [row_of_data (next_podcast_id w)
                          (clock (record_call rt (EvDbInsertPodcast d) w5)) d]).
  { rewrite Hw', save_if_bound_run, Hdb. cbv zeta. rewrite (Hins d).
    cbn [snd]. rewrite Hp, Hn.
    rewrite no_clash; [reflexivity| |exact Hkeys].
    apply (cache_lookup_miss env db url w Hdb Hsel Hmiss). }
  rewrite generatePodcastSync_run.
  assert (Hlook : cache_lookup env url w'
                  = Some (view_of_row
                            (row_of_data (next_podcast_id w)
                               (clock (record_call rt (EvDbInsertPodcast d) w5))
                               d))).
  { unfold cache_lookup. rewrite Hdb, Hsel, Hrows.
    rewrite find_app_new; [reflexivity| |apply eqs_refl].
    apply find_none_existsb.
    apply (cache_lookup_miss env db url w Hdb Hsel Hmiss). }
  rewrite Hlook.
  do 2 eexists. split; [reflexivity|].
  rewrite Hdata, checked_world, Hdb.
  unfold cached_view, ensure_audio_url.
  cbn [v_cached v_id v_url v_title v_summary v_audioFileName v_audioUrl
       v_userId set_audioUrl view_of_row view_of_data row_of_data assembled d
       row_id row_url row_title row_summary row_audio_file_name
       row_audio_url row_user_id
       pd_url pd_title pd_summary pd_audioFileName pd_audioUrl pd_userId].
  repeat (split; [reflexivity|]).
  split.
  - destruct (_ && _); reflexivity.
  - split; [reflexivity|].
    split; [|repeat split].
    cbn [trace record_call]. rewrite <- app_assoc. reflexivity.
Qed.

Lemma fresh_run_then_cache_hit_witness :
  let rt := sample_runtime sample_page sample_audio in
  let env := sample_env false sample_script in
  let first :=
    generatePodcastSync rt story_url sample_user env sample_origin
                        empty_world in
  exists again w'',
    generatePodcastSync rt story_url (str "user-2") env sample_origin
                        (snd first)
    = (Ok (GenSuccess again), w'') /\
    v_cached again = Some true /\
    v_userId again = Some sample_user.
Proof.
  intros rt env first.
  assert (Hfirst : exists data,
             first = (Ok (GenSuccess data), snd first) /\
             v_cached data = None).
  { vm_compute. eexists. split; reflexivity. }
  destruct Hfirst as [data [Hfirst Hfresh]].
  destruct (fresh_run_then_cache_hit rt env (sample_db false) story_url
              sample_user (str "user-2") sample_origin data empty_world
              (snd first) eq_refl eq_refl (fun _ => eq_refl)
              (fun row Hin => False_ind _ Hin) Hfirst Hfresh)
    as [again [w'' [Hrun [Hcached [_ [_ [_ [_ [_ [_ [Huser _]]]]]]]]]]].
  exists again, w''. split; [exact Hrun|]. split; assumption.
Defined.

(** X7.  Two URLs with one cache key share one audio object.  When a row
    already carries the cache key of the URL, a run that goes through all
    its steps still reports success, but it writes its audio over the
    object of that row and its own record is not saved: the table is as
    before, the bucket holds only the new audio under the file name, and
    the next lookup of the URL finds what it found before. *)
Theorem colliding_key_replaces_audio
        (rt : Runtime) (env : Env) (url userId origin : jsstring)
        (row : PodcastRow) (data : PodcastView) (w w' : World) :
  In row (podcasts w) ->
  row_cache_key row = Some (generateCacheKey url) ->
  generatePodcastSync rt url userId env origin w = (Ok (GenSuccess data), w') ->
  v_cached data = None ->
  let file := audio_file_name (generateCacheKey url) in
  podcasts w' = podcasts w /\
  cache_lookup env url w' = None /\
  v_audioFileName data = file /\
  exists audio,
    v_audioSizeBytes data = Some (len audio) /\ len audio <> 0 /\
    In (file, audio) (bucket w') /\
    (forall bytes, In (file, bytes) (bucket w') -> bytes = audio) /\
    (forall name bytes, name <> file ->
                        (In (name, bytes) (bucket w')
                         <-> In (name, bytes) (bucket w))).
Proof.
  intros Hin Hkey Hrun Hfresh file.
  destruct (fresh_success rt url userId env origin data w w' Hrun Hfresh)
    as [Hmiss [content [summary [audio [w5 Hs]]]]].
  cbv zeta in Hs. fold file in Hs.
  destruct Hs as [Hp [Hn [Hb [Hw' [Hdata [_ [_ [Haudio _]]]]]]]].
  set (d := assembled url (extractTitle rt url) summary file origin userId
                      (clock w5 - clock w) (len content) (len audio)) in *.
  assert (Hclash : existsb (clashes d) (podcasts w5) = true).
  { rewrite Hp. apply existsb_exists. exists row. split; [exact Hin|].
    unfold clashes. rewrite Hkey. cbn [pd_cacheKey d assembled].
    rewrite eqs_refl. apply orb_true_r. }
  assert (Hrows : podcasts w' = podcasts w /\ bucket w' = bucket w5).
  { rewrite Hw', save_if_bound_run.
    destruct (PODCAST_DB env) as [db|]; cbv zeta; cbn [snd];
      [|split; [exact Hp|reflexivity]].
    destruct (insert_fault db d);
      [split; [exact Hp|reflexivity]|].
    rewrite Hclash. split; [exact Hp|reflexivity]. }
  destruct Hrows as [Hrows Hbucket].
  split; [exact Hrows|].
  split.
  { unfold cache_lookup in *. rewrite Hrows. exact Hmiss. }
  split; [rewrite Hdata; reflexivity|].
  exists audio. rewrite Hbucket, Hb.
  split; [rewrite Hdata; reflexivity|].
  split; [exact Haudio|].
  split; [left; reflexivity|].
  split.
  - intros bytes [H|H]; [congruence|].
    apply filter_In in H as [_ H]. cbn [fst] in H.
    rewrite eqs_refl in H. discriminate.
  - intros name bytes Hname. split.
    + intros [H|H]; [congruence|]. apply filter_In in H as [H _]. exact H.
    + intros H. right. apply filter_In. split; [exact H|]. cbn [fst].
      destruct (eqs name file) eqn:E; [|reflexivity].
      apply eqs_true in E. contradiction.
Qed.

Lemma colliding_key_replaces_audio_witness :
  let rt := sample_runtime sample_page sample_audio in
  let env := sample_env false sample_script in
  let first :=
    generatePodcastSync rt aa_url sample_user env sample_origin empty_world in
  let second :=
    generatePodcastSync rt bb_url sample_user env sample_origin (snd first) in
  podcasts (snd second) = podcasts (snd first) /\
  cache_lookup env bb_url (snd second) = None.
Proof.
  intros rt env first second.
  assert (Hrow : exists row,
             In row (podcasts (snd first)) /\
             row_cache_key row = Some (generateCacheKey bb_url)).
  { vm_compute. eexists. split; [left; reflexivity|reflexivity]. }
  destruct Hrow as [row [Hin Hkey]].
  assert (Hsecond : exists data,
             second = (Ok (GenSuccess data), snd second) /\
             v_cached data = None).
  { vm_compute. eexists. split; reflexivity. }
  destruct Hsecond as [data [Hsecond Hfresh]].
  pose proof (colliding_key_replaces_audio rt env bb_url sample_user
                sample_origin row data (snd first) (snd second)
                Hin Hkey Hsecond Hfresh) as H.
  cbv zeta in H. destruct H as [Hrows [Hmiss _]].
  split; assumption.
Defined.

(** ** The workflow *)

(** X8.  The class [PodcastWorkflow] calls [this.generateCacheKey] and
    does not define it.  When its base class does not either, no run of
    the workflow creates anything: table, log and bucket stay as they
    were, the only success is a record that the table already held under
    the URL, with a file name, and without such a record the run ends in
    a failure result. *)
Theorem workflow_creates_nothing
        (rt : Runtime) (url : jsstring) (userId : option jsstring)
        (env : Env) (w : World) :
  base_generateCacheKey rt = None ->
  let run := PodcastWorkflow_run rt url userId env w in
  untouched w (snd run) /\
  (forall data,
      fst run = Ok (GenSuccess data) ->
      exists c,
        cache_lookup env url w = Some c /\
        0 < len (v_audioFileName c) /\
        data = set_audioUrl c (v_audioUrl c) (Some true)) /\
  (cache_lookup env url w = None ->
   exists error, fst run = Ok (GenFailure error)).
Proof.
  intros Hbase run. unfold run. rewrite PodcastWorkflow_run_run.
  pose proof (proj1 (checked_only_calls rt env url w)) as Hchecked.
  assert (Hfresh : exists message w',
             workflow_fresh rt url userId env (checked rt env url w)
             = (Throw message, w') /\
             untouched w w').
  { destruct (workflow_fresh_shape rt url userId env (checked rt env url w))
      as [[message [w' [Hthrow Hcalls]]]|[this [? [? [? [? [? [? Hs]]]]]]]].
    - exists message, w'. split; [exact Hthrow|].
      apply (untouched_trans _ _ _ Hchecked (proj1 Hcalls)).
    - cbv zeta in Hs. destruct Hs as [_ [Hsome _]]. congruence. }
  destruct Hfresh as [message [w' [Hthrow Hsame]]].
  destruct (cache_lookup env url w) as [c|].
  - destruct (0 <? len (v_audioFileName c)) eqn:E.
    + cbn [fst snd]. split; [exact Hchecked|]. split; [|discriminate].
      intros data H. injection H as <-. exists c.
      split; [reflexivity|]. split; [|reflexivity].
      apply Z.ltb_lt. exact E.
    + rewrite Hthrow. cbn [fst snd]. split; [exact Hsame|].
      split; [discriminate|discriminate].
  - rewrite Hthrow. cbn [fst snd]. split; [exact Hsame|].
    split; [discriminate|]. intros _. eexists. reflexivity.
Qed.

Lemma workflow_creates_nothing_witness :
  let run := PodcastWorkflow_run (sample_runtime sample_page sample_audio)
               story_url None (sample_env false sample_script) empty_world in
  untouched empty_world (snd run) /\
  exists error, fst run = Ok (GenFailure error).
Proof.
  intros run.
  pose proof (workflow_creates_nothing
                (sample_runtime sample_page sample_audio) story_url None
                (sample_env false sample_script) empty_world eq_refl) as H.
  cbv zeta in H. destruct H as [Hsame [_ Hfail]].
  split; [exact Hsame|]. apply Hfail. reflexivity.
Defined.

(** ** White space in normal form *)

Lemma replace_all_from_skipn (m : jsstring -> option nat) (rep : jsstring)
      (k : nat) (s : jsstring) :
  replace_all_from m rep k s = replace_all_from m rep 0 (skipn k s).
Proof.
  revert k. induction s as [|c t IH]; intros [|k]; try reflexivity.
  cbn [replace_all_from skipn]. apply IH.
Qed.

Lemma space_run_skipn (s : jsstring) :
  starts_with_space (skipn (space_run s) s) = false.
Proof.
  induction s as [|c t IH]; [reflexivity|].
  cbn [space_run]. destruct (is_space c) eqn:E.
  - cbn [skipn]. exact IH.
  - cbn [skipn starts_with_space]. exact E.
Qed.

Lemma spaced_cons (c : Z) (t : jsstring) :
  spaced (c :: t)
  = (if is_space c then (c =? 32) && negb (starts_with_space t) else true)
    && spaced t.
Proof. destruct t; reflexivity. Qed.

Lemma replace_spaces_spaced_aux (n : nat) (s : jsstring) :
  (length s <= n)%nat ->
  spaced (replace_all match_spaces (str " ") s) = true /\
  (starts_with_space s = false ->
   starts_with_space (replace_all match_spaces (str " ") s) = false).
Proof.
  revert s. induction n as [|n IH]; intros s Hlen.
  - destruct s; [|simpl in Hlen; lia]. split; reflexivity.
  - destruct s as [|c t]; [split; reflexivity|].
    simpl in Hlen. unfold replace_all. cbn [replace_all_from].
    unfold match_spaces. cbn [space_run starts_with_space].
    destruct (is_space c) eqn:E; cbv beta iota.
    + change (str " ") with [32]. cbn [app].
      rewrite replace_all_from_skipn.
      destruct (IH (skipn (space_run t) t)) as [Hs Hh].
      { rewrite length_skipn. lia. }
      specialize (Hh (space_run_skipn t)).
      unfold replace_all, match_spaces in Hs, Hh.
      change (str " ") with [32] in Hs, Hh.
      split; [|discriminate].
      rewrite spaced_cons, Hs, Hh. reflexivity.
    + destruct (IH t) as [Hs _]; [lia|].
      unfold replace_all, match_spaces in Hs.
      split; [|intros _; cbn [starts_with_space]; exact E].
      rewrite spaced_cons, E, Hs. reflexivity.
Qed.

Lemma replace_spaces_spaced (s : jsstring) :
  spaced (replace_all match_spaces (str " ") s) = true.
Proof. apply (replace_spaces_spaced_aux (length s) s). lia. Qed.

Lemma starts_with_space_firstn (n : nat) (s : jsstring) :
  starts_with_space (firstn n s) = true -> starts_with_space s = true.
Proof. destruct n, s; simpl; congruence. Qed.

Lemma spaced_firstn (n : nat) (s : jsstring) :
  spaced s = true -> spaced (firstn n s) = true.
Proof.
  revert n. induction s as [|c t IH]; intros [|n] H; try reflexivity.
  cbn [firstn]. rewrite spaced_cons in *.
  apply andb_true_iff in H as [Hc Ht]. rewrite (IH n Ht), andb_true_r.
  destruct (is_space c); [|reflexivity].
  apply andb_true_iff in Hc as [Hc Hn]. rewrite Hc. cbn [andb].
  destruct (starts_with_space (firstn n t)) eqn:E; [|reflexivity].
  apply starts_with_space_firstn in E. rewrite E in Hn. discriminate.
Qed.

Lemma spaced_trimStart (s : jsstring) :
  spaced s = true -> spaced (trimStart s) = true.
Proof.
  induction s as [|c t IH]; intros H; [reflexivity|].
  cbn [trimStart]. destruct (is_space c); [|exact H].
  apply IH. rewrite spaced_cons in H.
  apply andb_true_iff in H. apply H.
Qed.

Lemma trimStart_head (s : jsstring) :
  starts_with_space (trimStart s) = false.
Proof.
  induction s as [|c t IH]; [reflexivity|].
  cbn [trimStart]. destruct (is_space c) eqn:E; [exact IH|].
  cbn [starts_with_space]. exact E.
Qed.

Lemma trimStart_id (s : jsstring) :
  starts_with_space s = false -> trimStart s = s.
Proof.
  destruct s as [|c t]; [reflexivity|].
  cbn [starts_with_space trimStart]. intros ->. reflexivity.
Qed.

Lemma trimStart_skipn (s : jsstring) : exists k, trimStart s = skipn k s.
Proof.
  induction s as [|c t [k IH]]; [exists O; reflexivity|].
  cbn [trimStart]. destruct (is_space c).
  - exists (S k). exact IH.
  - exists O. reflexivity.
Qed.

Lemma trimEnd_firstn (s : jsstring) : exists n, trimEnd s = firstn n s.
Proof.
  unfold trimEnd. destruct (trimStart_skipn (rev s)) as [k ->].
  exists (length s - k)%nat. rewrite skipn_rev, rev_involutive. reflexivity.
Qed.

Lemma trimEnd_snoc (s : jsstring) (x : Z) :
  trimEnd (s ++ [x]) = if is_space x then trimEnd s else s ++ [x].
Proof.
  unfold trimEnd. rewrite rev_app_distr. cbn [rev app trimStart].
  destruct (is_space x); [reflexivity|].
  cbn [rev]. rewrite rev_involutive. reflexivity.
Qed.

Lemma trimEnd_tail (s : jsstring) :
  starts_with_space (rev (trimEnd s)) = false.
Proof.
  unfold trimEnd. rewrite rev_involutive. apply trimStart_head.
Qed.

Lemma trimEnd_id (s : jsstring) :
  starts_with_space (rev s) = false -> trimEnd s = s.
Proof.
  intros H. unfold trimEnd. rewrite (trimStart_id _ H).
  apply rev_involutive.
Qed.

Lemma trim_head (s : jsstring) : starts_with_space (trim s) = false.
Proof.
  unfold trim. destruct (trimEnd_firstn (trimStart s)) as [n ->].
  destruct (starts_with_space (firstn n (trimStart s))) eqn:E;
    [|reflexivity].
  apply starts_with_space_firstn in E. rewrite trimStart_head in E.
  discriminate.
Qed.

Lemma trim_spaced (s : jsstring) : spaced s = true -> spaced (trim s) = true.
Proof.
  intros H. unfold trim. destruct (trimEnd_firstn (trimStart s)) as [n ->].
  apply spaced_firstn, spaced_trimStart, H.
Qed.

Lemma trim_trim (s : jsstring) : trim (trim s) = trim s.
Proof.
  unfold trim at 1. rewrite (trimStart_id _ (trim_head s)).
  apply trimEnd_id. unfold trim. apply trimEnd_tail.
Qed.

Lemma spaced_adjacent (a : jsstring) (y x : Z) (b : jsstring) :
  spaced (a ++ y :: x :: b) = true -> is_space y = true ->
  is_space x = false.
Proof.
  induction a as [|c a IH]; cbn [app]; rewrite spaced_cons; intros H Hy.
  - rewrite Hy in H. cbn [starts_with_space] in H.
    destruct (is_space x); [|reflexivity].
    rewrite andb_false_r in H. discriminate.
  - apply andb_true_iff in H as [_ H]. apply IH; assumption.
Qed.

(** Trimming text in normal form that starts with a character other than
    white space takes at most its last character. *)
Lemma trim_spaced_length (s : jsstring) :
  spaced s = true -> starts_with_space s = false ->
  len s - 1 <= len (trim s).
Proof.
  intros Hs Hh. unfold trim. rewrite (trimStart_id _ Hh).
  destruct s as [|c t] using rev_ind; [unfold len; simpl; lia|].
  clear IHt. rename c into x. rewrite trimEnd_snoc.
  destruct (is_space x) eqn:Ex; [|lia].
  destruct t as [|y q] using rev_ind.
  { cbn [app starts_with_space] in Hh. congruence. }
  clear IHq. rewrite trimEnd_snoc.
  destruct (is_space y) eqn:Ey.
  - rewrite <- app_assoc in Hs. cbn [app] in Hs.
    rewrite (spaced_adjacent q y x [] Hs Ey) in Ex. discriminate.
  - rewrite len_app. unfold len. simpl. lia.
Qed.

Lemma truncate_at_firstn (limit boundary : Z) (s : jsstring) :
  exists n, truncate_at limit boundary s = firstn n s.
Proof.
  unfold truncate_at, substring0.
  destruct (len s >? limit).
  - cbv zeta. destruct (_ >? boundary).
    + rewrite firstn_firstn. eexists. reflexivity.
    + eexists. reflexivity.
  - exists (length s). symmetry. apply firstn_all.
Qed.

Lemma truncate_at_bound (limit boundary : Z) (s : jsstring) :
  0 <= limit -> len (truncate_at limit boundary s) <= limit.
Proof.
  intros Hl. unfold truncate_at.
  destruct (len s >? limit) eqn:E;
    [|rewrite Z.gtb_ltb in E; apply Z.ltb_ge in E; lia].
  cbv zeta. destruct (_ >? boundary).
  - unfold len, substring0. rewrite !length_firstn. lia.
  - unfold len, substring0. rewrite !length_firstn. lia.
Qed.

(** ** The text of a page *)

Lemma scrapeWebpage_max (rt : Runtime) (url out : jsstring) (w w' : World) :
  scrapeWebpage rt url w = (Ok out, w') -> len out <= 1000.
Proof.
  rewrite scrapeWebpage_run. intros Hrun. injection Hrun as Hout _.
  destruct (http_get rt url) as [msg|response]; [discriminate|].
  destruct (negb (resp_ok response)); [discriminate|].
  destruct (len (resp_text response) <? 100); [discriminate|].
  destruct (len (truncate_at 1000 800 (clean_html (resp_text response)))
            <? 100); [discriminate|].
  injection Hout as <-. apply truncate_at_bound. lia.
Qed.

(** X9.  The text that [scrapeWebpage] returns has between 100 and 1000
    characters, starts with a character other than white space, and has
    its white space in normal form: single plain spaces.  The cut at 1000
    characters that [generatePodcastSync] and [summarizeArticle] apply to
    it again changes nothing. *)
Theorem scraped_text_normal_form
        (rt : Runtime) (url out : jsstring) (w w' : World) :
  scrapeWebpage rt url w = (Ok out, w') ->
  100 <= len out <= 1000 /\
  spaced out = true /\
  trimStart out = out /\
  truncate_at 1000 800 out = out.
Proof.
  intros Hrun.
  destruct (scrapeWebpage_ok rt url out w w' Hrun) as [Hmin _].
  rewrite scrapeWebpage_run in Hrun. injection Hrun as Hout _.
  destruct (http_get rt url) as [msg|response]; [discriminate|].
  destruct (negb (resp_ok response)); [discriminate|].
  destruct (len (resp_text response) <? 100); [discriminate|].
  destruct (len (truncate_at 1000 800 (clean_html (resp_text response)))
            <? 100); [discriminate|].
  injection Hout as Hout.
  assert (Hmax : len out <= 1000).
  { rewrite <- Hout. apply truncate_at_bound. lia. }
  destruct (truncate_at_firstn 1000 800 (clean_html (resp_text response)))
    as [n Hn].
  rewrite Hn in Hout.
  unfold clean_html in Hout. cbv zeta in Hout.
  match type of Hout with
  | firstn n (trim (replace_all match_spaces (str " ") ?t)) = _ =>
      pose proof (trim_spaced _ (replace_spaces_spaced t)) as Hs;
      pose proof (trim_head (replace_all match_spaces (str " ") t)) as Hh
  end.
  rewrite <- Hout.
  split; [rewrite Hout; lia|].
  split; [apply spaced_firstn; exact Hs|].
  split.
  - apply trimStart_id.
    destruct (starts_with_space (firstn n _)) eqn:E; [|reflexivity].
    apply starts_with_space_firstn in E. congruence.
  - rewrite Hout. apply truncate_at_short. exact Hmax.
Qed.

Lemma scraped_text_normal_form_witness :
  let out := fst (scrapeWebpage (sample_runtime sample_page sample_audio)
                                story_url empty_world) in
  out = Ok sample_page /\
  100 <= len sample_page <= 1000 /\
  truncate_at 1000 800 sample_page = sample_page.
Proof.
  intros out. split; [reflexivity|].
  destruct (scraped_text_normal_form
              (sample_runtime sample_page sample_audio) story_url sample_page
              empty_world
              (snd (scrapeWebpage (sample_runtime sample_page sample_audio)
                                  story_url empty_world)))
    as [Hlen [_ [_ Hcut]]].
  - vm_compute. reflexivity.
  - split; assumption.
Defined.

(** ** The title *)

Lemma format_title_normal (segment : jsstring) :
  spaced (format_title segment) = true /\
  trim (format_title segment) = format_title segment.
Proof.
  unfold format_title. cbv zeta. split.
  - apply trim_spaced, replace_spaces_spaced.
  - apply trim_trim.
Qed.

Lemma finish_title_bounds (title : jsstring) :
  spaced title = true -> trim title = title ->
  3 <= len (finish_title title) <= 100 /\
  spaced (finish_title title) = true /\
  trim (finish_title title) = finish_title title.
Proof.
  intros Hs Ht. unfold finish_title.
  destruct (len title <? 3) eqn:E3.
  - cbv zeta. vm_compute. repeat split; discriminate.
  - cbv zeta. apply Z.ltb_ge in E3.
    destruct (len title >? 100) eqn:E100.
    + apply Z.gtb_lt in E100.
      assert (Hp : spaced (substring0 100 title) = true)
        by (apply spaced_firstn; exact Hs).
      assert (Hh : starts_with_space (substring0 100 title) = false).
      { destruct (starts_with_space (substring0 100 title)) eqn:E;
          [|reflexivity].
        apply starts_with_space_firstn in E.
        rewrite <- Ht, trim_head in E. discriminate. }
      pose proof (trim_spaced_length _ Hp Hh) as Hlow.
      pose proof (len_trim (substring0 100 title)) as Hhigh.
      rewrite len_substring0 in Hlow, Hhigh by lia.
      split; [lia|]. split; [apply trim_spaced; exact Hp|apply trim_trim].
    + rewrite Z.gtb_ltb in E100. apply Z.ltb_ge in E100.
      split; [lia|]. split; assumption.
Qed.

(** X10.  Whatever the URL, the title that [extractTitle] returns has
    between 3 and 100 characters, no white space at either end, and
    single plain spaces as its only white space. *)
Theorem title_bounds (rt : Runtime) (url : jsstring) :
  3 <= len (extractTitle rt url) <= 100 /\
  trim (extractTitle rt url) = extractTitle rt url /\
  spaced (extractTitle rt url) = true.
Proof.
  unfold extractTitle.
  destruct (new_URL rt url) as [u|].
  - unfold title_of_url.
    destruct (format_title_normal (title_segment u)) as [Hs Ht].
    destruct (finish_title_bounds _ Hs Ht) as [Hlen [Hs' Ht']].
    split; [exact Hlen|]. split; assumption.
  - vm_compute. repeat split; discriminate.
Qed.

(** ** User ids *)

Lemma replace_non_id (s : jsstring) :
  replace_all match_non_id [] s = filter is_id_char s.
Proof.
  unfold replace_all. induction s as [|c t IH]; [reflexivity|].
  cbn [replace_all_from match_non_id filter].
  destruct (is_id_char c); cbn [app]; rewrite IH; reflexivity.
Qed.

Lemma forallb_filter_same {A} (f : A -> bool) (l : list A) :
  forallb f (filter f l) = true.
Proof.
  induction l as [|a l IH]; [reflexivity|].
  cbn [filter]. destruct (f a) eqn:E; [|exact IH].
  cbn [forallb]. rewrite E, IH. reflexivity.
Qed.

Lemma filter_forallb_id {A} (f : A -> bool) (l : list A) :
  forallb f l = true -> filter f l = l.
Proof.
  induction l as [|a l IH]; [reflexivity|].
  cbn [forallb filter]. intros H. apply andb_true_iff in H as [Ha Hl].
  rewrite Ha, (IH Hl). reflexivity.
Qed.

(** X11.  An id that [validateUserId] accepts has between 1 and 100
    characters, all of them letters, digits, underscores or hyphens, and
    validating it again gives it back. *)
Theorem validateUserId_result (userId : JsValue) (id : jsstring) :
  validateUserId userId = Ok id ->
  1 <= len id <= 100 /\
  forallb is_id_char id = true /\
  validateUserId (JsString id) = Ok id.
Proof.
  assert (Hanon : 1 <= len (str "anonymous") <= 100 /\
                  forallb is_id_char (str "anonymous") = true /\
                  validateUserId (JsString (str "anonymous"))
                  = Ok (str "anonymous")).
  { vm_compute. repeat split; discriminate. }
  destruct userId as [[|c t]|[|]]; cbn [validateUserId].
  - intros H. injection H as <-. exact Hanon.
  - cbv zeta. rewrite replace_non_id.
    pose proof (forallb_filter_same is_id_char (c :: t)) as Hall.
    revert Hall. generalize (filter is_id_char (c :: t)). intros f Hall.
    destruct (len f =? 0) eqn:E0.
    { intros H. injection H as <-. exact Hanon. }
    destruct (len f >? 100) eqn:E100; [discriminate|].
    intros H. injection H as <-.
    pose proof E0 as E0'. pose proof E100 as E100'.
    apply Z.eqb_neq in E0'. rewrite Z.gtb_ltb in E100'.
    apply Z.ltb_ge in E100'.
    pose proof (len_nonneg f) as Hn.
    split; [lia|]. split; [exact Hall|].
    destruct f as [|d r]; [contradiction E0'; reflexivity|].
    cbn [validateUserId]. cbv zeta.
    rewrite replace_non_id, (filter_forallb_id _ _ Hall), E0, E100.
    reflexivity.
  - discriminate.
  - intros H. injection H as <-. exact Hanon.
Qed.

Lemma validateUserId_result_witness :
  validateUserId (JsString (str "ann b!-7")) = Ok (str "annb-7") /\
  validateUserId (JsString (str "annb-7")) = Ok (str "annb-7").
Proof.
  split; [reflexivity|].
  apply (validateUserId_result (JsString (str "ann b!-7")) (str "annb-7")).
  reflexivity.
Defined.

(** ** Escaping *)

Lemma replace_lit_char (k : Z) (rep s : jsstring) :
  replace_all (match_lit [k]) rep s = flat_map (escape_one k rep) s.
Proof.
  unfold replace_all. induction s as [|x t IH]; [reflexivity|].
  cbn [replace_all_from flat_map]. unfold match_lit at 1, escape_one at 1.
  cbn [startsWith length]. rewrite andb_true_r, Z.eqb_sym.
  destruct (x =? k); rewrite IH; reflexivity.
Qed.

Lemma escape_steps (c : Z) :
  flat_map (escape_one 47 (str "&#x2F;"))
    (flat_map (escape_one 39 (str "&#39;"))
       (flat_map (escape_one 34 (str "&quot;"))
          (flat_map (escape_one 62 (str "&gt;"))
             (escape_one 60 (str "&lt;") c))))
  = escape_char c.
Proof.
  unfold escape_char.
  destruct (Z.eqb_spec c 60) as [->|H60]; [reflexivity|].
  unfold escape_one at 5. rewrite (proj2 (Z.eqb_neq c 60) H60).
  cbn [flat_map]. rewrite app_nil_r.
  destruct (Z.eqb_spec c 62) as [->|H62]; [reflexivity|].
  unfold escape_one at 4. rewrite (proj2 (Z.eqb_neq c 62) H62).
  cbn [flat_map]. rewrite app_nil_r.
  destruct (Z.eqb_spec c 34) as [->|H34]; [reflexivity|].
  unfold escape_one at 3. rewrite (proj2 (Z.eqb_neq c 34) H34).
  cbn [flat_map]. rewrite app_nil_r.
  destruct (Z.eqb_spec c 39) as [->|H39]; [reflexivity|].
  unfold escape_one at 2. rewrite (proj2 (Z.eqb_neq c 39) H39).
  cbn [flat_map]. rewrite app_nil_r.
  unfold escape_one. reflexivity.
Qed.

Lemma sanitize_flat_map (s : jsstring) :
  sanitizeInput (JsString s) = JsString (flat_map escape_char s).
Proof.
  cbn [sanitizeInput]. cbv zeta. f_equal.
  change (str "<") with [60]. change (str ">") with [62].
  change (str "'") with [39]. change (str "/") with [47].
  rewrite !replace_lit_char.
  induction s as [|c t IH]; [reflexivity|].
  cbn [flat_map]. rewrite !flat_map_app, IH, escape_steps. reflexivity.
Qed.

Lemma escape_char_clean (c : Z) :
  forallb (fun x => negb (is_markup_char x)) (escape_char c) = true /\
  1 <= len (escape_char c).
Proof.
  unfold escape_char.
  destruct (Z.eqb_spec c 60) as [->|H60]; [split; [reflexivity|discriminate]|].
  destruct (Z.eqb_spec c 62) as [->|H62]; [split; [reflexivity|discriminate]|].
  destruct (Z.eqb_spec c 34) as [->|H34]; [split; [reflexivity|discriminate]|].
  destruct (Z.eqb_spec c 39) as [->|H39]; [split; [reflexivity|discriminate]|].
  destruct (Z.eqb_spec c 47) as [->|H47]; [split; [reflexivity|discriminate]|].
  split; [|discriminate].
  cbn [forallb]. unfold is_markup_char.
  rewrite (proj2 (Z.eqb_neq c 60) H60), (proj2 (Z.eqb_neq c 62) H62),
    (proj2 (Z.eqb_neq c 34) H34), (proj2 (Z.eqb_neq c 39) H39),
    (proj2 (Z.eqb_neq c 47) H47).
  reflexivity.
Qed.

(** X12.  The five replacements of [sanitizeInput] amount to one pass that
    escapes each character on its own, and the result holds none of the
    five characters.  The ampersand is left as it is, so the escaping
    cannot be undone: a text with a [<] and the text with [&lt;] in its
    place are sanitized to the same string. *)
Theorem sanitizeInput_escapes (s before after : jsstring) :
  sanitizeInput (JsString s) = JsString (flat_map escape_char s) /\
  forallb (fun c => negb (is_markup_char c)) (flat_map escape_char s) = true /\
  len s <= len (flat_map escape_char s) /\
  sanitizeInput (JsString (before ++ str "<" ++ after))
  = sanitizeInput (JsString (before ++ str "&lt;" ++ after)).
Proof.
  split; [apply sanitize_flat_map|].
  split; [|split].
  - induction s as [|c t IH]; [reflexivity|].
    cbn [flat_map]. rewrite forallb_app, IH.
    rewrite (proj1 (escape_char_clean c)). reflexivity.
  - induction s as [|c t IH]; [reflexivity|].
    cbn [flat_map]. rewrite len_app, len_cons.
    pose proof (proj2 (escape_char_clean c)). lia.
  - rewrite !sanitize_flat_map, !flat_map_app. reflexivity.
Qed.

(** ** Retrying *)

Lemma sum_backoff (baseDelay : Z) (k : nat) :
  fold_right Z.add 0
             (map (fun j => baseDelay * 2 ^ Z.of_nat j) (seq 0 k))
  = baseDelay * (2 ^ Z.of_nat k - 1).
Proof.
  induction k as [|k IH]; [simpl; lia|].
  rewrite seq_S, map_app, fold_right_app. cbn [map fold_right plus].
  assert (Hshift : forall l a,
             fold_right Z.add a l = fold_right Z.add 0 l + a).
  { induction l as [|x l IHl]; intros a; cbn [fold_right]; [lia|].
    rewrite IHl. lia. }
  rewrite Hshift, IH, Nat2Z.inj_succ, Z.pow_succ_r by lia. lia.
Qed.

Lemma retry_loop_run {A} (fn : nat -> Res A) (baseDelay : Z)
      (remaining : nat) :
  forall (i : nat) (lastError : option jsstring),
    let run := retry_loop fn baseDelay remaining i lastError in
    let calls := retry_calls run in
    (i <= calls <= i + remaining)%nat /\
    (remaining <> O -> (i < calls)%nat) /\
    (forall j, (i <= j)%nat -> (S j < calls)%nat -> exists e, fn j = Throw e) /\
    retry_sleeps run
    = map (fun j => baseDelay * 2 ^ Z.of_nat j) (seq i (calls - 1 - i)) /\
    match retry_result run with
    | Returned a => (i < calls)%nat /\ fn (calls - 1)%nat = Ok a
    | Rethrown error =>
        calls = (i + remaining)%nat /\
        (remaining = O -> error = lastError) /\
        (remaining <> O ->
         exists e, error = Some e /\ fn (calls - 1)%nat = Throw e)
    end.
Proof.
  induction remaining as [|later IH]; intros i lastError.
  - cbn [retry_loop retry_result retry_calls retry_sleeps].
    split; [lia|]. split; [congruence|]. split; [intros; lia|].
    split; [replace (i - 1 - i)%nat with O by lia; reflexivity|].
    split; [lia|]. split; [reflexivity|congruence].
  - cbn [retry_loop]. destruct (fn i) as [a|error] eqn:Hfn.
    + cbn [retry_result retry_calls retry_sleeps].
      split; [lia|]. split; [lia|]. split; [intros; lia|].
      split; [replace (S i - 1 - i)%nat with O by lia; reflexivity|].
      split; [lia|]. replace (S i - 1)%nat with i by lia. exact Hfn.
    + cbv zeta. cbn [retry_result retry_calls retry_sleeps].
      specialize (IH (S i) (Some error)). cbv zeta in IH.
      destruct IH as [Hrange [Hpos [Hthrows [Hsleeps Hresult]]]].
      set (rest := retry_loop fn baseDelay later (S i) (Some error)) in *.
      split; [lia|]. split; [lia|].
      split.
      { intros j Hij Hj. destruct (Nat.eq_dec j i) as [->|Hne].
        - exists error. exact Hfn.
        - apply Hthrows; lia. }
      split.
      { destruct later as [|later'].
        - replace (retry_calls rest - 1 - i)%nat with O by lia.
          rewrite Hsleeps.
          replace (retry_calls rest - 1 - S i)%nat with O by lia.
          reflexivity.
        - assert (S i < retry_calls rest)%nat by (apply Hpos; discriminate).
          replace (retry_calls rest - 1 - i)%nat
            with (S (retry_calls rest - 1 - S i)) by lia.
          cbn [seq map]. rewrite Hsleeps. reflexivity. }
      destruct (retry_result rest) as [a|err].
      * split; [lia|]. apply Hresult.
      * destruct Hresult as [Hcalls [Hzero Hmore]].
        split; [lia|]. split; [discriminate|]. intros _.
        destruct later as [|later'].
        -- exists error. split; [apply Hzero; reflexivity|].
           replace (retry_calls rest - 1)%nat with i by lia. exact Hfn.
        -- apply Hmore. discriminate.
Qed.

(** X13.  [retryWithBackoff] calls [fn] until a call returns, at most
    [maxRetries] times; every call before the last one threw.  Between
    two calls it sleeps, each time twice as long, and never after the
    last call: the [calls - 1] delays add up to
    [baseDelay * (2 ^ (calls - 1) - 1)].  It returns what the last call
    returned, or throws what the last call threw when all the calls
    allowed were made; with no call allowed it throws undefined. *)
Theorem retry_with_backoff_run {A} (fn : nat -> Res A)
        (maxRetries baseDelay : Z) :
  let run := retryWithBackoff fn maxRetries baseDelay in
  let calls := retry_calls run in
  Z.of_nat calls <= Z.max 0 maxRetries /\
  (forall j, (S j < calls)%nat -> exists e, fn j = Throw e) /\
  retry_sleeps run
  = map (fun j => baseDelay * 2 ^ Z.of_nat j) (seq 0 (calls - 1)) /\
  fold_right Z.add 0 (retry_sleeps run)
  = baseDelay * (2 ^ Z.of_nat (calls - 1) - 1) /\
  match retry_result run with
  | Returned a => (0 < calls)%nat /\ fn (calls - 1)%nat = Ok a
  | Rethrown None => calls = O /\ maxRetries <= 0
  | Rethrown (Some e) =>
      Z.of_nat calls = maxRetries /\ fn (calls - 1)%nat = Throw e
  end.
Proof.
  intros run calls.
  pose proof (retry_loop_run fn baseDelay (Z.to_nat maxRetries) O None) as H.
  cbv zeta in H. fold (retryWithBackoff fn maxRetries baseDelay) in H.
  fold run in H. fold calls in H.
  destruct H as [Hrange [Hpos [Hthrows [Hsleeps Hresult]]]].
  rewrite Nat.sub_0_r in Hsleeps.
  split; [lia|].
  split; [intros j Hj; apply Hthrows; [lia|exact Hj]|].
  split; [exact Hsleeps|].
  split; [rewrite Hsleeps; apply sum_backoff|].
  destruct (retry_result run) as [a|[e|]].
  - exact Hresult.
  - destruct Hresult as [Hcalls [Hzero Hmore]].
    destruct (Z.to_nat maxRetries) as [|k] eqn:Ek.
    + specialize (Hzero eq_refl). discriminate.
    + destruct (Hmore ltac:(discriminate)) as [e' [He Hfn]].
      injection He as <-. split; [lia|exact Hfn].
  - destruct Hresult as [Hcalls [Hzero Hmore]].
    destruct (Z.to_nat maxRetries) as [|k] eqn:Ek.
    + split; lia.
    + destruct (Hmore ltac:(discriminate)) as [e' [He _]]. discriminate.
Qed.

(** Two failures, then a value: three calls, and delays of 500 and 1000
    milliseconds with the default settings. *)
Example retry_flaky :
  let run := retryWithBackoff flaky 3 500 in
  retry_result run = Returned 7 /\ retry_calls run = 3%nat /\
  retry_sleeps run = [500; 1000].
Proof. repeat split. Qed.

(** ** From the record to the audio *)

Lemma split_no_separator (c : Z) (s : jsstring) :
  ~ In c s -> split c s = [s].
Proof.
  induction s as [|x t IH]; intros Hin; [reflexivity|].
  cbn [split]. destruct (Z.eqb_spec x c) as [->|Hne].
  - exfalso. apply Hin. left. reflexivity.
  - rewrite IH; [reflexivity|]. intros H. apply Hin. right. exact H.
Qed.

Lemma split_at_separator (c : Z) (a t : jsstring) :
  ~ In c a -> split c (a ++ c :: t) = a :: split c t.
Proof.
  induction a as [|x a IH]; intros Hin.
  - cbn [app split]. rewrite Z.eqb_refl. reflexivity.
  - cbn [app split]. destruct (Z.eqb_spec x c) as [->|Hne].
    + exfalso. apply Hin. left. reflexivity.
    + rewrite IH; [reflexivity|]. intros H. apply Hin. right. exact H.
Qed.

Lemma audio_path_file (file : jsstring) :
  ~ In 47 file -> nth 2 (split 47 (str "/audio/" ++ file)) [] = file.
Proof.
  intros Hin.
  change (str "/audio/" ++ file) with ([] ++ 47 :: (str "audio" ++ 47 :: file)).
  rewrite (split_at_separator 47 []) by (intros []).
  rewrite (split_at_separator 47 (str "audio"))
    by (vm_compute; intuition discriminate).
  rewrite (split_no_separator 47 file Hin). reflexivity.
Qed.

(** X14.  The audio URL of a record leads to its audio.  After a run of
    [generatePodcastSync] that went through all its steps, the record
    returned names the URL [origin/audio/file], the file name is the
    third part of that path, and the route that serves [/audio/file]
    answers with the audio that the run stored, whose size the record
    states, unless the read from the bucket fails. *)
Theorem generated_audio_is_served
        (rt : Runtime) (env : Env) (url userId origin : jsstring)
        (data : PodcastView) (w w' : World)
        (get_fault : jsstring -> option jsstring) :
  generatePodcastSync rt url userId env origin w = (Ok (GenSuccess data), w') ->
  v_cached data = None ->
  get_fault (v_audioFileName data) = None ->
  exists audio,
    v_audioUrl data
    = Some (origin ++ str "/audio/" ++ v_audioFileName data) /\
    serve_audio get_fault (str "/audio/" ++ v_audioFileName data) env w'
    = (Ok (AudioBody audio), w') /\
    v_audioSizeBytes data = Some (len audio) /\
    len audio <> 0.
Proof.
  intros Hrun Hfresh Hget.
  destruct (fresh_success rt url userId env origin data w w' Hrun Hfresh)
    as [_ [content [summary [audio [w5 Hs]]]]].
  cbv zeta in Hs.
  destruct Hs as [_ [_ [Hb [Hw' [Hdata [_ [_ [Haudio Hbucket]]]]]]]].
  set (file := audio_file_name (generateCacheKey url)) in *.
  assert (Hfile : v_audioFileName data = file) by (rewrite Hdata; reflexivity).
  assert (Hstore : bucket w' = bucket w5).
  { rewrite Hw'. apply (save_world rt env _ w5). }
  exists audio. rewrite Hfile in *.
  split; [rewrite Hdata; reflexivity|].
  split; [|split; [rewrite Hdata; reflexivity|exact Haudio]].
  unfold serve_audio. cbv zeta.
  rewrite audio_path_file
    by (apply audio_file_name_no_slash, generateCacheKey_base36).
  assert (Hlen : (len file =? 0) = false).
  { apply Z.eqb_neq. unfold file, audio_file_name.
    rewrite len_app. pose proof (len_nonneg (generateCacheKey url ++ str ".mp3")).
    change (len (str "podcast_")) with 8. lia. }
  rewrite Hlen.
  destruct (AUDIO_BUCKET env) as [put_fault|]; [|congruence].
  rewrite Hget, Hstore, Hb. cbn [find fst]. rewrite eqs_refl. reflexivity.
Qed.

Lemma generated_audio_is_served_witness :
  let rt := sample_runtime sample_page sample_audio in
  let env := sample_env false sample_script in
  let run :=
    generatePodcastSync rt story_url sample_user env sample_origin
                        empty_world in
  exists audio,
    serve_audio (fun _ => None) (str "/audio/" ++ str "podcast_r8v9js.mp3")
                env (snd run)
    = (Ok (AudioBody audio), snd run) /\
    len audio = 3.
Proof.
  intros rt env run.
  assert (Hrun : exists data,
             run = (Ok (GenSuccess data), snd run) /\
             v_cached data = None /\
             v_audioFileName data = str "podcast_r8v9js.mp3" /\
             v_audioSizeBytes data = Some (len sample_audio)).
  { vm_compute. eexists. repeat split. }
  destruct Hrun as [data [Hrun [Hfresh [Hname Hsize]]]].
  destruct (generated_audio_is_served rt env story_url sample_user
              sample_origin data empty_world (snd run) (fun _ => None)
              Hrun Hfresh eq_refl)
    as [audio [_ [Hserve [Hsize' _]]]].
  rewrite Hname in Hserve. exists audio. split; [exact Hserve|].
  rewrite Hsize in Hsize'. injection Hsize' as <-. reflexivity.
Defined.

(** ** What a missing binding costs *)

(** X15.  [generatePodcastSync] looks for the bucket only when it has the
    audio.  Without the binding [AUDIO_BUCKET], a request whose page,
    script and audio were all obtained ends in the failure "Audio storage
    not configured", after the page was fetched, the model was run on the
    whole extracted text and the speech service was called; nothing is
    written, so the next request for the URL does all of it again. *)
Theorem missing_storage_found_last
        (rt : Runtime) (env : Env) (url userId origin : jsstring)
        (content summary : jsstring) (audio : list Z) (w w1 w2 w3 : World) :
  cache_lookup env url w = None ->
  scrapeWebpage rt url (checked rt env url w) = (Ok content, w1) ->
  summarizeArticle rt (AI env) (truncate_at 1000 800 content) w1
  = (Ok summary, w2) ->
  generateAudio rt summary env w2 = (Ok audio, w3) ->
  AUDIO_BUCKET env = None ->
  generatePodcastSync rt url userId env origin w
  = (Ok (GenFailure (str "Audio storage not configured. Please check R2 bucket settings.")),
     w3) /\
  (exists key,
      trace w3
      = trace (checked rt env url w)
        ++ [EvFetchPage url;
            EvAiRun llama systemPrompt (userPrompt content);
            EvTts (tts_endpoint env) key (truncate_at 800 600 summary)]) /\
  untouched w w3 /\
  cache_lookup env url w3 = None.
Proof.
  intros Hmiss Hs Hsum Ha Hbucket.
  destruct (scrapeWebpage_ok _ _ _ _ _ Hs) as [Hlen Hw1].
  pose proof (truncate_at_short 1000 800 content
                (scrapeWebpage_max _ _ _ _ _ Hs)) as Hcut.
  destruct (summarizeArticle_ok _ _ _ _ _ _ Hsum) as [Hsl Hai].
  pose proof (generateAudio_ok _ _ _ _ _ _ Ha) as Hbytes.
  assert (Hfresh :
            generate_fresh rt (clock w) url userId env origin
                           (checked rt env url w)
            = (Throw (str "Audio storage not configured. Please check R2 bucket settings."),
               w3)).
  { cbv beta iota zeta delta [generate_fresh bind try_catch throw ret Date_now].
    rewrite Hs. destruct (len content <? 100) eqn:E100; [lia|].
    destruct (AI env) as [run|] eqn:HAI; [|congruence].
    rewrite Hsum. destruct (len summary <? 30) eqn:E30; [lia|].
    rewrite Ha. cbv beta iota zeta.
    destruct (len audio =? 0) eqn:Eb; [apply Z.eqb_eq in Eb; contradiction|].
    cbv beta iota zeta. rewrite Hbucket. reflexivity. }
  rewrite generatePodcastSync_run, Hmiss, Hfresh.
  split; [reflexivity|].
  assert (Hw2 : w2 = record_call rt
                       (EvAiRun llama systemPrompt (userPrompt content)) w1).
  { destruct (summarizeArticle_cases rt (AI env)
                (truncate_at 1000 800 content) w1)
      as [[m H]|[[m H]|[s' [H _]]]];
      rewrite H in Hsum; try discriminate.
    injection Hsum as _ <-. rewrite Hcut, Hcut. reflexivity. }
  assert (Hw3 : exists key,
             w3 = record_call rt
                    (EvTts (tts_endpoint env) key (truncate_at 800 600 summary))
                    w2).
  { destruct (generateAudio_cases rt summary env w2)
      as [[m H]|[key [_ [_ [[m H]|[response [H _]]]]]]];
      rewrite H in Ha; try discriminate.
    injection Ha as _ <-. exists key. reflexivity. }
  destruct Hw3 as [key Hw3].
  assert (Hsame : untouched w w3).
  { apply (untouched_trans _ _ _ (proj1 (checked_only_calls rt env url w))).
    rewrite Hw3, Hw2, Hw1. repeat split. }
  split.
  { exists key. rewrite Hw3, Hw2, Hw1. cbn [trace record_call].
    rewrite <- !app_assoc. reflexivity. }
  split; [exact Hsame|].
  unfold cache_lookup in *. rewrite (proj1 Hsame). exact Hmiss.
Qed.

Lemma missing_storage_found_last_witness :
  let rt := sample_runtime sample_page sample_audio in
  let run :=
    generatePodcastSync rt story_url sample_user no_bucket_env sample_origin
                        empty_world in
  fst run
  = Ok (GenFailure (str "Audio storage not configured. Please check R2 bucket settings.")) /\
  map is_pipeline_call (trace (snd run)) = [false; false; true; true; true].
Proof.
  intros rt run.
  set (w0 := checked rt no_bucket_env story_url empty_world).
  set (w1 := snd (scrapeWebpage rt story_url w0)).
  set (w2 := snd (summarizeArticle rt (AI no_bucket_env)
                                   (truncate_at 1000 800 sample_page) w1)).
  set (w3 := snd (generateAudio rt sample_script no_bucket_env w2)).
  destruct (missing_storage_found_last rt no_bucket_env story_url sample_user
              sample_origin sample_page sample_script sample_audio
              empty_world w1 w2 w3)
    as [Hrun _].
  - reflexivity.
  - vm_compute. reflexivity.
  - vm_compute. reflexivity.
  - vm_compute. reflexivity.
  - reflexivity.
  - unfold run. rewrite Hrun. split; [reflexivity|].
    vm_compute. reflexivity.
Defined.

(** ** One call to each service *)

Ltac calls_are n :=
  eexists; exists n;
  split;
  [ cbn [snd trace record_call set_bucket set_tables];
    rewrite <- ?app_assoc; reflexivity
  | reflexivity ].

Lemma generate_fresh_calls (rt : Runtime) (startTime : Z)
      (url userId : jsstring) (env : Env) (origin : jsstring) (w : World) :
  exists calls n,
    trace (snd (generate_fresh rt startTime url userId env origin w))
    = trace w ++ calls /\
    map call_kind calls = firstn n [2; 3; 4; 5; 6]%nat.
Proof.
  cbv beta iota zeta delta [generate_fresh bind try_catch throw ret Date_now].
  destruct (scrapeWebpage_world rt url w) as [r [Hs Hlen]]. rewrite Hs.
  destruct r as [content|msg]; [|calls_are 1%nat].
  specialize (Hlen content eq_refl).
  destruct (len content <? 100) eqn:E100; [lia|].
  destruct (AI env) as [run|] eqn:Hai; [|calls_are 1%nat].
  destruct (summarizeArticle_cases rt (Some run)
              (truncate_at 1000 800 content)
              (record_call rt (EvFetchPage url) w))
    as [[msg Hsum]|[[msg Hsum]|[summary [Hsum [Hsl _]]]]]; rewrite Hsum;
    [calls_are 1%nat|calls_are 2%nat|].
  destruct (len summary <? 30) eqn:E30; [lia|].
  match goal with
  | |- context [generateAudio rt summary env ?w2] =>
      destruct (generateAudio_cases rt summary env w2)
        as [[msg Ha]|[key [Hkey [Hne [[msg Ha]|[response [Ha [_ [_ Hbytes]]]]]]]]];
        rewrite Ha
  end; [calls_are 2%nat|calls_are 3%nat|].
  cbv beta iota zeta.
  destruct (len (resp_bytes response) =? 0) eqn:Eb;
    [apply Z.eqb_eq in Eb; contradiction|].
  cbv beta iota zeta.
  destruct (AUDIO_BUCKET env) as [put_fault|]; [|calls_are 3%nat].
  rewrite bucket_put_run.
  destruct (put_fault (audio_file_name (generateCacheKey url)));
    [calls_are 4%nat|].
  cbv beta iota zeta. rewrite !save_if_bound_run.
  destruct (PODCAST_DB env) as [db|]; [|calls_are 4%nat].
  cbv zeta.
  match goal with
  | |- context [insert_fault db ?d] => destruct (insert_fault db d)
  end; [calls_are 5%nat|].
  match goal with
  | |- context [existsb ?f ?l] => destruct (existsb f l)
  end; calls_are 5%nat.
Qed.

(** X16.  A run of [generatePodcastSync] calls each service at most once
    and in one order: the schema script and the lookup when the database
    is bound, then the page, the model, the speech service, the bucket
    and the save.  Nothing is retried, and the log is never written. *)
Theorem one_call_to_each_service
        (rt : Runtime) (url userId : jsstring) (env : Env)
        (origin : jsstring) (w : World) :
  exists calls,
    trace (snd (generatePodcastSync rt url userId env origin w))
    = trace w ++ calls /\
    increasing (map call_kind calls) = true /\
    (length calls <= 7)%nat /\
    ~ In 7%nat (map call_kind calls).
Proof.
  rewrite generatePodcastSync_run.
  assert (Hprefix : forall n,
             let kinds := firstn n [2; 3; 4; 5; 6]%nat in
             increasing kinds = true /\
             increasing (0 :: 1 :: kinds)%nat = true /\
             (length kinds <= 5)%nat /\ ~ In 7%nat (0 :: 1 :: kinds)%nat).
  { intros n. cbv zeta.
    do 5 (destruct n as [|n];
          [cbn [firstn length In]; repeat split;
           try reflexivity; try lia; intuition lia|]).
    cbn [firstn]. rewrite firstn_nil. cbn [length In].
    repeat split; try reflexivity; try lia; intuition lia. }
  destruct (cache_lookup env url w).
  - cbn [snd]. rewrite checked_world.
    destruct (PODCAST_DB env).
    + exists [EvDbExec; EvDbSelectByUrl url].
      split; [cbn [trace record_call]; rewrite <- app_assoc; reflexivity|].
      cbn [map call_kind length In].
      repeat split; try reflexivity; try lia; intuition lia.
    + exists []. split; [symmetry; apply app_nil_r|].
      cbn [map call_kind length In].
      repeat split; try reflexivity; try lia; intuition lia.
  - destruct (generate_fresh_calls rt (clock w) url userId env origin
                (checked rt env url w)) as [calls [n [Ht Hk]]].
    destruct (Hprefix n) as [Hinc [Hinc' [Hlen Hlog]]].
    assert (Hcalls : (length calls <= 5)%nat).
    { rewrite <- (length_map call_kind), Hk. exact Hlen. }
    assert (Hsnd : forall p : Res GenResult * World,
               snd (let (r, w') := p in
                    match r with
                    | Ok result => (Ok result, w')
                    | Throw message => (Ok (failure_of message), w')
                    end) = snd p).
    { intros [[r|m] w']; reflexivity. }
    rewrite Hsnd, Ht, checked_world.
    destruct (PODCAST_DB env).
    + exists ([EvDbExec; EvDbSelectByUrl url] ++ calls).
      split; [cbn [trace record_call]; rewrite <- !app_assoc; reflexivity|].
      rewrite map_app, Hk, length_app. cbn [map call_kind app length].
      split; [exact Hinc'|]. split; [lia|exact Hlog].
    + exists calls. split; [reflexivity|]. rewrite Hk.
      split; [exact Hinc|]. split; [lia|].
      intros Hin. apply Hlog. right. right. exact Hin.
Qed.

(** ** The table keeps its keys *)

Lemma NoDup_snoc {A} (l : list A) (x : A) :
  NoDup l -> ~ In x l -> NoDup (l ++ [x]).
Proof.
  induction l as [|a l IH]; intros Hl Hx.
  - constructor; [intros []|constructor].
  - inversion Hl as [|? ? Ha Hl']; subst. cbn [app]. constructor.
    + intros Hin. apply in_app_or in Hin as [Hin|[Hin|[]]];
        [contradiction|]. subst. apply Hx. left. reflexivity.
    + apply IH; [exact Hl'|]. intros Hin. apply Hx. right. exact Hin.
Qed.

Lemma table_unique_insert (rows : list PodcastRow) (id now : Z)
      (d : PodcastData) :
  table_unique rows -> existsb (clashes d) rows = false ->
  table_unique (rows ++ [row_of_data id now d]).
Proof.
  intros [Hurls Hkeys] Hclash.
  assert (Hnone : forall row, In row rows -> clashes d row = false).
  { intros row Hin. destruct (clashes d row) eqn:E; [|reflexivity].
    assert (existsb (clashes d) rows = true)
      by (apply existsb_exists; exists row; split; assumption).
    congruence. }
  split.
  - rewrite map_app. apply NoDup_snoc; [exact Hurls|].
    cbn [row_url row_of_data]. intros Hin.
    apply in_map_iff in Hin as [row [Hurl Hin]].
    specialize (Hnone row Hin). unfold clashes in Hnone.
    rewrite Hurl, eqs_refl in Hnone. discriminate.
  - rewrite flat_map_app. cbn [flat_map keys_of row_cache_key row_of_data].
    rewrite app_nil_r. apply NoDup_snoc; [exact Hkeys|].
    intros Hin. apply in_flat_map in Hin as [row [Hin Hkey]].
    specialize (Hnone row Hin). unfold clashes in Hnone.
    unfold keys_of in Hkey. destruct (row_cache_key row) as [k|]; [|contradiction].
    destruct Hkey as [->|[]]. rewrite eqs_refl, orb_true_r in Hnone.
    discriminate.
Qed.

Lemma save_if_bound_unique (rt : Runtime) (env : Env) (d : PodcastData)
      (w : World) :
  table_unique (podcasts w) ->
  table_unique (podcasts (snd (save_if_bound rt env d w))).
Proof.
  intros H. rewrite save_if_bound_run. cbn [snd].
  destruct (PODCAST_DB env) as [db|]; [|exact H]. cbv zeta.
  destruct (insert_fault db d); [exact H|].
  destruct (existsb (clashes d) (podcasts w)) eqn:E; [exact H|].
  cbn [podcasts set_tables]. apply table_unique_insert; assumption.
Qed.

(** X17.  Every run of [generatePodcastSync] keeps the table free of
    duplicates: when no two rows share a URL or a cache key before the
    run, none do after it, and no row is lost or changed. *)
Theorem table_stays_unique
        (rt : Runtime) (url userId : jsstring) (env : Env)
        (origin : jsstring) (w : World) :
  table_unique (podcasts w) ->
  let w' := snd (generatePodcastSync rt url userId env origin w) in
  table_unique (podcasts w') /\
  exists added, podcasts w' = podcasts w ++ added /\ (length added <= 1)%nat.
Proof.
  intros Hunique. cbv zeta. rewrite generatePodcastSync_run.
  destruct (checked_only_calls rt env url w) as [[Hp _] _].
  destruct (cache_lookup env url w).
  { cbn [snd]. rewrite Hp. split; [exact Hunique|].
    exists []. split; [symmetry; apply app_nil_r|simpl; lia]. }
  destruct (generate_fresh_shape rt (clock w) url userId env origin
              (checked rt env url w))
    as [[m [w2 [Hthrow [[Hp2 _] _]]]]|
        [content [summary [key [response [put_fault [w3 Hshape]]]]]]].
  { rewrite Hthrow. cbn [snd]. rewrite Hp2, Hp. split; [exact Hunique|].
    exists []. split; [symmetry; apply app_nil_r|simpl; lia]. }
  cbv zeta in Hshape. destruct Hshape as [Hrun [[[Hp3 _] _] _]].
  rewrite Hrun. cbn [snd].
  match goal with
  | |- context [save_if_bound rt env ?d ?w5] =>
      assert (Hrows : podcasts w5 = podcasts w)
        by (unfold stored; cbn [podcasts set_bucket record_call];
            rewrite Hp3, Hp; reflexivity);
      pose proof (save_if_bound_unique rt env d w5) as Hsave;
      pose proof (save_world rt env d w5) as Hworld
  end.
  rewrite Hrows in Hsave. split; [exact (Hsave Hunique)|].
  cbv zeta in Hworld. destruct Hworld as [_ [_ [[_ Hsame]|[_ [Hsame|Hnew]]]]].
  - exists []. rewrite Hsame, Hrows. split; [symmetry; apply app_nil_r|simpl; lia].
  - exists []. rewrite Hsame, Hrows. split; [symmetry; apply app_nil_r|simpl; lia].
  - destruct Hnew as [id [created Hnew]]. eexists.
    rewrite Hnew, Hrows. split; [reflexivity|simpl; lia].
Qed.

Lemma table_stays_unique_witness :
  table_unique
    (podcasts
       (snd (generatePodcastSync (sample_runtime sample_page sample_audio)
               story_url sample_user (sample_env false sample_script)
               sample_origin empty_world))).
Proof.
  apply (table_stays_unique (sample_runtime sample_page sample_audio)
           story_url sample_user (sample_env false sample_script)
           sample_origin empty_world).
  split; constructor.
Defined.

(** ** The title against the wording of the specification *)

Lemma letters_cons (c : Z) (s : jsstring) :
  letters (c :: s) = ((if is_space c then 0 else 1) + letters s)%nat.
Proof. unfold letters. cbn [filter]. destruct (is_space c); reflexivity. Qed.

Lemma letters_app (a b : jsstring) :
  letters (a ++ b) = (letters a + letters b)%nat.
Proof. unfold letters. rewrite filter_app, length_app. reflexivity. Qed.

Lemma letters_le (s : jsstring) : Z.of_nat (letters s) <= len s.
Proof.
  induction s as [|c t IH]; [unfold len; simpl; lia|].
  rewrite letters_cons, len_cons. destruct (is_space c); lia.
Qed.

Lemma letters_rev (s : jsstring) : letters (rev s) = letters s.
Proof.
  induction s as [|c t IH]; [reflexivity|].
  cbn [rev]. rewrite letters_app, !letters_cons, IH.
  change (letters []) with O. lia.
Qed.

Lemma letters_trimStart (s : jsstring) : letters (trimStart s) = letters s.
Proof.
  induction s as [|c t IH]; [reflexivity|].
  cbn [trimStart]. destruct (is_space c) eqn:E; [|reflexivity].
  rewrite letters_cons, E. exact IH.
Qed.

Lemma letters_trim (s : jsstring) : letters (trim s) = letters s.
Proof.
  unfold trim, trimEnd.
  rewrite letters_rev, letters_trimStart, letters_rev, letters_trimStart.
  reflexivity.
Qed.

Lemma letters_skip_run (s : jsstring) :
  letters (skipn (space_run s) s) = letters s.
Proof.
  induction s as [|c t IH]; [reflexivity|].
  cbn [space_run]. destruct (is_space c) eqn:E; [|reflexivity].
  cbn [skipn]. rewrite letters_cons, E. exact IH.
Qed.

Lemma letters_replace_spaces_aux (n : nat) (s : jsstring) :
  (length s <= n)%nat ->
  letters (replace_all match_spaces (str " ") s) = letters s.
Proof.
  revert s. induction n as [|n IH]; intros s Hlen.
  - destruct s; [reflexivity|simpl in Hlen; lia].
  - destruct s as [|c t]; [reflexivity|].
    simpl in Hlen. unfold replace_all. cbn [replace_all_from].
    unfold match_spaces at 1. cbn [space_run].
    destruct (is_space c) eqn:E; cbv beta iota.
    + change (str " ") with [32]. cbn [app].
      rewrite replace_all_from_skipn, !letters_cons, E.
      change (is_space 32) with true.
      pose proof (IH (skipn (space_run t) t)) as Hrest.
      unfold replace_all in Hrest. change (str " ") with [32] in Hrest.
      rewrite Hrest by (rewrite length_skipn; lia).
      rewrite letters_skip_run. reflexivity.
    + rewrite !letters_cons, E.
      pose proof (IH t) as Hrest. unfold replace_all in Hrest.
      rewrite Hrest by lia. reflexivity.
Qed.

Lemma letters_replace_spaces (s : jsstring) :
  letters (replace_all match_spaces (str " ") s) = letters s.
Proof. apply (letters_replace_spaces_aux (length s)). lia. Qed.

Lemma is_space_range (c : Z) : is_space c = true -> c <= 32 \/ 160 <= c.
Proof.
  unfold is_space.
  rewrite !orb_true_iff, !andb_true_iff, !Z.leb_le, !Z.eqb_eq. lia.
Qed.

Lemma is_space_upper (c : Z) : is_space (upper c) = is_space c.
Proof.
  unfold upper. destruct ((97 <=? c) && (c <=? 122)) eqn:E; [|reflexivity].
  apply andb_true_iff in E as [E1 E2].
  apply Z.leb_le in E1. apply Z.leb_le in E2.
  destruct (is_space c) eqn:Ec; [apply is_space_range in Ec; lia|].
  destruct (is_space (c - 32)) eqn:Eu; [apply is_space_range in Eu; lia|].
  reflexivity.
Qed.

Lemma is_space_lower (c : Z) : is_space (lower c) = is_space c.
Proof.
  unfold lower. destruct ((65 <=? c) && (c <=? 90)) eqn:E; [|reflexivity].
  apply andb_true_iff in E as [E1 E2].
  apply Z.leb_le in E1. apply Z.leb_le in E2.
  destruct (is_space c) eqn:Ec; [apply is_space_range in Ec; lia|].
  destruct (is_space (c + 32)) eqn:Eu; [apply is_space_range in Eu; lia|].
  reflexivity.
Qed.

Lemma letters_map (f : Z -> Z) (s : jsstring) :
  (forall c, is_space (f c) = is_space c) ->
  letters (map f s) = letters s.
Proof.
  intros Hf. induction s as [|c t IH]; [reflexivity|].
  cbn [map]. rewrite !letters_cons, Hf, IH. reflexivity.
Qed.

Lemma letters_capitalize (word : jsstring) :
  letters (capitalize word) = letters word.
Proof.
  destruct word as [|c rest]; [reflexivity|].
  unfold capitalize, toUpperCase, toLowerCase.
  rewrite letters_app, (letters_map upper [c] is_space_upper),
    (letters_map lower rest is_space_lower).
  change (c :: rest) with ([c] ++ rest). rewrite letters_app. reflexivity.
Qed.

Lemma letters_join (parts : list jsstring) :
  letters (join (str " ") parts) = letters (concat parts).
Proof.
  induction parts as [|p rest IH]; [reflexivity|].
  destruct rest as [|q rest].
  - cbn [join concat]. rewrite app_nil_r. reflexivity.
  - change (join (str " ") (p :: q :: rest))
      with (p ++ str " " ++ join (str " ") (q :: rest)).
    cbn [concat] in *. rewrite !letters_app, IH, letters_app.
    change (letters (str " ")) with O. lia.
Qed.

Lemma letters_concat_capitalize (parts : list jsstring) :
  letters (concat (map capitalize parts)) = letters (concat parts).
Proof.
  induction parts as [|p rest IH]; [reflexivity|].
  cbn [map concat]. rewrite !letters_app, letters_capitalize, IH.
  reflexivity.
Qed.

Lemma letters_split (s : jsstring) :
  letters (concat (split 32 s)) = letters s.
Proof.
  induction s as [|x t IH]; [reflexivity|].
  cbn [split]. destruct (Z.eqb_spec x 32) as [->|Hx].
  - cbn [concat app]. rewrite IH, letters_cons. reflexivity.
  - destruct (split 32 t) as [|p rest].
    + cbn [concat app] in *. rewrite !letters_cons, <- IH. reflexivity.
    + cbn [concat app] in *. rewrite !letters_cons, <- IH.
      rewrite letters_app. reflexivity.
Qed.

Lemma replace_char (k r : Z) (s : jsstring) :
  replace_all (match_lit [k]) [r] s
  = map (fun x => if x =? k then r else x) s.
Proof.
  unfold replace_all. induction s as [|x t IH]; [reflexivity|].
  cbn [replace_all_from map]. unfold match_lit at 1.
  cbn [startsWith length]. rewrite andb_true_r, Z.eqb_sym.
  destruct (x =? k); cbn [app]; rewrite IH; reflexivity.
Qed.

Lemma hyphens_to_spaces (s : jsstring) :
  replace_all (match_lit (str "_")) (str " ")
    (replace_all (match_lit (str "-")) (str " ") s)
  = map (fun c => if (c =? 45) || (c =? 95) then 32 else c) s.
Proof.
  change (str "_") with [95]. change (str "-") with [45].
  change (str " ") with [32].
  rewrite !replace_char, map_map. apply map_ext. intros c.
  destruct (Z.eqb_spec c 45) as [->|Hc]; [reflexivity|].
  destruct (c =? 95); reflexivity.
Qed.

Lemma format_title_words (segment : jsstring) :
  format_title segment = spec_title_words segment.
Proof.
  unfold format_title, spec_title_words. cbv zeta.
  rewrite hyphens_to_spaces. reflexivity.
Qed.

Lemma startsWith_true (p s : jsstring) :
  startsWith p s = true -> exists b, s = p ++ b.
Proof.
  revert s. induction p as [|a p IH]; intros s H.
  - exists s. reflexivity.
  - destruct s as [|x t]; [discriminate|]. cbn [startsWith] in H.
    apply andb_true_iff in H as [Ha Hp]. apply Z.eqb_eq in Ha. subst x.
    destruct (IH t Hp) as [b ->]. exists b. reflexivity.
Qed.

Lemma includes_split (p s : jsstring) :
  includes p s = true -> exists a b, s = a ++ p ++ b.
Proof.
  induction s as [|x t IH]; cbn [includes]; intros H.
  - rewrite orb_false_r in H. destruct (startsWith_true p [] H) as [b Hb].
    exists [], b. exact Hb.
  - apply orb_true_iff in H as [H|H].
    + destruct (startsWith_true p (x :: t) H) as [b Hb].
      exists [], b. exact Hb.
    + destruct (IH H) as [a [b ->]]. exists (x :: a), b. reflexivity.
Qed.

(** Stripping the extension of a name that holds "www." leaves the three
    letters in place. *)
Lemma strip_extension_www (a b : jsstring) :
  exists r, strip_extension (a ++ str "www." ++ b) = a ++ str "www" ++ r.
Proof.
  set (h := a ++ str "www." ++ b).
  assert (Hh : h = (a ++ str "www") ++ 46 :: b).
  { unfold h. rewrite <- app_assoc. reflexivity. }
  assert (Hdot : nth_error h (length (a ++ str "www")) = Some 46).
  { rewrite Hh, nth_error_app2 by lia. rewrite Nat.sub_diag. reflexivity. }
  unfold strip_extension. cbv zeta.
  destruct ((0 <=? lastIndexOf 46 h) && (lastIndexOf 46 h <? len h - 1))
           eqn:E.
  2:{ exists (46 :: b). rewrite Hh, <- app_assoc. reflexivity. }
  apply andb_true_iff in E as [E _]. apply Z.leb_le in E.
  rewrite lastIndexOf_last_index in *.
  destruct (last_index 46 h) as [k|] eqn:Ek; [|lia].
  destruct (last_index_some 46 h k Ek) as [_ Hlast].
  assert (Hk : (length (a ++ str "www") <= k)%nat).
  { destruct (le_lt_dec (length (a ++ str "www")) k) as [Hle|Hlt];
      [exact Hle|]. destruct (Hlast _ Hlt Hdot). }
  unfold substring0. rewrite Nat2Z.id, Hh, firstn_app.
  rewrite firstn_all2 by exact Hk. rewrite <- app_assoc.
  eexists. reflexivity.
Qed.

Lemma spec_title_words_www (host : jsstring) :
  includes (str "www.") host = true -> 3 <= len (spec_title_words host).
Proof.
  intros H. destruct (includes_split _ _ H) as [a [b ->]].
  destruct (strip_extension_www a b) as [r Hr].
  unfold spec_title_words. cbv zeta. rewrite Hr.
  match goal with
  | |- 3 <= len ?title =>
      assert (Hl : (3 <= letters title)%nat);
        [|pose proof (letters_le title); lia]
  end.
  rewrite letters_trim, letters_replace_spaces, letters_join,
    letters_concat_capitalize, letters_split.
  rewrite !map_app, !letters_app.
  change (letters (map (fun c => if (c =? 45) || (c =? 95) then 32 else c)
                       (str "www"))) with 3%nat.
  lia.
Qed.

Lemma title_segment_spec (u : URLRecord) :
  (filter (fun segment => 0 <? len segment) (split 47 (pathname u)) = [] ->
   startsWith (str "www.") (hostname u) = true \/
   includes (str "www.") (hostname u) = false) ->
  title_segment u = spec_title_source u.
Proof.
  unfold title_segment, spec_title_source. intros H.
  destruct (filter _ (split 47 (pathname u))) as [|seg segs]; [|reflexivity].
  rewrite (replace_first_leading _ _ (H eq_refl)). reflexivity.
Qed.

(** What [extractTitle] makes of the words, against the clamp and the
    fallback of the specification. *)
Lemma finish_title_spec (name : jsstring) :
  let words := spec_title_words name in
  finish_title words = trim (spec_title name) /\
  (len words <= 100 -> finish_title words = spec_title name) /\
  (len (spec_title_clamped name) < 3 -> finish_title words = str "Article").
Proof.
  intros words.
  assert (Htrim : trim words = words) by apply trim_trim.
  unfold finish_title, spec_title, spec_title_clamped. fold words.
  pose proof (len_nonneg words) as Hn.
  rewrite (len_substring0 100 words) by lia.
  destruct (len words <? 3) eqn:E3.
  - apply Z.ltb_lt in E3.
    replace (Z.min 100 (len words) <? 3) with true
      by (symmetry; apply Z.ltb_lt; lia).
    repeat split; reflexivity.
  - apply Z.ltb_ge in E3.
    replace (Z.min 100 (len words) <? 3) with false
      by (symmetry; apply Z.ltb_ge; lia).
    destruct (len words >? 100) eqn:E100.
    + apply Z.gtb_lt in E100. split; [reflexivity|]. split; lia.
    + rewrite Z.gtb_ltb in E100. apply Z.ltb_ge in E100.
      assert (Hall : substring0 100 words = words).
      { unfold substring0. apply firstn_all2. unfold len in E100. lia. }
      rewrite Hall, Htrim. split; [reflexivity|]. split; [reflexivity|lia].
Qed.

(** A derived result under 3 characters gives the fallback, whatever the
    host name: a host name with "www." elsewhere than at its start, where
    [replace('www.', '')] departs from the wording, keeps three letters
    and so never has such a result. *)
Lemma title_fallback_spec (u : URLRecord) :
  len (spec_title_clamped (spec_title_source u)) < 3 ->
  title_of_url u = str "Article".
Proof.
  intros Hshort.
  assert (Hcase :
            (filter (fun segment => 0 <? len segment)
                    (split 47 (pathname u)) = [] ->
             startsWith (str "www.") (hostname u) = true \/
             includes (str "www.") (hostname u) = false) \/
            (filter (fun segment => 0 <? len segment)
                    (split 47 (pathname u)) = [] /\
             startsWith (str "www.") (hostname u) = false /\
             includes (str "www.") (hostname u) = true)).
  { destruct (filter _ (split 47 (pathname u))) as [|seg segs];
      [|left; discriminate].
    destruct (startsWith (str "www.") (hostname u));
      [left; intros _; left; reflexivity|].
    destruct (includes (str "www.") (hostname u));
      [right; repeat split|left; intros _; right; reflexivity]. }
  destruct Hcase as [Hwww|[Hsegs [Hstart Hinner]]].
  - unfold title_of_url.
    rewrite (title_segment_spec u Hwww), format_title_words.
    apply (finish_title_spec (spec_title_source u)). exact Hshort.
  - exfalso.
    assert (Hsource : spec_title_source u = hostname u)
      by (unfold spec_title_source; rewrite Hsegs, Hstart; reflexivity).
    rewrite Hsource in Hshort. unfold spec_title_clamped in Hshort.
    rewrite len_substring0 in Hshort by lia.
    pose proof (spec_title_words_www _ Hinner). lia.
Qed.

(** C5.  A URL that does not parse gives exactly "Article".  For
    [https://x.com/], which has no path segment, the title is the one
    that the wording derives from the host name [x.com]: the name minus a
    leading "www.", extension stripped, hyphens and underscores to
    spaces, title-cased and clamped gives "X", which is under 3
    characters, so the title is the fallback "Article".  For every URL
    the fallback is returned whenever the result derived in this way,
    from the last path segment or the host name, is empty or under 3
    characters.  For every URL with a path segment, and for every URL
    without one whose host name has "www." at its start or nowhere, the
    title is the one derived by the wording, with the white space that
    the clamp may leave at its end removed; when the words have at most
    100 characters it is that title as it is. *)
Theorem title_derivation_and_fallback (rt : Runtime) (url : jsstring) :
  (new_URL rt url = None -> extractTitle rt url = str "Article") /\
  (new_URL rt url = Some {| hostname := str "x.com"; pathname := str "/" |} ->
   spec_title_source {| hostname := str "x.com"; pathname := str "/" |}
   = str "x.com" /\
   spec_title_clamped (str "x.com") = str "X" /\
   extractTitle rt url = spec_title (str "x.com") /\
   extractTitle rt url = str "Article") /\
  (forall u,
      new_URL rt url = Some u ->
      len (spec_title_clamped (spec_title_source u)) < 3 ->
      extractTitle rt url = str "Article") /\
  (forall u,
      new_URL rt url = Some u ->
      (filter (fun segment => 0 <? len segment) (split 47 (pathname u)) = [] ->
       startsWith (str "www.") (hostname u) = true \/
       includes (str "www.") (hostname u) = false) ->
      extractTitle rt url = trim (spec_title (spec_title_source u)) /\
      (len (spec_title_words (spec_title_source u)) <= 100 ->
       extractTitle rt url = spec_title (spec_title_source u))).
Proof.
  unfold extractTitle. split; [intros ->; reflexivity|].
  split.
  { intros ->. vm_compute. repeat split. }
  split.
  { intros u Hu Hshort. rewrite Hu. apply title_fallback_spec. exact Hshort. }
  intros u Hu Hwww. rewrite Hu. unfold title_of_url.
  rewrite (title_segment_spec u Hwww), format_title_words.
  pose proof (finish_title_spec (spec_title_source u)) as H.
  cbv zeta in H. destruct H as [Htrim [Hshort _]].
  split; assumption.
Qed.

(** The two addresses of the specification, a host name that gives the
    fallback, and a host name with a leading "www.", on the sample
    runtime. *)
Lemma title_derivation_and_fallback_witness :
  extractTitle (sample_runtime [] []) (str "not a url") = str "Article" /\
  extractTitle (sample_runtime [] []) (str "https://x.com/")
  = spec_title (str "x.com") /\
  extractTitle (sample_runtime [] []) (str "https://x.com/") = str "Article" /\
  extractTitle (sample_runtime [] []) (str "https://ab.io/") = str "Article" /\
  extractTitle (sample_runtime [] []) (str "https://www.example.com/")
  = spec_title (str "example.com") /\
  spec_title (str "example.com") = str "Example".
Proof.
  split; [|split; [|split; [|split; [|split]]]].
  - apply (proj1 (title_derivation_and_fallback (sample_runtime [] [])
                    (str "not a url"))).
    vm_compute. reflexivity.
  - apply (proj1 (proj2 (title_derivation_and_fallback (sample_runtime [] [])
                           (str "https://x.com/")))).
    vm_compute. reflexivity.
  - apply (proj1 (proj2 (title_derivation_and_fallback (sample_runtime [] [])
                           (str "https://x.com/")))).
    vm_compute. reflexivity.
  - apply (proj1 (proj2 (proj2 (title_derivation_and_fallback
                                  (sample_runtime [] [])
                                  (str "https://ab.io/"))))
             {| hostname := str "ab.io"; pathname := str "/" |}).
    + vm_compute. reflexivity.
    + vm_compute. reflexivity.
  - apply (proj2 (proj2 (proj2 (title_derivation_and_fallback
                                  (sample_runtime [] [])
                                  (str "https://www.example.com/"))))
             {| hostname := str "www.example.com"; pathname := str "/" |}).
    + vm_compute. reflexivity.
    + intros _. left. vm_compute. reflexivity.
    + vm_compute. discriminate.
  - vm_compute. reflexivity.
Defined.
